(** * Constrained multilayer perceptron: the clipped training loop

    A shallow embedding of
    [constrained_linear_regression/constrained_multi_layer_perceptron.py]
    (class [ConstrainedMultilayerPerceptron]) and the properties of its
    training loop.

    The estimator is a Python object whose weight arrays are mutated in
    place by the optimizer and by the clipping step; the embedding keeps an
    explicit store of arrays and lets the estimator's attributes hold
    references into it.  Everything the class inherits from the
    neural-network framework (back-propagation, the optimizers, the
    validation split, the no-improvement rule, initialisation and input
    validation) is a parameter of the development. *)

From Stdlib Require Import ZArith List Lia Bool.
From Stdlib Require Import Floats.SpecFloat.
From stdpp Require Import base list.
Import ListNotations.

Local Open Scope Z_scope.

(** ** NumPy: binary64 values and the element-wise operations the loop uses *)

Module Numpy.

(** [numpy.float64]: IEEE 754 binary64, as specified by [spec_float]. *)
Abbreviation float64 := spec_float.

Definition prec : Z := 53.
Definition emax : Z := 1024.

Definition inf : float64 := S754_infinity false.
Definition ninf : float64 := S754_infinity true.
Definition nan : float64 := S754_nan.
Definition zero : float64 := S754_zero false.

(** [float(n)] for a Python integer. *)
Definition of_int (n : Z) : float64 := binary_normalize prec emax n 0 false.

Definition add : float64 -> float64 -> float64 := SFadd prec emax.
Definition sub : float64 -> float64 -> float64 := SFsub prec emax.
Definition mul : float64 -> float64 -> float64 := SFmul prec emax.
Definition div : float64 -> float64 -> float64 := SFdiv prec emax.

Definition isnan (x : float64) : bool :=
  match x with S754_nan => true | _ => false end.

(** [numpy.isfinite]: neither an infinity nor a NaN. *)
Definition isfinite (x : float64) : bool :=
  match x with
  | S754_zero _ | S754_finite _ _ _ => true
  | S754_infinity _ | S754_nan => false
  end.

(** The comparisons [a < b], [a <= b], [a > b] and [a >= b]; each is false
    as soon as one side is a NaN. *)
Definition lt (a b : float64) : bool := SFltb a b.
Definition le (a b : float64) : bool := SFleb a b.
Definition gt (a b : float64) : bool := SFltb b a.
Definition ge (a b : float64) : bool := SFleb b a.

(** The floating-point kernels of [numpy.clip]:
    [_NPY_MAX(a, b) = isnan(a) ? a : (a > b ? a : b)],
    [_NPY_MIN(a, b) = isnan(a) ? a : (a < b ? a : b)] and
    [_NPY_CLIP(x, lo, hi) = _NPY_MIN(_NPY_MAX(x, lo), hi)]. *)
Definition npy_max (a b : float64) : float64 :=
  if isnan a then a else if gt a b then a else b.

Definition npy_min (a b : float64) : float64 :=
  if isnan a then a else if lt a b then a else b.

Definition clip (x lo hi : float64) : float64 :=
  npy_min (npy_max x lo) hi.

(** [numpy.clip] on Python integers (used for the batch size). *)
Definition clip_int (x lo hi : Z) : Z := Z.min (Z.max x lo) hi.

(** An [ndarray] of dimension one or two.  The weight matrices are
    two-dimensional (one row per input unit), the intercepts
    one-dimensional. *)
Inductive ndarray :=
| A1 (v : list float64)
| A2 (rows : list (list float64)).

(** [numpy.isfinite(w).all()] *)
Definition all_finite (a : ndarray) : bool :=
  match a with
  | A1 v => forallb isfinite v
  | A2 rows => forallb (forallb isfinite) rows
  end.

(** [a.shape[0]] *)
Definition len (a : ndarray) : nat :=
  match a with A1 v => length v | A2 rows => length rows end.

(** [a[i] = numpy.clip(a[i], lo, hi)] with scalar bounds: on a matrix the
    item is row [i], on a vector it is entry [i]; [None] stands for the
    [IndexError] of an index out of range. *)
Definition clip_item (a : ndarray) (i : nat) (lo hi : float64) : option ndarray :=
  match a with
  | A1 v =>
      match v !! i with
      | Some x => Some (A1 (<[i := clip x lo hi]> v))
      | None => None
      end
  | A2 rows =>
      match rows !! i with
      | Some r => Some (A2 (<[i := map (fun x => clip x lo hi) r]> rows))
      | None => None
      end
  end.

End Numpy.

Import Numpy.

(** ** [sklearn.utils.gen_batches] and slicing *)

(** A Python [slice(start, stop)]. *)
Record slice := Slice { start : Z; stop : Z }.

(** The body of the generator: [k] rounds of
    [end = start + batch_size; if end + min_batch_size > n: continue;
     yield slice(start, end); start = end], with [min_batch_size = 0].
    The result is the slices yielded and the final value of [start]. *)
Fixpoint gen_batches_rounds (k : nat) (start0 n batch_size : Z) : list slice * Z :=
  match k with
  | O => ([], start0)
  | S k' =>
      let end_ := start0 + batch_size in
      if end_ + 0 >? n then gen_batches_rounds k' start0 n batch_size
      else
        let '(l, s) := gen_batches_rounds k' end_ n batch_size in
        (Slice start0 end_ :: l, s)
  end.

(** [gen_batches(n, batch_size)]; [None] is the [ValueError] raised for a
    batch size that is not positive. *)
Definition gen_batches (n batch_size : Z) : option (list slice) :=
  if batch_size <=? 0 then None
  else
    let '(l, s) := gen_batches_rounds (Z.to_nat (n / batch_size)) 0 n batch_size in
    Some (l ++ (if s <? n then [Slice s n] else [])).

(** A data matrix is the list of its rows (samples). *)
Abbreviation data := (list (list float64)).

(** [X[batch_slice]] for [0 <= start <= stop]. *)
Definition getslice (X : data) (sl : slice) : data :=
  take (Z.to_nat (stop sl - start sl)) (drop (Z.to_nat (start sl)) X).

(** [X.shape[-1]] *)
Definition shape_last (X : data) : nat :=
  match X with [] => O | r :: _ => length r end.

(** ** Exceptions and warnings *)

Inductive exn :=
| KeyboardInterrupt
| ValueError_hidden_layer_sizes   (* "hidden_layer_sizes must be > 0" *)
| ValueError_non_finite           (* "Solver produced non-finite parameter weights" *)
| ValueError_batch_size           (* raised by gen_batches *)
| ValueError_validation           (* raised by the framework's validation *)
| ValueError_random_state         (* raised by check_random_state *)
| AssertionError_solver           (* "ConstrainMLP only support sgd and adam optimizer." *)
| AssertionError_coef_shape       (* malformed bound vector *)
| IndexError
| AttributeError.

Inductive warning :=
| BatchSizeClipped        (* "Got `batch_size` less than 1 or larger than sample size..." *)
| MaxIterReached (max_iter : Z)  (* "Stochastic Optimizer: Maximum iterations (%d) reached..." *)
| TrainingInterrupted.    (* "Training interrupted by user." *)

Inductive solver_t := sgd | adam | lbfgs.

Inductive batch_size_t := Auto | Size (n : Z).

(** A reference to an array of the store. *)
Abbreviation ref := nat.

(** The store of arrays. *)
Abbreviation store := (list ndarray).

Definition fetch (h : store) (r : ref) : ndarray := default (A1 []) (h !! r).

(** The arrays a list of references points to. *)
Definition load (h : store) (rs : list ref) : list ndarray := map (fetch h) rs.

(** In-place assignment [param[...] = v] for every pair of [zip(rs, vs)]. *)
Fixpoint assign (h : store) (rs : list ref) (vs : list ndarray) : store :=
  match rs, vs with
  | r :: rs', v :: vs' => assign (<[r := v]> h) rs' vs'
  | _, _ => h
  end.

(** [[c.copy() for c in arrays]]: fresh arrays at the end of the store. *)
Definition copy_all (h : store) (rs : list ref) : store * list ref :=
  (h ++ load h rs, seq (length h) (length rs)).

(** What [check_random_state] returns: NumPy's global generator (the
    singleton [np.random.mtrand._rand]) or a generator of its own, in the
    state [g]. *)
Inductive random_state_t (G : Type) :=
| GlobalState
| OwnState (g : G).
Arguments GlobalState {G}.
Arguments OwnState {G} g.

(** ** The estimator and the world it runs in *)

Section Estimator.

(** [K]: the attributes private to the framework (best loss, validation
    scores, label binarizer, scratch buffers, ...); [Opt]: the state of an
    optimizer; [G]: the state of NumPy's global random generator;
    [Cfg]: the hyper-parameters the loop only passes on (learning rates,
    momentum, activation, ...). *)
Context {K Opt G Cfg : Type}.

Record hyper := {
  hidden_layer_sizes : list Z;
  solver : solver_t;
  batch_size : batch_size_t;
  max_iter : Z;
  early_stopping : bool;
  validation_fraction : float64;
  n_iter_no_change : Z;
  tol : float64;
  warm_start : bool;
  random_state : option Z;
  other : Cfg
}.

Record estimator := {
  hp : hyper;
  min_coef_ : list float64;
  max_coef_ : list float64;
  has_coefs_ : bool;              (* hasattr(self, "coefs_") *)
  coefs_ : list ref;
  intercepts_ : list ref;
  n_outputs_ : nat;
  n_iter_ : Z;
  t_ : Z;
  loss_ : float64;
  loss_curve_ : list float64;
  _no_improvement_count : Z;
  _best_coefs : option (list ref);       (* None: attribute not set *)
  _best_intercepts : option (list ref);
  _optimizer : option Opt;                 (* None: attribute not set *)
  _random_state : option (random_state_t G);
  priv : K
}.

(** The world: the estimator, the store its arrays live in, NumPy's global
    generator and the warnings emitted so far. *)
Record world := {
  self : estimator;
  heap : store;
  np_random : G;
  warned : list warning
}.

Definition with_self (f : estimator -> estimator) (w : world) : world :=
  {| self := f (self w); heap := heap w; np_random := np_random w;
     warned := warned w |}.

Definition with_heap (h : store) (w : world) : world :=
  {| self := self w; heap := h; np_random := np_random w;
     warned := warned w |}.

Definition with_np_random (g : G) (w : world) : world :=
  {| self := self w; heap := heap w; np_random := g;
     warned := warned w |}.

Definition with_warned (l : list warning) (w : world) : world :=
  {| self := self w; heap := heap w; np_random := np_random w;
     warned := l |}.

(** Attribute assignments. *)
Definition set_bounds (mn mx : list float64) (s : estimator) : estimator :=
  {| hp := hp s; min_coef_ := mn; max_coef_ := mx; has_coefs_ := has_coefs_ s;
     coefs_ := coefs_ s; intercepts_ := intercepts_ s; n_outputs_ := n_outputs_ s;
     n_iter_ := n_iter_ s; t_ := t_ s; loss_ := loss_ s; loss_curve_ := loss_curve_ s;
     _no_improvement_count := _no_improvement_count s;
     _best_coefs := _best_coefs s; _best_intercepts := _best_intercepts s;
     _optimizer := _optimizer s;
     _random_state := _random_state s; priv := priv s |}.

Definition set_weights (cs ics : list ref) (s : estimator) : estimator :=
  {| hp := hp s; min_coef_ := min_coef_ s; max_coef_ := max_coef_ s;
     has_coefs_ := true;
     coefs_ := cs; intercepts_ := ics; n_outputs_ := n_outputs_ s;
     n_iter_ := n_iter_ s; t_ := t_ s; loss_ := loss_ s; loss_curve_ := loss_curve_ s;
     _no_improvement_count := _no_improvement_count s;
     _best_coefs := _best_coefs s; _best_intercepts := _best_intercepts s;
     _optimizer := _optimizer s;
     _random_state := _random_state s; priv := priv s |}.

Definition set_n_outputs_ (n : nat) (s : estimator) : estimator :=
  {| hp := hp s; min_coef_ := min_coef_ s; max_coef_ := max_coef_ s;
     has_coefs_ := has_coefs_ s;
     coefs_ := coefs_ s; intercepts_ := intercepts_ s; n_outputs_ := n;
     n_iter_ := n_iter_ s; t_ := t_ s; loss_ := loss_ s; loss_curve_ := loss_curve_ s;
     _no_improvement_count := _no_improvement_count s;
     _best_coefs := _best_coefs s; _best_intercepts := _best_intercepts s;
     _optimizer := _optimizer s;
     _random_state := _random_state s; priv := priv s |}.

Definition set_n_iter_ (n : Z) (s : estimator) : estimator :=
  {| hp := hp s; min_coef_ := min_coef_ s; max_coef_ := max_coef_ s;
     has_coefs_ := has_coefs_ s;
     coefs_ := coefs_ s; intercepts_ := intercepts_ s; n_outputs_ := n_outputs_ s;
     n_iter_ := n; t_ := t_ s; loss_ := loss_ s; loss_curve_ := loss_curve_ s;
     _no_improvement_count := _no_improvement_count s;
     _best_coefs := _best_coefs s; _best_intercepts := _best_intercepts s;
     _optimizer := _optimizer s;
     _random_state := _random_state s; priv := priv s |}.

Definition set_t_ (n : Z) (s : estimator) : estimator :=
  {| hp := hp s; min_coef_ := min_coef_ s; max_coef_ := max_coef_ s;
     has_coefs_ := has_coefs_ s;
     coefs_ := coefs_ s; intercepts_ := intercepts_ s; n_outputs_ := n_outputs_ s;
     n_iter_ := n_iter_ s; t_ := n; loss_ := loss_ s; loss_curve_ := loss_curve_ s;
     _no_improvement_count := _no_improvement_count s;
     _best_coefs := _best_coefs s; _best_intercepts := _best_intercepts s;
     _optimizer := _optimizer s;
     _random_state := _random_state s; priv := priv s |}.

Definition set_loss_ (x : float64) (s : estimator) : estimator :=
  {| hp := hp s; min_coef_ := min_coef_ s; max_coef_ := max_coef_ s;
     has_coefs_ := has_coefs_ s;
     coefs_ := coefs_ s; intercepts_ := intercepts_ s; n_outputs_ := n_outputs_ s;
     n_iter_ := n_iter_ s; t_ := t_ s; loss_ := x; loss_curve_ := loss_curve_ s;
     _no_improvement_count := _no_improvement_count s;
     _best_coefs := _best_coefs s; _best_intercepts := _best_intercepts s;
     _optimizer := _optimizer s;
     _random_state := _random_state s; priv := priv s |}.

Definition set_loss_curve_ (l : list float64) (s : estimator) : estimator :=
  {| hp := hp s; min_coef_ := min_coef_ s; max_coef_ := max_coef_ s;
     has_coefs_ := has_coefs_ s;
     coefs_ := coefs_ s; intercepts_ := intercepts_ s; n_outputs_ := n_outputs_ s;
     n_iter_ := n_iter_ s; t_ := t_ s; loss_ := loss_ s; loss_curve_ := l;
     _no_improvement_count := _no_improvement_count s;
     _best_coefs := _best_coefs s; _best_intercepts := _best_intercepts s;
     _optimizer := _optimizer s;
     _random_state := _random_state s; priv := priv s |}.

Definition set_no_improvement_count (n : Z) (s : estimator) : estimator :=
  {| hp := hp s; min_coef_ := min_coef_ s; max_coef_ := max_coef_ s;
     has_coefs_ := has_coefs_ s;
     coefs_ := coefs_ s; intercepts_ := intercepts_ s; n_outputs_ := n_outputs_ s;
     n_iter_ := n_iter_ s; t_ := t_ s; loss_ := loss_ s; loss_curve_ := loss_curve_ s;
     _no_improvement_count := n;
     _best_coefs := _best_coefs s; _best_intercepts := _best_intercepts s;
     _optimizer := _optimizer s;
     _random_state := _random_state s; priv := priv s |}.

Definition set_best (bc bi : option (list ref)) (s : estimator) : estimator :=
  {| hp := hp s; min_coef_ := min_coef_ s; max_coef_ := max_coef_ s;
     has_coefs_ := has_coefs_ s;
     coefs_ := coefs_ s; intercepts_ := intercepts_ s; n_outputs_ := n_outputs_ s;
     n_iter_ := n_iter_ s; t_ := t_ s; loss_ := loss_ s; loss_curve_ := loss_curve_ s;
     _no_improvement_count := _no_improvement_count s;
     _best_coefs := bc; _best_intercepts := bi;
     _optimizer := _optimizer s;
     _random_state := _random_state s; priv := priv s |}.

Definition set_optimizer (o : option Opt) (s : estimator) : estimator :=
  {| hp := hp s; min_coef_ := min_coef_ s; max_coef_ := max_coef_ s;
     has_coefs_ := has_coefs_ s;
     coefs_ := coefs_ s; intercepts_ := intercepts_ s; n_outputs_ := n_outputs_ s;
     n_iter_ := n_iter_ s; t_ := t_ s; loss_ := loss_ s; loss_curve_ := loss_curve_ s;
     _no_improvement_count := _no_improvement_count s;
     _best_coefs := _best_coefs s; _best_intercepts := _best_intercepts s;
     _optimizer := o; _random_state := _random_state s; priv := priv s |}.

Definition set_priv (k : K) (s : estimator) : estimator :=
  {| hp := hp s; min_coef_ := min_coef_ s; max_coef_ := max_coef_ s;
     has_coefs_ := has_coefs_ s;
     coefs_ := coefs_ s; intercepts_ := intercepts_ s; n_outputs_ := n_outputs_ s;
     n_iter_ := n_iter_ s; t_ := t_ s; loss_ := loss_ s; loss_curve_ := loss_curve_ s;
     _no_improvement_count := _no_improvement_count s;
     _best_coefs := _best_coefs s; _best_intercepts := _best_intercepts s;
     _optimizer := _optimizer s;
     _random_state := _random_state s; priv := k |}.

Definition set_random_state (rs : random_state_t G) (s : estimator) : estimator :=
  {| hp := hp s; min_coef_ := min_coef_ s; max_coef_ := max_coef_ s;
     has_coefs_ := has_coefs_ s;
     coefs_ := coefs_ s; intercepts_ := intercepts_ s; n_outputs_ := n_outputs_ s;
     n_iter_ := n_iter_ s; t_ := t_ s; loss_ := loss_ s; loss_curve_ := loss_curve_ s;
     _no_improvement_count := _no_improvement_count s;
     _best_coefs := _best_coefs s; _best_intercepts := _best_intercepts s;
     _optimizer := _optimizer s; _random_state := Some rs; priv := priv s |}.

(** *** Computations: state, exceptions and the user's interruption

    A computation runs in a world and under a pending interruption:
    [Some n] delivers a [KeyboardInterrupt] at the [n+1]-th interruptible
    point reached from here, [None] is a run the user does not interrupt. *)

Inductive outcome (A : Type) :=
| Returns (a : A) (w : world) (sigint : option nat)
| Raises (e : exn) (w : world) (sigint : option nat).
Arguments Returns {A} a w sigint.
Arguments Raises {A} e w sigint.

Definition M (A : Type) : Type := world -> option nat -> outcome A.

Definition ret {A} (a : A) : M A := fun w i => Returns a w i.

Definition bind {A B} (m : M A) (k : A -> M B) : M B :=
  fun w i => match m w i with
             | Returns a w' i' => k a w' i'
             | Raises e w' i' => Raises e w' i'
             end.

Definition raise {A} (e : exn) : M A := fun w i => Raises e w i.

Definition get : M world := fun w i => Returns w w i.

Definition modify (f : world -> world) : M unit := fun w i => Returns tt (f w) i.

(** [warnings.warn(msg)] *)
Definition warn (m : warning) : M unit :=
  modify (fun w => with_warned (warned w ++ [m]) w).

(** An interruptible point: the pending interruption, if it is due, is
    delivered (and consumed) here. *)
Definition tick : M unit :=
  fun w i => match i with
             | None => Returns tt w None
             | Some n =>
                 match n with
                 | O => Raises KeyboardInterrupt w None
                 | S n' => Returns tt w (Some n')
                 end
             end.

(** [try: body / except KeyboardInterrupt: handler] *)
Definition try_except_KeyboardInterrupt (body handler : M unit) : M unit :=
  fun w i => match body w i with
             | Raises KeyboardInterrupt w' i' => handler w' i'
             | r => r
             end.

End Estimator.

Arguments hyper : clear implicits.
Arguments estimator : clear implicits.
Arguments world : clear implicits.
Arguments outcome : clear implicits.
Arguments Returns {K Opt G Cfg A} a w sigint.
Arguments Raises {K Opt G Cfg A} e w sigint.

Declare Scope py_scope.
Delimit Scope py_scope with py.
Notation "x <- m ;; k" := (bind m (fun x => k))
  (at level 100, m at next level, right associativity) : py_scope.
Notation "m ;;; k" := (bind m (fun _ => k))
  (at level 100, right associativity) : py_scope.

Local Open Scope py_scope.

(** ** The class [ConstrainedMultilayerPerceptron] *)

Section ConstrainedMultilayerPerceptron.

Context {K Opt G Cfg : Type}.

Abbreviation hyper := (hyper Cfg).
Abbreviation estimator := (estimator K Opt G Cfg).
Abbreviation world := (world K Opt G Cfg).
Abbreviation M := (@M K Opt G Cfg).

(** *** The collaborators

    The methods and functions below belong to the framework the class
    extends; the loop only calls them.  Each is a function of what it
    reads, returning what it writes. *)

(** [self._validate_hyperparameters()]: [false] when it raises. *)
Variable _validate_hyperparameters : hyper -> bool.

(** [self._validate_input(X, y, incremental, reset)]: the validated data
    and the private attributes it records, or [None] when it raises. *)
Variable _validate_input : hyper -> K -> data -> data -> bool -> bool -> option (data * data * K).

(** [np.random.RandomState(seed)]: a generator of its own, seeded. *)
Variable RandomState : Z -> G.

(** [self._initialize(y, layer_units, dtype)], drawing from the generator
    [self._random_state] stands for, handed to it in its current state:
    the fresh weight and intercept arrays, the private attributes and the
    generator as the draws leave it.  It also resets [n_iter_], [t_],
    [loss_curve_] and [_no_improvement_count]. *)
Variable _initialize : hyper -> K -> G -> data -> list Z -> list ndarray * list ndarray * K * G.

(** [self._backprop(X_batch, y_batch, activations, deltas, coef_grads,
    intercept_grads)]: the loss and the gradients, computed from the
    current weights; the buffers it is handed are scratch space that it
    overwrites. *)
Variable _backprop : hyper -> K -> list ndarray -> list ndarray -> data -> data ->
                     float64 * list ndarray * list ndarray.

(** The optimizers of [sklearn.neural_network._stochastic_optimizers]. *)
Variable SGDOptimizer : list ndarray -> Cfg -> Opt.
Variable AdamOptimizer : list ndarray -> Cfg -> Opt.
(** [optimizer.update_params(params, grads)]: the new optimizer state and
    the values it leaves in the arrays of [params] (updated in place). *)
Variable update_params : Opt -> list ndarray -> list ndarray -> Opt * list ndarray.
(** [optimizer.iteration_ends(t)] *)
Variable iteration_ends : Opt -> Z -> Opt.
(** [optimizer.trigger_stopping(msg, verbose)]: whether to stop, and the
    optimizer with its learning rate decayed when it does not. *)
Variable trigger_stopping : Opt -> bool * Opt.

(** [train_test_split(X, y, test_size=..., stratify=...)], called without a
    [random_state]: it shuffles with NumPy's global generator.  The result
    is [(X_train, X_val, y_train, y_val)]; [None] when it raises. *)
Variable train_test_split : G -> float64 -> option data -> data -> data ->
                            option (data * data * data * data * G).

(** [is_classifier(self)] and [self._label_binarizer.inverse_transform]. *)
Variable is_classifier : bool.
Variable inverse_transform : K -> data -> data.

(** [self._update_no_improvement_count(early_stopping, X_val, y_val)]: from
    the loss curve, the current weights and the held-out data, the new
    value of [_no_improvement_count], whether the current weights are the
    best so far (then they are copied into [_best_coefs] and
    [_best_intercepts]), and the private attributes (best loss, validation
    scores). *)
Variable no_improvement_rule :
  hyper -> K -> bool -> option (data * data) -> list ndarray -> list ndarray ->
  list float64 -> Z -> Z * bool * K.

(** *** [check_random_state]

    [sklearn.utils.check_random_state(seed)]: NumPy's global generator for
    [None]; for an integer, [np.random.RandomState(seed)], which raises a
    [ValueError] unless [0 <= seed <= 2**32 - 1] ([None] here). *)
Definition check_random_state (seed : option Z) : option (random_state_t G) :=
  match seed with
  | None => Some GlobalState
  | Some n =>
      if (0 <=? n) && (n <=? 2 ^ 32 - 1) then Some (OwnState (RandomState n))
      else None
  end.

(** The state of the generator [rs] stands for, and the world once a draw
    has left that generator in the state [g]. *)
Definition generator_of (rs : random_state_t G) (w : world) : G :=
  match rs with
  | GlobalState => np_random w
  | OwnState g => g
  end.

Definition advance (rs : random_state_t G) (g : G) (w : world) : world :=
  match rs with
  | GlobalState => with_np_random g w
  | OwnState _ => with_self (set_random_state (OwnState g)) w
  end.

(** *** [_verify_coef] *)

(** Modelled from the spec: [_verify_coef] is defined in the base class
    ([base.py]), which is not part of the sources at hand.  A bound vector
    that is omitted defaults to [value] for every input feature; one that
    is given must be sized to the input feature count, and a malformed
    shape is an error raised immediately. *)
Definition _verify_coef (feature_count : nat) (coef : option (list float64))
    (value : float64) : M (list float64) :=
  match coef with
  | None => ret (replicate feature_count value)
  | Some c =>
      if Nat.eqb (length c) feature_count then ret c
      else raise AssertionError_coef_shape
  end.

(** *** [_update_coef_using_constrain] *)

(** One round of the loop over [enumerate(zip(self.min_coef_,
    self.max_coef_))]:
    [coef_grads[0][coef_idx] = np.clip(coef_grads[0][coef_idx], min_coef, max_coef)]. *)
Definition clip_row (coef_grads : list ref) (coef_idx : nat) (min_coef max_coef : float64)
    : M unit :=
  w <- get ;;
  match coef_grads !! O with
  | None => raise IndexError
  | Some r =>
      match heap w !! r with
      | None => raise IndexError
      | Some a =>
          match clip_item a coef_idx min_coef max_coef with
          | None => raise IndexError
          | Some a' => modify (with_heap (<[r := a']> (heap w)))
          end
      end
  end.

Fixpoint clip_rows (coef_grads : list ref) (coef_idx : nat)
    (bounds : list (float64 * float64)) : M unit :=
  match bounds with
  | [] => ret tt
  | (min_coef, max_coef) :: rest =>
      tick ;;;
      clip_row coef_grads coef_idx min_coef max_coef ;;;
      clip_rows coef_grads (S coef_idx) rest
  end.

Definition _update_coef_using_constrain (coef_grads : list ref) : M unit :=
  w <- get ;;
  clip_rows coef_grads O (zip (min_coef_ (self w)) (max_coef_ (self w))).

Definition _after_training : M unit := ret tt.

(** *** [_fit_constrained_stochastic] *)

(** [self._optimizer.update_params(params, grads)]: the arrays of [params]
    are updated in place. *)
Definition optimizer_update_params (params : list ref) (grads : list ndarray) : M unit :=
  w <- get ;;
  match _optimizer (self w) with
  | None => raise AttributeError
  | Some o =>
      let '(o', vals) := update_params o (load (heap w) params) grads in
      modify (fun w => with_heap (assign (heap w) params vals)
                         (with_self (set_optimizer (Some o')) w))
  end.

(** The body of [for batch_slice in gen_batches(n_samples, batch_size)];
    the result is [accumulated_loss]. *)
Fixpoint batch_loop (X y : data) (params : list ref) (slices : list slice)
    (accumulated_loss : float64) : M float64 :=
  match slices with
  | [] => ret accumulated_loss
  | batch_slice :: rest =>
      tick ;;;
      w <- get ;;
      let X_batch := getslice X batch_slice in
      let y_batch := getslice y batch_slice in
      let '(batch_loss, coef_grads, intercept_grads) :=
        _backprop (hp (self w)) (priv (self w))
                  (load (heap w) (coefs_ (self w))) (load (heap w) (intercepts_ (self w)))
                  X_batch y_batch in
      let accumulated_loss :=
        add accumulated_loss
            (mul batch_loss (of_int (stop batch_slice - start batch_slice))) in
      (* update weights *)
      let grads := coef_grads ++ intercept_grads in
      optimizer_update_params params grads ;;;
      _update_coef_using_constrain params ;;;
      batch_loop X y params rest accumulated_loss
  end.

(** [self._update_no_improvement_count(early_stopping, X_val, y_val)] *)
Definition _update_no_improvement_count (early_stopping : bool)
    (val : option (data * data)) : M unit :=
  w <- get ;;
  let s := self w in
  let '(count, best, k) :=
    no_improvement_rule (hp s) (priv s) early_stopping val
      (load (heap w) (coefs_ s)) (load (heap w) (intercepts_ s))
      (loss_curve_ s) (_no_improvement_count s) in
  modify (with_self (fun s => set_priv k (set_no_improvement_count count s))) ;;;
  if best then
    w <- get ;;
    let '(h1, bc) := copy_all (heap w) (coefs_ (self w)) in
    let '(h2, bi) := copy_all h1 (intercepts_ (self w)) in
    modify (fun w => with_heap h2 (with_self (set_best (Some bc) (Some bi)) w))
  else ret tt.

Definition optimizer_iteration_ends : M unit :=
  w <- get ;;
  match _optimizer (self w) with
  | None => raise AttributeError
  | Some o =>
      modify (with_self (set_optimizer (Some (iteration_ends o (t_ (self w))))))
  end.

Definition optimizer_trigger_stopping : M bool :=
  w <- get ;;
  match _optimizer (self w) with
  | None => raise AttributeError
  | Some o =>
      let '(is_stopping, o') := trigger_stopping o in
      modify (with_self (set_optimizer (Some o'))) ;;;
      ret is_stopping
  end.

(** The mini-batches of one round of [for it in range(self.max_iter)]
    (lines 174-196); the result is [accumulated_loss]. *)
Definition epoch_batches (X y : data) (params : list ref) (n_samples batch_size : Z)
    : M float64 :=
  slices <- match gen_batches n_samples batch_size with
            | Some l => ret l
            | None => raise ValueError_batch_size
            end ;;
  batch_loop X y params slices zero.

(** The book-keeping of the round (lines 198-211). *)
Definition epoch_bookkeeping (X : data) (val : option (data * data))
    (n_samples : Z) (early_stopping : bool) (accumulated_loss : float64) : M unit :=
  tick ;;;
  modify (with_self (fun s => set_n_iter_ (n_iter_ s + 1) s)) ;;;
  tick ;;;
  modify (with_self (set_loss_ (div accumulated_loss (of_int (Z.of_nat (length X)))))) ;;;
  tick ;;;
  modify (with_self (fun s => set_t_ (t_ s + n_samples) s)) ;;;
  tick ;;;
  modify (with_self (fun s => set_loss_curve_ (loss_curve_ s ++ [loss_ s]) s)) ;;;
  (* update no_improvement_count based on training loss or validation score *)
  tick ;;;
  _update_no_improvement_count early_stopping val ;;;
  (* for learning rate that needs to be updated at iteration end *)
  tick ;;;
  optimizer_iteration_ends.

(** Lines 174-211: the mini-batches and the book-keeping of the epoch. *)
Definition epoch_train (X y : data) (val : option (data * data)) (params : list ref)
    (n_samples batch_size : Z) (early_stopping : bool) : M unit :=
  accumulated_loss <- epoch_batches X y params n_samples batch_size ;;
  epoch_bookkeeping X val n_samples early_stopping accumulated_loss.

(** The no-improvement rule (lines 213-233); the result tells whether the
    round ends in [break]. *)
Definition check_no_improvement : M bool :=
  w <- get ;;
  if _no_improvement_count (self w) >? n_iter_no_change (hp (self w)) then
    (* not better than last n_iter_no_change iterations by tol:
       stop or decrease learning rate *)
    tick ;;;
    is_stopping <- optimizer_trigger_stopping ;;
    if is_stopping then ret true
    else
      tick ;;;
      modify (with_self (set_no_improvement_count 0)) ;;;
      ret false
  else ret false.

(** One round of [for it in range(self.max_iter)]; the result tells whether
    the round ended in [break]. *)
Definition epoch (X y : data) (val : option (data * data)) (params : list ref)
    (n_samples batch_size : Z) (early_stopping incremental : bool) : M bool :=
  epoch_train X y val params n_samples batch_size early_stopping ;;;
  stopped <- check_no_improvement ;;
  if stopped then ret true
  else if incremental then ret true
  else
    w <- get ;;
    (if n_iter_ (self w) =? max_iter (hp (self w)) then
       tick ;;; warn (MaxIterReached (max_iter (hp (self w))))
     else ret tt) ;;;
    ret false.

(** [for it in range(self.max_iter)] with its [break]. *)
Fixpoint epochs (rounds : nat) (X y : data) (val : option (data * data))
    (params : list ref) (n_samples batch_size : Z)
    (early_stopping incremental : bool) : M unit :=
  match rounds with
  | O => ret tt
  | S rounds' =>
      broke <- epoch X y val params n_samples batch_size early_stopping incremental ;;
      if broke then ret tt
      else epochs rounds' X y val params n_samples batch_size early_stopping incremental
  end.

(** The batch size the loop uses (lines 161-169). *)
Definition resolve_batch_size (n_samples : Z) : M Z :=
  w <- get ;;
  match batch_size (hp (self w)) with
  | Auto => ret (Z.min 200 n_samples)
  | Size b =>
      (if (b <? 1) || (b >? n_samples) then warn BatchSizeClipped else ret tt) ;;;
      ret (clip_int b 1 n_samples)
  end.

(** The validation split (lines 140-156): the training data and the
    held-out data, if any. *)
Definition split_validation (X y : data) (early_stopping : bool)
    : M (data * data * option (data * data)) :=
  if early_stopping then
    w <- get ;;
    (* do not stratify in multilabel classification *)
    let should_stratify := is_classifier && Nat.eqb (n_outputs_ (self w)) 1 in
    let stratify := if should_stratify then Some y else None in
    match train_test_split (np_random w) (validation_fraction (hp (self w))) stratify X y with
    | None => raise ValueError_validation
    | Some (X_train, X_val, y_train, y_val, g) =>
        modify (with_np_random g) ;;;
        let y_val := if is_classifier then inverse_transform (priv (self w)) y_val
                     else y_val in
        ret (X_train, y_train, Some (X_val, y_val))
    end
  else ret (X, y, None).

(** [self.coefs_ = self._best_coefs; self.intercepts_ = self._best_intercepts] *)
Definition restore_best_weights : M unit :=
  w <- get ;;
  match _best_coefs (self w) with
  | None => raise AttributeError
  | Some bc =>
      modify (with_self (fun s => set_weights bc (intercepts_ s) s)) ;;;
      match _best_intercepts (self w) with
      | None => raise AttributeError
      | Some bi => modify (with_self (fun s => set_weights (coefs_ s) bi s))
      end
  end.

(** The construction of the optimizer (lines 121-138). *)
Definition make_optimizer (params : list ref) (incremental : bool) : M unit :=
  w <- get ;;
  if negb incremental || negb (bool_decide (is_Some (_optimizer (self w)))) then
    match solver (hp (self w)) with
    | sgd => modify (with_self (set_optimizer
               (Some (SGDOptimizer (load (heap w) params) (other (hp (self w)))))))
    | adam => modify (with_self (set_optimizer
               (Some (AdamOptimizer (load (heap w) params) (other (hp (self w)))))))
    | lbfgs => ret tt
    end
  else ret tt.

(** What lines 120-169 leave to the loop: [params], [early_stopping], the
    training and the held-out data, [n_samples] and [batch_size]. *)
Record setup := {
  st_params : list ref;
  st_early_stopping : bool;
  st_X : data;
  st_y : data;
  st_val : option (data * data);
  st_n_samples : Z;
  st_batch_size : Z
}.

(** Lines 120-169. *)
Definition training_setup (X y : data) (incremental : bool) : M setup :=
  w <- get ;;
  let params := coefs_ (self w) ++ intercepts_ (self w) in
  make_optimizer params incremental ;;;
  (* early_stopping in partial_fit does not make sense *)
  let early_stopping := early_stopping (hp (self w)) && negb incremental in
  sp <- split_validation X y early_stopping ;;
  let '(X, y, val) := sp in
  let n_samples := Z.of_nat (length X) in
  batch_size <- resolve_batch_size n_samples ;;
  ret {| st_params := params; st_early_stopping := early_stopping;
         st_X := X; st_y := y; st_val := val;
         st_n_samples := n_samples; st_batch_size := batch_size |}.

(** The loop of lines 172-243. *)
Definition run_epochs (st : setup) (incremental : bool) : M unit :=
  w <- get ;;
  epochs (Z.to_nat (max_iter (hp (self w)))) (st_X st) (st_y st) (st_val st)
         (st_params st) (st_n_samples st) (st_batch_size st)
         (st_early_stopping st) incremental.

(** Lines 171-252. *)
Definition training_loop (st : setup) (incremental : bool) : M unit :=
  try_except_KeyboardInterrupt
    (run_epochs st incremental)
    (warn TrainingInterrupted) ;;;
  (if st_early_stopping st then
     (* restore best weights *)
     restore_best_weights
   else ret tt) ;;;
  _after_training.

Definition _fit_constrained_stochastic (X y : data) (layer_units : list Z)
    (incremental : bool) : M unit :=
  st <- training_setup X y incremental ;;
  training_loop st incremental.

(** *** [_constrained_fit] and [fit] *)

(** [all(np.isfinite(w).all() for w in chain(self.coefs_, self.intercepts_))] *)
Definition weights_finite (w : world) : bool :=
  forallb all_finite (load (heap w) (coefs_ (self w) ++ intercepts_ (self w))).

(** Lines 37-83 of [_constrained_fit]: validation and initialisation.  The
    result is the validated data and [layer_units]. *)
Definition prepare (X y : data) (incremental : bool) : M (data * data * list Z) :=
  w <- get ;;
  let hidden_layer_sizes := hidden_layer_sizes (hp (self w)) in
  (* Validate input parameters. *)
  (if _validate_hyperparameters (hp (self w)) then ret tt
   else raise ValueError_validation) ;;;
  (if existsb (fun n => n <=? 0) hidden_layer_sizes
   then raise ValueError_hidden_layer_sizes else ret tt) ;;;
  let first_pass := negb (has_coefs_ (self w))
                    || (negb (warm_start (hp (self w))) && negb incremental) in
  match _validate_input (hp (self w)) (priv (self w)) X y incremental first_pass with
  | None => raise ValueError_validation
  | Some (X, y, k) =>
      modify (with_self (set_priv k)) ;;;
      let n_features := Z.of_nat (shape_last X) in
      modify (with_self (set_n_outputs_ (shape_last y))) ;;;
      let layer_units := [n_features] ++ hidden_layer_sizes ++ [Z.of_nat (shape_last y)] in
      (* check random state *)
      rs <- match check_random_state (random_state (hp (self w))) with
            | Some rs => ret rs
            | None => raise ValueError_random_state
            end ;;
      modify (with_self (set_random_state rs)) ;;;
      (if first_pass then
         (* First time training the model *)
         w <- get ;;
         let '(cs, ics, k, g) :=
           _initialize (hp (self w)) (priv (self w)) (generator_of rs w) y layer_units in
         let h := heap w ++ cs ++ ics in
         let crefs := seq (length (heap w)) (length cs) in
         let irefs := seq (length (heap w) + length cs) (length ics) in
         modify (fun w => advance rs g (with_heap h (with_self (fun s =>
           set_priv k (set_no_improvement_count 0 (set_loss_curve_ []
             (set_t_ 0 (set_n_iter_ 0 (set_weights crefs irefs s)))))) w)))
       else ret tt) ;;;
      ret (X, y, layer_units)
  end.

(** Lines 85-96: run the stochastic optimization solver. *)
Definition train (X y : data) (incremental : bool) : M unit :=
  p <- prepare X y incremental ;;
  let '(X, y, layer_units) := p in
  w <- get ;;
  (match solver (hp (self w)) with
   | sgd | adam => ret tt
   | lbfgs => raise AssertionError_solver
   end) ;;;
  _fit_constrained_stochastic X y layer_units incremental.

(** Lines 98-104: validate parameter weights. *)
Definition validate_weights : M unit :=
  w <- get ;;
  if weights_finite w then ret tt
  else raise ValueError_non_finite.

Definition _constrained_fit (X y : data) (incremental : bool) : M unit :=
  train X y incremental ;;;
  validate_weights.

(** Lines 29-31 of [fit]. *)
Definition set_coef_bounds (X : data) (min_coef max_coef : option (list float64)) : M unit :=
  let feature_count := shape_last X in
  mn <- _verify_coef feature_count min_coef ninf ;;
  modify (with_self (fun s => set_bounds mn (max_coef_ s) s)) ;;;
  mx <- _verify_coef feature_count max_coef inf ;;
  modify (with_self (fun s => set_bounds (min_coef_ s) mx s)).

Definition fit (X y : data) (min_coef max_coef : option (list float64)) : M unit :=
  set_coef_bounds X min_coef max_coef ;;;
  _constrained_fit X y false.

(** *** The mini-batches, one after the other

    One step of the loop on the mini-batch [(X_batch, y_batch)], and the
    steps on a list of mini-batches, in the order of the list: the loop as
    the specification words it, to compare [batch_loop] with. *)
Definition batch_step (X_batch y_batch : data) (params : list ref)
    (accumulated_loss : float64) : M float64 :=
  tick ;;;
  w <- get ;;
  let '(batch_loss, coef_grads, intercept_grads) :=
    _backprop (hp (self w)) (priv (self w))
              (load (heap w) (coefs_ (self w))) (load (heap w) (intercepts_ (self w)))
              X_batch y_batch in
  optimizer_update_params params (coef_grads ++ intercept_grads) ;;;
  _update_coef_using_constrain params ;;;
  ret (add accumulated_loss (mul batch_loss (of_int (Z.of_nat (length X_batch))))).

Fixpoint batch_steps (batches : list (data * data)) (params : list ref)
    (accumulated_loss : float64) : M float64 :=
  match batches with
  | [] => ret accumulated_loss
  | (X_batch, y_batch) :: rest =>
      accumulated_loss <- batch_step X_batch y_batch params accumulated_loss ;;
      batch_steps rest params accumulated_loss
  end.

(** One epoch on a given list of mini-batches (the steps on them, the
    book-keeping, the no-improvement rule and the end of the round), and
    the loop whose every epoch is handed the same list. *)
Definition epoch_on (batches : list (data * data)) (X : data)
    (val : option (data * data)) (params : list ref) (n_samples : Z)
    (early_stopping incremental : bool) : M bool :=
  accumulated_loss <- batch_steps batches params zero ;;
  epoch_bookkeeping X val n_samples early_stopping accumulated_loss ;;;
  stopped <- check_no_improvement ;;
  if stopped then ret true
  else if incremental then ret true
  else
    w <- get ;;
    (if n_iter_ (self w) =? max_iter (hp (self w)) then
       tick ;;; warn (MaxIterReached (max_iter (hp (self w))))
     else ret tt) ;;;
    ret false.

Fixpoint epochs_on (rounds : nat) (batches : list (data * data)) (X : data)
    (val : option (data * data)) (params : list ref) (n_samples : Z)
    (early_stopping incremental : bool) : M unit :=
  match rounds with
  | O => ret tt
  | S rounds' =>
      broke <- epoch_on batches X val params n_samples early_stopping incremental ;;
      if broke then ret tt
      else epochs_on rounds' batches X val params n_samples early_stopping incremental
  end.

(** *** The unconstrained baseline

    The framework's own estimator, fitted without shuffling the
    mini-batches: its stochastic loop is the loop above without the clipping
    step, its validation split is drawn from [self._random_state], and it
    also offers the L-BFGS solver. *)

Fixpoint baseline_batch_loop (X y : data) (params : list ref) (slices : list slice)
    (accumulated_loss : float64) : M float64 :=
  match slices with
  | [] => ret accumulated_loss
  | batch_slice :: rest =>
      tick ;;;
      w <- get ;;
      let X_batch := getslice X batch_slice in
      let y_batch := getslice y batch_slice in
      let '(batch_loss, coef_grads, intercept_grads) :=
        _backprop (hp (self w)) (priv (self w))
                  (load (heap w) (coefs_ (self w))) (load (heap w) (intercepts_ (self w)))
                  X_batch y_batch in
      let accumulated_loss :=
        add accumulated_loss
            (mul batch_loss (of_int (stop batch_slice - start batch_slice))) in
      let grads := coef_grads ++ intercept_grads in
      optimizer_update_params params grads ;;;
      baseline_batch_loop X y params rest accumulated_loss
  end.

Definition baseline_epoch_train (X y : data) (val : option (data * data))
    (params : list ref) (n_samples batch_size : Z) (early_stopping : bool) : M unit :=
  slices <- match gen_batches n_samples batch_size with
            | Some l => ret l
            | None => raise ValueError_batch_size
            end ;;
  accumulated_loss <- baseline_batch_loop X y params slices zero ;;
  epoch_bookkeeping X val n_samples early_stopping accumulated_loss.

Definition baseline_epoch (X y : data) (val : option (data * data)) (params : list ref)
    (n_samples batch_size : Z) (early_stopping incremental : bool) : M bool :=
  baseline_epoch_train X y val params n_samples batch_size early_stopping ;;;
  stopped <- check_no_improvement ;;
  if stopped then ret true
  else if incremental then ret true
  else
    w <- get ;;
    (if n_iter_ (self w) =? max_iter (hp (self w)) then
       tick ;;; warn (MaxIterReached (max_iter (hp (self w))))
     else ret tt) ;;;
    ret false.

Fixpoint baseline_epochs (rounds : nat) (X y : data) (val : option (data * data))
    (params : list ref) (n_samples batch_size : Z)
    (early_stopping incremental : bool) : M unit :=
  match rounds with
  | O => ret tt
  | S rounds' =>
      broke <- baseline_epoch X y val params n_samples batch_size early_stopping incremental ;;
      if broke then ret tt
      else baseline_epochs rounds' X y val params n_samples batch_size
                           early_stopping incremental
  end.

Definition baseline_training_loop (st : setup) (incremental : bool) : M unit :=
  try_except_KeyboardInterrupt
    (w <- get ;;
     baseline_epochs (Z.to_nat (max_iter (hp (self w)))) (st_X st) (st_y st) (st_val st)
                     (st_params st) (st_n_samples st) (st_batch_size st)
                     (st_early_stopping st) incremental)
    (warn TrainingInterrupted) ;;;
  (if st_early_stopping st then restore_best_weights else ret tt).

(** The validation split of the framework:
    [train_test_split(X, y, random_state=self._random_state, test_size=...,
    stratify=...)]. *)
Definition baseline_split_validation (X y : data) (early_stopping : bool)
    : M (data * data * option (data * data)) :=
  if early_stopping then
    w <- get ;;
    let should_stratify := is_classifier && Nat.eqb (n_outputs_ (self w)) 1 in
    let stratify := if should_stratify then Some y else None in
    match _random_state (self w) with
    | None => raise AttributeError
    | Some rs =>
        match train_test_split (generator_of rs w) (validation_fraction (hp (self w)))
                               stratify X y with
        | None => raise ValueError_validation
        | Some (X_train, X_val, y_train, y_val, g) =>
            modify (advance rs g) ;;;
            let y_val := if is_classifier then inverse_transform (priv (self w)) y_val
                         else y_val in
            ret (X_train, y_train, Some (X_val, y_val))
        end
    end
  else ret (X, y, None).

Definition baseline_training_setup (X y : data) (incremental : bool) : M setup :=
  w <- get ;;
  let params := coefs_ (self w) ++ intercepts_ (self w) in
  make_optimizer params incremental ;;;
  let early_stopping := early_stopping (hp (self w)) && negb incremental in
  sp <- baseline_split_validation X y early_stopping ;;
  let '(X, y, val) := sp in
  let n_samples := Z.of_nat (length X) in
  batch_size <- resolve_batch_size n_samples ;;
  ret {| st_params := params; st_early_stopping := early_stopping;
         st_X := X; st_y := y; st_val := val;
         st_n_samples := n_samples; st_batch_size := batch_size |}.

Definition _fit_stochastic (X y : data) (layer_units : list Z) (incremental : bool)
    : M unit :=
  st <- baseline_training_setup X y incremental ;;
  baseline_training_loop st incremental.

(** [self._fit_lbfgs(X, y, activations, deltas, coef_grads, intercept_grads,
    layer_units)]: the values it leaves in the weight and intercept arrays
    (updated in place), the private attributes, [n_iter_] and [loss_]. *)
Variable _fit_lbfgs : hyper -> K -> list ndarray -> list ndarray -> data -> data -> list Z ->
                      list ndarray * list ndarray * K * Z * float64.

Definition baseline_fit_lbfgs (X y : data) (layer_units : list Z) : M unit :=
  w <- get ;;
  let '(cs, ics, k, n, loss) :=
    _fit_lbfgs (hp (self w)) (priv (self w))
               (load (heap w) (coefs_ (self w))) (load (heap w) (intercepts_ (self w)))
               X y layer_units in
  modify (fun w =>
    with_heap (assign (assign (heap w) (coefs_ (self w)) cs) (intercepts_ (self w)) ics)
      (with_self (fun s => set_priv k (set_loss_ loss (set_n_iter_ n s))) w)).

(** The baseline estimator's [fit]: the stochastic loop for [sgd] and
    [adam], the L-BFGS solver for [lbfgs]. *)
Definition baseline_fit (X y : data) : M unit :=
  p <- prepare X y false ;;
  let '(X, y, layer_units) := p in
  w <- get ;;
  (match solver (hp (self w)) with
   | sgd | adam => _fit_stochastic X y layer_units false
   | lbfgs => baseline_fit_lbfgs X y layer_units
   end) ;;;
  validate_weights.
(** ** Properties *)

(** *** Floating-point comparisons and [clip] *)

Lemma SFcompare_refl (x : float64) :
  isnan x = false -> SFcompare x x = Some Eq.
Proof.
  destruct x as [s|s| |s m e]; simpl; try discriminate; intros _.
  - reflexivity.
  - destruct s; reflexivity.
  - destruct s; rewrite Z.compare_refl;
      change (Pos.compare_cont Eq m m) with (Pos.compare m m);
      rewrite Pos.compare_refl; reflexivity.
Qed.

Lemma le_refl (x : float64) : isnan x = false -> le x x = true.
Proof. intros Hx. unfold le, SFleb. rewrite (SFcompare_refl x Hx). reflexivity. Qed.

Lemma lt_le (a b : float64) : lt a b = true -> le a b = true.
Proof. unfold lt, le, SFltb, SFleb. destruct (SFcompare a b) as [[]|]; congruence. Qed.

Lemma le_not_nan_l (a b : float64) : le a b = true -> isnan a = false.
Proof. destruct a; simpl; try reflexivity. unfold le, SFleb. simpl. discriminate. Qed.

Lemma le_not_nan_r (a b : float64) : le a b = true -> isnan b = false.
Proof.
  destruct b; simpl; try reflexivity. unfold le, SFleb.
  destruct a; simpl; discriminate.
Qed.

Lemma npy_max_nan (x lo : float64) : isnan (npy_max x lo) = false -> isnan x = false.
Proof. unfold npy_max. destruct (isnan x) eqn:E; [rewrite E|]; auto. Qed.

Lemma npy_min_nan (x hi : float64) : isnan (npy_min x hi) = false -> isnan x = false.
Proof. unfold npy_min. destruct (isnan x) eqn:E; [rewrite E|]; auto. Qed.

(** A NaN stays a NaN. *)
Lemma clip_nan (lo hi : float64) : clip nan lo hi = nan.
Proof. reflexivity. Qed.

Lemma clip_not_nan (x lo hi : float64) :
  isnan (clip x lo hi) = false -> isnan x = false.
Proof. intros Hc. apply npy_min_nan in Hc. apply npy_max_nan in Hc. exact Hc. Qed.

Lemma clip_upper (x lo hi : float64) :
  isnan (clip x lo hi) = false -> le (clip x lo hi) hi = true.
Proof.
  unfold clip, npy_min. set (m := npy_max x lo).
  destruct (isnan m) eqn:Em; [congruence|].
  destruct (lt m hi) eqn:El; intros Hn.
  - apply lt_le, El.
  - apply le_refl, Hn.
Qed.

Lemma clip_lower (x lo hi : float64) :
  le lo hi = true -> isnan (clip x lo hi) = false -> le lo (clip x lo hi) = true.
Proof.
  intros Hb. unfold clip, npy_min. set (m := npy_max x lo).
  destruct (isnan m) eqn:Em; [congruence|].
  destruct (lt m hi) eqn:El; intros Hn; [|exact Hb].
  subst m. unfold npy_max in *.
  destruct (isnan x) eqn:Ex; [congruence|].
  destruct (gt x lo) eqn:Eg.
  - apply lt_le, Eg.
  - apply le_refl, Hn.
Qed.

(** With the default bounds [clip] changes nothing. *)
Lemma clip_unbounded (x : float64) : clip x ninf inf = x.
Proof. destruct x as [s|s| |s m e]; try destruct s; reflexivity. Qed.

(** *** Items of an array *)

(** [a[i]] as the list of its entries. *)
Definition item (a : ndarray) (i : nat) : option (list float64) :=
  match a with
  | A1 v => (fun x => [x]) <$> v !! i
  | A2 rows => rows !! i
  end.

(** The pure content of the loop of [_update_coef_using_constrain] on the
    array [coef_grads[0]]. *)
Fixpoint clip_items (a : ndarray) (coef_idx : nat) (bounds : list (float64 * float64))
    : option ndarray :=
  match bounds with
  | [] => Some a
  | (min_coef, max_coef) :: rest =>
      match clip_item a coef_idx min_coef max_coef with
      | Some a' => clip_items a' (S coef_idx) rest
      | None => None
      end
  end.

Lemma clip_item_len a i lo hi a' :
  clip_item a i lo hi = Some a' -> len a' = len a.
Proof.
  destruct a as [v|rows]; simpl.
  - destruct (v !! i); intros [= <-]. simpl. apply length_insert.
  - destruct (rows !! i); intros [= <-]. simpl. apply length_insert.
Qed.

Lemma clip_item_is_Some a i lo hi :
  (i < len a)%nat -> is_Some (clip_item a i lo hi).
Proof.
  destruct a as [v|rows]; simpl; intros Hi.
  - destruct (lookup_lt_is_Some_2 v i Hi) as [x ->]. eauto.
  - destruct (lookup_lt_is_Some_2 rows i Hi) as [x ->]. eauto.
Qed.

Lemma clip_item_same a i lo hi a' :
  clip_item a i lo hi = Some a' ->
  exists row, item a i = Some row /\
              item a' i = Some (map (fun x => clip x lo hi) row).
Proof.
  destruct a as [v|rows]; simpl.
  - destruct (v !! i) as [x|] eqn:E; intros [= <-]. exists [x]. split; [reflexivity|].
    simpl. rewrite list_lookup_insert_eq; [reflexivity|].
    eapply lookup_lt_Some, E.
  - destruct (rows !! i) as [r|] eqn:E; intros [= <-]. exists r. split; [reflexivity|].
    simpl. rewrite list_lookup_insert_eq; [reflexivity|].
    eapply lookup_lt_Some, E.
Qed.

Lemma clip_item_other a i lo hi a' j :
  clip_item a i lo hi = Some a' -> i <> j -> item a' j = item a j.
Proof.
  destruct a as [v|rows]; simpl.
  - destruct (v !! i) as [x|] eqn:E; intros [= <-] Hne. simpl.
    rewrite list_lookup_insert_ne; auto.
  - destruct (rows !! i) as [r|] eqn:E; intros [= <-] Hne. simpl.
    rewrite list_lookup_insert_ne; auto.
Qed.

Lemma clip_items_len bounds : forall a idx a',
  clip_items a idx bounds = Some a' -> len a' = len a.
Proof.
  induction bounds as [|[lo hi] rest IH]; simpl; intros a idx a'.
  - intros [= <-]. reflexivity.
  - destruct (clip_item a idx lo hi) as [a1|] eqn:E; [|discriminate].
    intros H. rewrite (IH _ _ _ H). eapply clip_item_len, E.
Qed.

Lemma clip_items_is_Some bounds : forall a idx,
  (idx + length bounds <= len a)%nat -> is_Some (clip_items a idx bounds).
Proof.
  induction bounds as [|[lo hi] rest IH]; simpl; intros a idx Hlen; [eauto|].
  destruct (clip_item_is_Some a idx lo hi) as [a1 E]; [lia|].
  rewrite E. apply IH. rewrite (clip_item_len _ _ _ _ _ E). lia.
Qed.

Lemma clip_items_below bounds : forall a idx a' j,
  clip_items a idx bounds = Some a' -> (j < idx)%nat -> item a' j = item a j.
Proof.
  induction bounds as [|[lo hi] rest IH]; simpl; intros a idx a' j.
  - intros [= <-]. reflexivity.
  - destruct (clip_item a idx lo hi) as [a1|] eqn:E; [|discriminate].
    intros H Hj. rewrite (IH _ _ _ _ H); [|lia].
    eapply clip_item_other; [exact E|lia].
Qed.

(** After the loop, item [coef_idx + j] is the clipped former item, for
    every bound [j]. *)
Lemma clip_items_at bounds : forall a idx a' j lo hi,
  clip_items a idx bounds = Some a' ->
  bounds !! j = Some (lo, hi) ->
  exists row, item a (idx + j) = Some row /\
              item a' (idx + j) = Some (map (fun x => clip x lo hi) row).
Proof.
  induction bounds as [|[lo0 hi0] rest IH]; simpl; intros a idx a' j lo hi.
  - intros _ Hj. rewrite lookup_nil in Hj. discriminate.
  - destruct (clip_item a idx lo0 hi0) as [a1|] eqn:E; [|discriminate].
    intros H Hj. destruct j as [|j]; simpl in Hj.
    + injection Hj as -> ->. rewrite Nat.add_0_r.
      destruct (clip_item_same _ _ _ _ _ E) as (row & Hr & Hr').
      exists row. split; [exact Hr|].
      rewrite (clip_items_below _ _ _ _ idx H); [exact Hr'|lia].
    + destruct (IH _ _ _ _ _ _ H Hj) as (row & Hr & Hr').
      replace (idx + S j)%nat with (S idx + j)%nat by lia.
      exists row. split; [|exact Hr'].
      rewrite <- Hr. symmetry. eapply clip_item_other; [exact E|lia].
Qed.

Lemma clip_item_unbounded a i a' :
  clip_item a i ninf inf = Some a' -> a' = a.
Proof.
  destruct a as [v|rows]; simpl.
  - destruct (v !! i) as [x|] eqn:E; intros [= <-].
    rewrite clip_unbounded. f_equal. apply list_insert_id, E.
  - destruct (rows !! i) as [r|] eqn:E; intros [= <-]. f_equal.
    rewrite (map_ext _ id) by (intros; apply clip_unbounded).
    rewrite map_id. apply list_insert_id, E.
Qed.

(** With default bounds the whole loop is the identity on the array. *)
Lemma clip_items_unbounded bounds : forall a idx a',
  Forall (fun b => b = (ninf, inf)) bounds ->
  clip_items a idx bounds = Some a' -> a' = a.
Proof.
  induction bounds as [|[lo hi] rest IH]; simpl; intros a idx a' Hb.
  - intros [= <-]. reflexivity.
  - inversion Hb as [|? ? Hhd Htl]; subst. injection Hhd as -> ->.
    destruct (clip_item a idx ninf inf) as [a1|] eqn:E; [|discriminate].
    intros H. apply clip_item_unbounded in E. subst a1. eapply IH; eauto.
Qed.

(** *** Mini-batches *)

(** [k] full batches of size [bs] from position [s] on. *)
Fixpoint full_slices (k : nat) (s bs : Z) : list slice :=
  match k with
  | O => []
  | S k' => Slice s (s + bs) :: full_slices k' (s + bs) bs
  end.

Lemma full_slices_length k : forall s bs, length (full_slices k s bs) = k.
Proof. induction k; simpl; intros; [reflexivity|]. now rewrite IHk. Qed.

Lemma full_slices_lookup k : forall s bs (j : nat),
  (j < k)%nat ->
  full_slices k s bs !! j
  = Some (Slice (s + Z.of_nat j * bs) (s + (Z.of_nat j + 1) * bs)).
Proof.
  induction k as [|k IH]; intros s bs j Hj; [lia|].
  destruct j as [|j]; simpl.
  - f_equal. f_equal; lia.
  - rewrite IH by lia. f_equal. f_equal; lia.
Qed.

Lemma gen_batches_rounds_full k : forall s n bs,
  0 < bs -> s + Z.of_nat k * bs <= n ->
  gen_batches_rounds k s n bs = (full_slices k s bs, s + Z.of_nat k * bs).
Proof.
  induction k as [|k IH]; intros s n bs Hbs Hn; simpl gen_batches_rounds.
  - simpl. f_equal. lia.
  - destruct (s + bs + 0 >? n) eqn:E; [apply Z.gtb_lt in E; nia|].
    rewrite IH by nia. simpl. f_equal. lia.
Qed.

Lemma getslice_full_slices (X : data) k : forall (s : nat) (bs : nat),
  concat (map (getslice X) (full_slices k (Z.of_nat s) (Z.of_nat bs)))
  = take (k * bs) (drop s X).
Proof.
  induction k as [|k IH]; intros s bs; simpl; [reflexivity|].
  replace (Z.of_nat s + Z.of_nat bs) with (Z.of_nat (s + bs)) by lia.
  rewrite IH. unfold getslice. simpl.
  replace (Z.to_nat (Z.of_nat (s + bs) - Z.of_nat s)) with bs by lia.
  rewrite Nat2Z.id.
  rewrite <- (take_drop bs (take (bs + k * bs) (drop s X))).
  rewrite take_take, Nat.min_l by lia. f_equal.
  rewrite skipn_firstn_comm.
  replace (bs + k * bs - bs)%nat with (k * bs)%nat by lia.
  rewrite drop_drop. reflexivity.
Qed.

(** The slices [gen_batches] yields for a positive batch size. *)
Lemma gen_batches_positive (n bs : Z) :
  1 <= bs -> 0 <= n ->
  gen_batches n bs
  = Some (full_slices (Z.to_nat (n / bs)) 0 bs
          ++ (if n / bs * bs <? n then [Slice (n / bs * bs) n] else [])).
Proof.
  intros Hbs Hn. unfold gen_batches.
  destruct (bs <=? 0) eqn:E; [apply Z.leb_le in E; lia|].
  assert (Hq : 0 <= n / bs) by (apply Z.div_pos; lia).
  assert (Hm : n / bs * bs <= n) by (rewrite Z.mul_comm; apply Z.mul_div_le; lia).
  rewrite gen_batches_rounds_full by lia.
  rewrite Z2Nat.id by lia. simpl. reflexivity.
Qed.

Lemma getslice_lookup (X : data) (a b : Z) (j : nat) :
  0 <= a ->
  getslice X (Slice a b) !! j
  = if decide (Z.of_nat j < b - a) then X !! (Z.to_nat a + j)%nat else None.
Proof.
  intros Ha. unfold getslice. cbn [start stop].
  destruct (decide (Z.of_nat j < b - a)) as [Hj|Hj].
  - rewrite lookup_take_lt by lia. apply lookup_drop.
  - apply lookup_take_ge. lia.
Qed.

(** The slices of [gen_batches]: slice [k] is
    [k * batch_size, min ((k + 1) * batch_size, n_samples)), sample [j] of
    it being sample [k * batch_size + j] of the data, and the slices put one
    after the other give the data back. *)
Lemma gen_batches_in_order (X : data) (batch_size : Z) :
  1 <= batch_size ->
  exists slices,
    gen_batches (Z.of_nat (length X)) batch_size = Some slices /\
    (forall k : nat, Z.of_nat k * batch_size < Z.of_nat (length X) ->
       slices !! k
       = Some (Slice (Z.of_nat k * batch_size)
                     (Z.min ((Z.of_nat k + 1) * batch_size) (Z.of_nat (length X))))) /\
    (forall k : nat, Z.of_nat (length X) <= Z.of_nat k * batch_size ->
       slices !! k = None) /\
    (forall (k j : nat) (sl : slice), slices !! k = Some sl ->
       getslice X sl !! j
       = if decide (Z.of_nat k * batch_size + Z.of_nat j < stop sl)
         then X !! (Z.to_nat (Z.of_nat k * batch_size) + j)%nat else None) /\
    concat (map (getslice X) slices) = X.
Proof.
  intros Hbs. set (n := Z.of_nat (length X)).
  assert (Hn : 0 <= n) by lia.
  set (q := n / batch_size).
  assert (Hq : 0 <= q) by (apply Z.div_pos; lia).
  assert (Hlo : q * batch_size <= n)
    by (unfold q; rewrite Z.mul_comm; apply Z.mul_div_le; lia).
  assert (Hhi : n < (q + 1) * batch_size).
  { unfold q. pose proof (Z.mod_pos_bound n batch_size ltac:(lia)).
    pose proof (Z.div_mod n batch_size ltac:(lia)). nia. }
  eexists. split; [apply gen_batches_positive; lia|]. fold n. fold q.
  assert (Hat : forall k : nat, Z.of_nat k * batch_size < n ->
    (full_slices (Z.to_nat q) 0 batch_size
       ++ (if q * batch_size <? n then [Slice (q * batch_size) n] else [])) !! k
    = Some (Slice (Z.of_nat k * batch_size)
                  (Z.min ((Z.of_nat k + 1) * batch_size) n))).
  { intros k Hk. destruct (decide (Z.of_nat k < q)) as [Hkq|Hkq].
    - rewrite lookup_app_l by (rewrite full_slices_length; lia).
      rewrite full_slices_lookup by lia.
      rewrite Z.min_l by nia. repeat f_equal; lia.
    - assert (Z.of_nat k = q) by nia.
      rewrite lookup_app_r by (rewrite full_slices_length; lia).
      rewrite full_slices_length.
      replace (k - Z.to_nat q)%nat with O by lia.
      destruct (q * batch_size <? n) eqn:E; [|apply Z.ltb_ge in E; nia].
      simpl. rewrite Z.min_r by nia. repeat f_equal; lia. }
  split; [exact Hat|]. split; [|split].
  - intros k Hk. apply lookup_ge_None_2. rewrite length_app, full_slices_length.
    destruct (q * batch_size <? n) eqn:E; simpl.
    + apply Z.ltb_lt in E. nia.
    + nia.
  - intros k j sl Hsl.
    destruct (decide (Z.of_nat k * batch_size < n)) as [Hk|Hk].
    + rewrite Hat in Hsl by exact Hk. injection Hsl as <-.
      rewrite getslice_lookup by nia. simpl.
      repeat case_decide; try reflexivity; lia.
    + apply lookup_lt_Some in Hsl. rewrite length_app, full_slices_length in Hsl.
      destruct (q * batch_size <? n) eqn:E; simpl in Hsl.
      * apply Z.ltb_lt in E. nia.
      * nia.
  - rewrite map_app, concat_app.
    pose proof (getslice_full_slices X (Z.to_nat q) O (Z.to_nat batch_size)) as Hfs.
    rewrite Z2Nat.id in Hfs by lia. change (Z.of_nat 0) with 0 in Hfs.
    rewrite Hfs. clear Hfs. change (drop 0 X) with X.
    destruct (q * batch_size <? n) eqn:E; simpl.
    + unfold getslice. simpl. rewrite app_nil_r.
      replace (Z.to_nat (q * batch_size)) with (Z.to_nat q * Z.to_nat batch_size)%nat by nia.
      rewrite (take_ge (drop _ X)) by (rewrite length_drop; lia).
      apply take_drop.
    + apply Z.ltb_ge in E. rewrite app_nil_r. apply take_ge. nia.
Qed.

(** *** The batch size *)


(** *** The final validation of the weights *)

Lemma weights_finite_Forall (w : world) :
  weights_finite w = true <->
  Forall (fun a => all_finite a = true)
         (load (heap w) (coefs_ (self w) ++ intercepts_ (self w))).
Proof.
  unfold weights_finite. rewrite forallb_forall, Forall_forall.
  split; intros H a Ha; apply H; [apply list_elem_of_In|apply list_elem_of_In in Ha]; exact Ha.
Qed.

(** C8: once training is over, [fit] raises the [ValueError] as soon as one
    entry of a coefficient matrix or of an intercept vector is not finite,
    and returns the estimator (unchanged by the check) when all are. *)
Theorem non_finite_weights_raise_ValueError (X y : data)
    (min_coef max_coef : option (list float64)) (w w0 w1 : world) (i i0 i1 : option nat) :
  set_coef_bounds X min_coef max_coef w i = Returns tt w0 i0 ->
  train X y false w0 i0 = Returns tt w1 i1 ->
  fit X y min_coef max_coef w i
  = (if weights_finite w1 then Returns tt w1 i1
     else Raises ValueError_non_finite w1 i1)
  /\ (weights_finite w1 = true <->
      Forall (fun a => all_finite a = true)
             (load (heap w1) (coefs_ (self w1) ++ intercepts_ (self w1)))).
Proof.
  intros Hb Ht. split; [|apply weights_finite_Forall].
  unfold fit, _constrained_fit, bind. rewrite Hb, Ht.
  unfold validate_weights, bind, get. destruct (weights_finite w1); reflexivity.
Qed.

(** *** The no-improvement rule *)

Lemma check_no_improvement_quiet (w : world) (o : Opt) :
  _optimizer (self w) = Some o ->
  check_no_improvement w None
  = if _no_improvement_count (self w) >? n_iter_no_change (hp (self w)) then
      if fst (trigger_stopping o)
      then Returns true (with_self (set_optimizer (Some (snd (trigger_stopping o)))) w) None
      else Returns false
             (with_self (set_no_improvement_count 0)
                (with_self (set_optimizer (Some (snd (trigger_stopping o)))) w)) None
    else Returns false w None.
Proof.
  intros Ho. unfold check_no_improvement, bind, get.
  destruct (_no_improvement_count (self w) >? n_iter_no_change (hp (self w))); [|reflexivity].
  simpl. unfold optimizer_trigger_stopping, bind, get. rewrite Ho.
  destruct (trigger_stopping o) as [[|] o']; reflexivity.
Qed.

(** What the end of a round does when the rule did not stop the loop
    (lines 235-243, with [incremental = False]). *)
Definition max_iter_warning (w : world) : world :=
  if n_iter_ (self w) =? max_iter (hp (self w))
  then with_warned (warned w ++ [MaxIterReached (max_iter (hp (self w)))]) w
  else w.

(** C6, as the code has it: the rule fires when the no-improvement counter
    exceeds [n_iter_no_change].  Then the epoch loop halts if the optimizer
    triggers stopping; otherwise the optimizer has decayed its learning
    rate, the counter is reset to zero and the loop goes on.  While the
    counter does not exceed [n_iter_no_change] the optimizer is not asked
    and the loop goes on with the counter as it is. *)
Theorem no_improvement_rule_halts_or_decays (rounds : nat) (X y : data)
    (val : option (data * data)) (params : list ref) (n_samples bs : Z)
    (early : bool) (w w1 : world) (o : Opt) :
  epoch_train X y val params n_samples bs early w None = Returns tt w1 None ->
  _optimizer (self w1) = Some o ->
  epochs (S rounds) X y val params n_samples bs early false w None
  = if _no_improvement_count (self w1) >? n_iter_no_change (hp (self w1)) then
      if fst (trigger_stopping o)
      then Returns tt (with_self (set_optimizer (Some (snd (trigger_stopping o)))) w1) None
      else epochs rounds X y val params n_samples bs early false
             (max_iter_warning
                (with_self (set_no_improvement_count 0)
                   (with_self (set_optimizer (Some (snd (trigger_stopping o)))) w1)))
             None
    else epochs rounds X y val params n_samples bs early false (max_iter_warning w1) None.
Proof.
  intros Ht Ho. cbn [epochs]. unfold epoch. unfold bind at 1 2 3. rewrite Ht.
  rewrite (check_no_improvement_quiet w1 o Ho).
  destruct (_no_improvement_count (self w1) >? n_iter_no_change (hp (self w1))).
  - destruct (fst (trigger_stopping o)); [reflexivity|].
    unfold bind, get, max_iter_warning. cbn [self with_self hp set_no_improvement_count set_optimizer
      n_iter_].
    destruct (n_iter_ (self w1) =? max_iter (hp (self w1))); reflexivity.
  - unfold bind, get, max_iter_warning.
    destruct (n_iter_ (self w1) =? max_iter (hp (self w1))); reflexivity.
Qed.

(** *** The clipping step *)

Lemma with_heap_id (w : world) : with_heap (heap w) w = w.
Proof. destruct w; reflexivity. Qed.

Lemma clip_row_eq (ps : list ref) (idx : nat) (lo hi : float64) (w : world) (i : option nat) :
  clip_row ps idx lo hi w i
  = match ps !! O with
    | Some r =>
        match heap w !! r with
        | Some a =>
            match clip_item a idx lo hi with
            | Some a' => Returns tt (with_heap (<[r := a']> (heap w)) w) i
            | None => Raises IndexError w i
            end
        | None => Raises IndexError w i
        end
    | None => Raises IndexError w i
    end.
Proof.
  unfold clip_row, bind, get.
  destruct (ps !! O) as [r|]; [|reflexivity].
  destruct (heap w !! r) as [a|]; [|reflexivity].
  destruct (clip_item a idx lo hi); reflexivity.
Qed.

(** A completed run of the loop of [_update_coef_using_constrain] has
    clipped the items of the array [coef_grads[0]], in place, and changed
    nothing else. *)
Lemma clip_rows_Returns bounds : forall ps idx w i w' i',
  clip_rows ps idx bounds w i = Returns tt w' i' ->
  bounds <> [] ->
  exists r a a',
    ps !! O = Some r /\ heap w !! r = Some a /\
    clip_items a idx bounds = Some a' /\
    w' = with_heap (<[r := a']> (heap w)) w.
Proof.
  induction bounds as [|[lo hi] rest IH]; intros ps idx w i w' i' H Hne; [congruence|].
  cbn [clip_rows] in H. unfold bind in H.
  destruct (tick w i) as [[] w1 i1|e w1 i1] eqn:Et; [|discriminate].
  assert (w1 = w) as ->.
  { unfold tick in Et. destruct i as [[|n]|]; congruence. }
  rewrite clip_row_eq in H.
  destruct (ps !! O) as [r|] eqn:Er; [|discriminate].
  destruct (heap w !! r) as [a|] eqn:Ea; [|discriminate].
  destruct (clip_item a idx lo hi) as [a1|] eqn:Ec; [|discriminate].
  exists r, a. cbn [clip_items]. rewrite Ec.
  destruct rest as [|b rest].
  - cbn in H. injection H as <- <-. exists a1. auto.
  - apply IH in H; [|discriminate].
    destruct H as (r2 & a2 & a' & Hr2 & Ha2 & Hc & ->).
    rewrite Er in Hr2. injection Hr2 as <-.
    cbn [heap with_heap] in Ha2.
    rewrite list_lookup_insert_eq in Ha2 by (eapply lookup_lt_Some, Ea).
    injection Ha2 as <-.
    exists a'. repeat split; auto.
    cbn [heap with_heap]. rewrite list_insert_insert_eq.
    destruct w; reflexivity.
Qed.

(** In a run that is not interrupted the loop succeeds as soon as the
    array has an item for every bound. *)
Lemma clip_rows_quiet bounds : forall ps idx w r a a',
  ps !! O = Some r -> heap w !! r = Some a ->
  clip_items a idx bounds = Some a' ->
  clip_rows ps idx bounds w None
  = Returns tt (with_heap (<[r := a']> (heap w)) w) None.
Proof.
  induction bounds as [|[lo hi] rest IH]; intros ps idx w r a a' Hr Ha Hc.
  - cbn in Hc. injection Hc as <-. cbn.
    rewrite list_insert_id by exact Ha. rewrite with_heap_id. reflexivity.
  - cbn [clip_items] in Hc.
    destruct (clip_item a idx lo hi) as [a1|] eqn:Ec; [|discriminate].
    cbn [clip_rows]. unfold bind. cbn [tick]. rewrite clip_row_eq, Hr, Ha, Ec.
    erewrite IH; [|exact Hr| |exact Hc].
    + cbn [heap with_heap]. rewrite list_insert_insert_eq. reflexivity.
    + cbn [heap with_heap]. apply list_lookup_insert_eq. eapply lookup_lt_Some, Ha.
Qed.

(** An entry lies within the bounds unless it is a NaN. *)
Definition entry_within (lo hi x : float64) : Prop :=
  isnan x = false -> le lo x = true /\ le x hi = true.

(** Every item of the first array of [params] that has a pair of bounds
    [min_coef <= max_coef] lies within them. *)
Definition first_layer_within (params : list ref) (w : world) : Prop :=
  forall (k : nat) (lo hi : float64),
    min_coef_ (self w) !! k = Some lo ->
    max_coef_ (self w) !! k = Some hi ->
    le lo hi = true ->
    exists r a row,
      params !! O = Some r /\ heap w !! r = Some a /\
      item a k = Some row /\ Forall (entry_within lo hi) row.

Lemma clipped_entries_within (lo hi : float64) (row : list float64) :
  le lo hi = true ->
  Forall (entry_within lo hi) (map (fun x => clip x lo hi) row).
Proof.
  intros Hb. apply Forall_forall. intros x Hx.
  apply list_elem_of_In, in_map_iff in Hx as (x0 & <- & _).
  intros Hn. split; [apply clip_lower|apply clip_upper]; auto.
Qed.

Lemma update_coef_Returns (ps : list ref) (w w' : world) (i i' : option nat) :
  _update_coef_using_constrain ps w i = Returns tt w' i' ->
  self w' = self w /\ np_random w' = np_random w /\ warned w' = warned w /\
  first_layer_within ps w'.
Proof.
  unfold _update_coef_using_constrain, bind, get. intros H.
  destruct (zip (min_coef_ (self w)) (max_coef_ (self w))) as [|b bounds] eqn:Ez.
  - cbn in H. injection H as <- <-. repeat split; auto.
    intros k lo hi Hlo Hhi _.
    assert (Hk : zip (min_coef_ (self w)) (max_coef_ (self w)) !! k = Some (lo, hi)).
    { apply lookup_zip_with_Some. eauto. }
    rewrite Ez, lookup_nil in Hk. discriminate.
  - apply clip_rows_Returns in H; [|discriminate].
    destruct H as (r & a & a' & Hr & Ha & Hc & ->).
    repeat split; auto.
    intros k lo hi Hlo Hhi Hb. cbn [self with_heap] in Hlo, Hhi.
    assert (Hk : (b :: bounds) !! k = Some (lo, hi)).
    { rewrite <- Ez. apply lookup_zip_with_Some. eauto. }
    destruct (clip_items_at _ _ _ _ _ _ _ Hc Hk) as (row & _ & Hrow).
    exists r, a', (map (fun x => clip x lo hi) row).
    cbn [heap with_heap]. repeat split; auto.
    + apply list_lookup_insert_eq. eapply lookup_lt_Some, Ha.
    + apply clipped_entries_within, Hb.
Qed.

(** *** What a computation leaves alone *)

(** [preserves R m]: whatever the outcome of [m], the world it ends in is
    related by [R] to the world it started from. *)
Definition preserves {A} (R : world -> world -> Prop) (m : M A) : Prop :=
  forall w i, match m w i with
              | Returns _ w' _ => R w w'
              | Raises _ w' _ => R w w'
              end.

Section Preserves.

Context (R : world -> world -> Prop) `{!PreOrder R}.

Lemma preserves_ret {A} (a : A) : preserves R (ret a).
Proof. intros w i. simpl. reflexivity. Qed.

Lemma preserves_raise {A} e : preserves R (@raise K Opt G Cfg A e).
Proof. intros w i. simpl. reflexivity. Qed.

Lemma preserves_tick : preserves R tick.
Proof. intros w i. unfold tick. destruct i as [[|n]|]; reflexivity. Qed.

Lemma preserves_modify f : (forall w, R w (f w)) -> preserves R (modify f).
Proof. intros H w i. simpl. apply H. Qed.

Lemma preserves_bind {A B} (m : M A) (k : A -> M B) :
  preserves R m -> (forall a, preserves R (k a)) -> preserves R (bind m k).
Proof.
  intros Hm Hk w i. unfold bind. specialize (Hm w i).
  destruct (m w i) as [a w1 i1|e w1 i1]; [|exact Hm].
  specialize (Hk a w1 i1).
  destruct (k a w1 i1); etransitivity; eauto.
Qed.

Lemma preserves_get {B} (k : world -> M B) :
  (forall w0, preserves R (k w0)) -> preserves R (bind get k).
Proof. intros H w i. unfold bind, get. apply H. Qed.

Lemma preserves_try body handler :
  preserves R body -> preserves R handler ->
  preserves R (try_except_KeyboardInterrupt body handler).
Proof.
  intros Hb Hh w i. unfold try_except_KeyboardInterrupt. specialize (Hb w i).
  destruct (body w i) as [a w1 i1|e w1 i1]; [exact Hb|].
  destruct e; try exact Hb.
  specialize (Hh w1 i1). destruct (handler w1 i1); etransitivity; eauto.
Qed.

End Preserves.

(** [calm m]: in a run that the user does not interrupt, [m] raises no
    [KeyboardInterrupt] and leaves no interruption pending. *)
Definition calm {A} (m : M A) : Prop :=
  forall w, match m w None with
            | Returns _ _ i' => i' = None
            | Raises e _ i' => i' = None /\ e <> KeyboardInterrupt
            end.

Lemma calm_ret {A} (a : A) : calm (ret a).
Proof. intros w. reflexivity. Qed.

Lemma calm_raise {A} e : e <> KeyboardInterrupt -> calm (@raise K Opt G Cfg A e).
Proof. intros H w. simpl. auto. Qed.

Lemma calm_tick : calm tick.
Proof. intros w. reflexivity. Qed.

Lemma calm_modify f : calm (modify f).
Proof. intros w. reflexivity. Qed.

Lemma calm_bind {A B} (m : M A) (k : A -> M B) :
  calm m -> (forall a, calm (k a)) -> calm (bind m k).
Proof.
  intros Hm Hk w. unfold bind. specialize (Hm w).
  destruct (m w None) as [a w1 i1|e w1 i1]; [|exact Hm].
  subst i1. apply Hk.
Qed.

Lemma calm_get {B} (k : world -> M B) :
  (forall w0, calm (k w0)) -> calm (bind get k).
Proof. intros H w. unfold bind, get. apply H. Qed.

Lemma calm_try body handler :
  calm body -> calm (try_except_KeyboardInterrupt body handler).
Proof.
  intros Hb w. unfold try_except_KeyboardInterrupt. specialize (Hb w).
  destruct (body w None) as [a w1 i1|e w1 i1]; [exact Hb|].
  destruct e; try exact Hb. destruct Hb as [_ Hb]. exfalso. apply Hb. reflexivity.
Qed.

(** [catches m]: no [KeyboardInterrupt] leaves [m], interrupted or not. *)
Definition catches {A} (m : M A) : Prop :=
  forall w i w' i', m w i <> Raises KeyboardInterrupt w' i'.

Lemma catches_ret {A} (a : A) : catches (ret a).
Proof. intros w i w' i'. discriminate. Qed.

Lemma catches_raise {A} e : e <> KeyboardInterrupt -> catches (@raise K Opt G Cfg A e).
Proof. intros H w i w' i'. unfold raise. intros [= -> _ _]. apply H. reflexivity. Qed.

Lemma catches_modify f : catches (modify f).
Proof. intros w i w' i'. discriminate. Qed.

Lemma catches_bind {A B} (m : M A) (k : A -> M B) :
  catches m -> (forall a, catches (k a)) -> catches (bind m k).
Proof.
  intros Hm Hk w i w' i'. unfold bind. specialize (Hm w i).
  destruct (m w i) as [a w1 i1|e w1 i1]; [apply Hk|].
  intros [= -> -> ->]. eapply Hm. reflexivity.
Qed.

Lemma catches_get {B} (k : world -> M B) :
  (forall w0, catches (k w0)) -> catches (bind get k).
Proof. intros H w i. unfold bind, get. apply H. Qed.

Lemma catches_try body handler :
  catches handler -> catches (try_except_KeyboardInterrupt body handler).
Proof.
  intros Hh w i w' i'. unfold try_except_KeyboardInterrupt.
  destruct (body w i) as [a w1 i1|e w1 i1]; [discriminate|].
  destruct e; try discriminate. apply Hh.
Qed.

Lemma bind_Returns {A B} (m : M A) (k : A -> M B) w i b w' i' :
  bind m k w i = Returns b w' i' ->
  exists a w1 i1, m w i = Returns a w1 i1 /\ k a w1 i1 = Returns b w' i'.
Proof.
  unfold bind. destruct (m w i) as [a w1 i1|e w1 i1]; [|discriminate].
  intros H. eauto.
Qed.

Ltac pres_step :=
  lazymatch goal with
  | |- preserves _ (bind get _) => refine (@preserves_get _ _ _ (fun _ => _))
  | |- preserves _ (bind _ _) => refine (@preserves_bind _ _ _ _ _ _ _ (fun _ => _))
  | |- preserves _ (ret _) => apply preserves_ret; try typeclasses eauto
  | |- preserves _ (raise _) => apply preserves_raise; try typeclasses eauto
  | |- preserves _ tick => apply preserves_tick; try typeclasses eauto
  | |- preserves _ (modify _) => apply preserves_modify; intros ?
  | |- preserves _ (warn _) => apply preserves_modify; intros ?
  | |- preserves _ (try_except_KeyboardInterrupt _ _) =>
      apply preserves_try
  | |- preserves _ (if ?b then _ else _) => destruct b
  | |- preserves _ (match ?x with _ => _ end) => destruct x
  end.

Ltac calm_step :=
  lazymatch goal with
  | |- calm (bind get _) => refine (@calm_get _ _ (fun _ => _))
  | |- calm (bind _ _) => refine (@calm_bind _ _ _ _ _ (fun _ => _))
  | |- calm (ret _) => apply calm_ret
  | |- calm (raise _) => apply calm_raise; discriminate
  | |- calm tick => apply calm_tick
  | |- calm (modify _) => apply calm_modify
  | |- calm (warn _) => apply calm_modify
  | |- calm (try_except_KeyboardInterrupt _ _) => apply calm_try
  | |- calm (if ?b then _ else _) => destruct b
  | |- calm (match ?x with _ => _ end) => destruct x
  end.

Ltac catches_step :=
  lazymatch goal with
  | |- catches (bind get _) => refine (@catches_get _ _ (fun _ => _))
  | |- catches (bind _ _) => refine (@catches_bind _ _ _ _ _ (fun _ => _))
  | |- catches (ret _) => apply catches_ret
  | |- catches (raise _) => apply catches_raise; discriminate
  | |- catches (modify _) => apply catches_modify
  | |- catches (warn _) => apply catches_modify
  | |- catches (try_except_KeyboardInterrupt _ _) => apply catches_try
  | |- catches (if ?b then _ else _) => destruct b
  | |- catches (match ?x with _ => _ end) => destruct x
  end.

(** *** The attributes the training loop leaves alone *)

(** The hyper-parameters, the references to the weight arrays and the
    bounds are not reassigned, and an optimizer that is set stays set. *)
Record kept (w w' : world) : Prop := Kept {
  kept_hp : hp (self w') = hp (self w);
  kept_coefs : coefs_ (self w') = coefs_ (self w);
  kept_intercepts : intercepts_ (self w') = intercepts_ (self w);
  kept_min : min_coef_ (self w') = min_coef_ (self w);
  kept_max : max_coef_ (self w') = max_coef_ (self w);
  kept_optimizer : is_Some (_optimizer (self w)) -> is_Some (_optimizer (self w'))
}.

Local Instance kept_preorder : PreOrder kept.
Proof.
  split.
  - intros w. constructor; auto.
  - intros w1 w2 w3 [] []. constructor; try congruence. auto.
Qed.

(** The store only grows: no array that exists is changed. *)
Definition grows (w w' : world) : Prop := exists ext, heap w' = heap w ++ ext.

Local Instance grows_preorder : PreOrder grows.
Proof.
  split.
  - intros w. exists []. now rewrite app_nil_r.
  - intros w1 w2 w3 [e1 H1] [e2 H2]. exists (e1 ++ e2).
    rewrite H2, H1. now rewrite app_assoc.
Qed.

(** What the book-keeping of an epoch does to the world. *)
Definition bookkept (w w' : world) : Prop := kept w w' /\ grows w w'.

Local Instance bookkept_preorder : PreOrder bookkept.
Proof.
  split.
  - intros w. split; reflexivity.
  - intros w1 w2 w3 [] []. split; etransitivity; eauto.
Qed.

Ltac kept_leaf :=
  lazymatch goal with
  | |- PreOrder _ => typeclasses eauto
  | |- kept _ _ => constructor; cbn; eauto
  | |- grows _ _ => exists []; cbn; now rewrite app_nil_r
  | |- bookkept _ _ =>
      split; [constructor; cbn; eauto|exists []; cbn; now rewrite app_nil_r]
  end.

Lemma update_no_improvement_count_bookkept early val :
  preserves bookkept (_update_no_improvement_count early val).
Proof.
  intros w i. unfold _update_no_improvement_count, bind, get, modify.
  destruct (no_improvement_rule _ _ _ _ _ _ _ _) as [[count best] k].
  destruct best; cbn; [|kept_leaf].
  split; [constructor; cbn; eauto|].
  eexists. cbn. rewrite <- app_assoc. reflexivity.
Qed.

Lemma optimizer_iteration_ends_bookkept : preserves bookkept optimizer_iteration_ends.
Proof. unfold optimizer_iteration_ends. repeat pres_step; kept_leaf. Qed.

Lemma optimizer_trigger_stopping_bookkept : preserves bookkept optimizer_trigger_stopping.
Proof. unfold optimizer_trigger_stopping. repeat pres_step; kept_leaf. Qed.

Create HintDb pres.
Local Hint Resolve update_no_improvement_count_bookkept optimizer_iteration_ends_bookkept
  optimizer_trigger_stopping_bookkept : pres.

Lemma check_no_improvement_bookkept : preserves bookkept check_no_improvement.
Proof. unfold check_no_improvement. repeat pres_step; auto with pres; kept_leaf. Qed.

Lemma epoch_bookkeeping_bookkept X val n early acc :
  preserves bookkept (epoch_bookkeeping X val n early acc).
Proof. unfold epoch_bookkeeping. repeat pres_step; auto with pres; kept_leaf. Qed.

Local Hint Resolve check_no_improvement_bookkept epoch_bookkeeping_bookkept : pres.

Lemma preserves_weaken {A} (R R' : world -> world -> Prop) (m : M A) :
  (forall w w', R w w' -> R' w w') -> preserves R m -> preserves R' m.
Proof. intros HR Hm w i. specialize (Hm w i). destruct (m w i); auto. Qed.

Lemma bookkept_kept {A} (m : M A) : preserves bookkept m -> preserves kept m.
Proof. apply preserves_weaken. intros w w' [H _]. exact H. Qed.

Lemma optimizer_update_params_kept ps gs : preserves kept (optimizer_update_params ps gs).
Proof.
  intros w i. unfold optimizer_update_params, bind, get, modify.
  destruct (_optimizer (self w)) as [o|] eqn:Eo; [|cbn; reflexivity].
  destruct (update_params _ _ _) as [o' vals]. constructor; cbn; eauto.
Qed.

Lemma clip_row_kept ps idx lo hi : preserves kept (clip_row ps idx lo hi).
Proof.
  intros w i. rewrite clip_row_eq.
  destruct (ps !! O) as [r|]; [|cbn; reflexivity].
  destruct (heap w !! r) as [a|]; [|cbn; reflexivity].
  destruct (clip_item a idx lo hi); [|cbn; reflexivity]. constructor; cbn; eauto.
Qed.

Lemma clip_rows_kept bounds : forall ps idx, preserves kept (clip_rows ps idx bounds).
Proof.
  induction bounds as [|[lo hi] rest IH]; intros ps idx; cbn [clip_rows].
  - pres_step.
  - repeat pres_step; auto using clip_row_kept.
Qed.

Lemma update_coef_kept ps : preserves kept (_update_coef_using_constrain ps).
Proof. unfold _update_coef_using_constrain. pres_step. apply clip_rows_kept. Qed.

Lemma batch_loop_kept X y ps slices : forall acc,
  preserves kept (batch_loop X y ps slices acc).
Proof.
  induction slices as [|sl rest IH]; intros acc; cbn [batch_loop].
  - pres_step.
  - pres_step; [pres_step|]. pres_step.
    destruct (_backprop _ _ _ _ _ _) as [[loss cg] ig].
    pres_step; [apply optimizer_update_params_kept|].
    pres_step; [apply update_coef_kept|]. apply IH.
Qed.

Lemma epoch_batches_kept X y ps n bs : preserves kept (epoch_batches X y ps n bs).
Proof.
  unfold epoch_batches. pres_step; [|apply batch_loop_kept].
  destruct (gen_batches n bs); pres_step.
Qed.

Lemma epoch_train_kept X y val ps n bs early :
  preserves kept (epoch_train X y val ps n bs early).
Proof.
  unfold epoch_train. pres_step; [apply epoch_batches_kept|].
  apply bookkept_kept, epoch_bookkeeping_bookkept.
Qed.

Lemma epoch_tail_bookkept (stopped incremental : bool) :
  preserves bookkept
    (if stopped then ret true
     else if incremental then ret true
     else
       w <- get ;;
       (if n_iter_ (self w) =? max_iter (hp (self w)) then
          tick ;;; warn (MaxIterReached (max_iter (hp (self w))))
        else ret tt) ;;;
       ret false).
Proof. repeat pres_step; kept_leaf. Qed.

Lemma epoch_kept X y val ps n bs early inc :
  preserves kept (epoch X y val ps n bs early inc).
Proof.
  unfold epoch. pres_step; [apply epoch_train_kept|].
  pres_step; [apply bookkept_kept, check_no_improvement_bookkept|].
  apply bookkept_kept, epoch_tail_bookkept.
Qed.

Lemma epochs_kept rounds X y val ps n bs early inc :
  preserves kept (epochs rounds X y val ps n bs early inc).
Proof.
  induction rounds as [|rounds IH]; cbn [epochs].
  - pres_step.
  - pres_step; [apply epoch_kept|]. pres_step; [pres_step|apply IH].
Qed.

Lemma run_epochs_kept st inc : preserves kept (run_epochs st inc).
Proof. unfold run_epochs. pres_step. apply epochs_kept. Qed.

(** *** Runs that are not interrupted *)

Lemma optimizer_update_params_calm ps gs : calm (optimizer_update_params ps gs).
Proof.
  intros w. unfold optimizer_update_params, bind, get, modify.
  destruct (_optimizer (self w)); [|split; [reflexivity|discriminate]].
  destruct (update_params _ _ _). reflexivity.
Qed.

Lemma clip_row_calm ps idx lo hi : calm (clip_row ps idx lo hi).
Proof. unfold clip_row. repeat calm_step. Qed.

Lemma clip_rows_calm bounds : forall ps idx, calm (clip_rows ps idx bounds).
Proof.
  induction bounds as [|[lo hi] rest IH]; intros ps idx; cbn [clip_rows].
  - apply calm_ret.
  - repeat calm_step; auto using clip_row_calm.
Qed.

Lemma update_coef_calm ps : calm (_update_coef_using_constrain ps).
Proof. unfold _update_coef_using_constrain. calm_step. apply clip_rows_calm. Qed.

Lemma batch_loop_calm X y ps slices : forall acc, calm (batch_loop X y ps slices acc).
Proof.
  induction slices as [|sl rest IH]; intros acc; cbn [batch_loop].
  - apply calm_ret.
  - calm_step; [calm_step|]. calm_step.
    destruct (_backprop _ _ _ _ _ _) as [[loss cg] ig].
    calm_step; [apply optimizer_update_params_calm|].
    calm_step; [apply update_coef_calm|]. apply IH.
Qed.

Lemma update_no_improvement_count_calm early val :
  calm (_update_no_improvement_count early val).
Proof.
  intros w. unfold _update_no_improvement_count, bind, get, modify.
  destruct (no_improvement_rule _ _ _ _ _ _ _ _) as [[count best] k].
  destruct best; reflexivity.
Qed.

Lemma optimizer_iteration_ends_calm : calm optimizer_iteration_ends.
Proof. unfold optimizer_iteration_ends. repeat calm_step. Qed.

Lemma optimizer_trigger_stopping_calm : calm optimizer_trigger_stopping.
Proof. unfold optimizer_trigger_stopping. repeat calm_step. Qed.

Create HintDb calm.
Local Hint Resolve optimizer_update_params_calm update_coef_calm batch_loop_calm
  update_no_improvement_count_calm optimizer_iteration_ends_calm
  optimizer_trigger_stopping_calm : calm.

Lemma check_no_improvement_calm : calm check_no_improvement.
Proof. unfold check_no_improvement. repeat calm_step; auto with calm. Qed.

Lemma epoch_bookkeeping_calm X val n early acc :
  calm (epoch_bookkeeping X val n early acc).
Proof. unfold epoch_bookkeeping. repeat calm_step; auto with calm. Qed.

Lemma epoch_batches_calm X y ps n bs : calm (epoch_batches X y ps n bs).
Proof. unfold epoch_batches. repeat calm_step; auto with calm. Qed.

Local Hint Resolve check_no_improvement_calm epoch_bookkeeping_calm
  epoch_batches_calm : calm.

Lemma epoch_train_calm X y val ps n bs early : calm (epoch_train X y val ps n bs early).
Proof. unfold epoch_train. repeat calm_step; auto with calm. Qed.

Local Hint Resolve epoch_train_calm : calm.

Lemma epoch_calm X y val ps n bs early inc : calm (epoch X y val ps n bs early inc).
Proof. unfold epoch. repeat calm_step; auto with calm. Qed.

Lemma epochs_calm rounds X y val ps n bs early inc :
  calm (epochs rounds X y val ps n bs early inc).
Proof.
  induction rounds as [|rounds IH]; cbn [epochs].
  - apply calm_ret.
  - calm_step; [apply epoch_calm|]. calm_step; [calm_step|apply IH].
Qed.

Lemma run_epochs_calm st inc : calm (run_epochs st inc).
Proof. unfold run_epochs. calm_step. apply epochs_calm. Qed.

(** *** The first layer stays within the bounds *)

Lemma first_layer_within_bookkept ps w w' :
  bookkept w w' -> first_layer_within ps w -> first_layer_within ps w'.
Proof.
  intros [Hk [ext Hg]] H k lo hi Hlo Hhi Hb.
  rewrite (kept_min _ _ Hk) in Hlo. rewrite (kept_max _ _ Hk) in Hhi.
  destruct (H k lo hi Hlo Hhi Hb) as (r & a & row & Hr & Ha & Hi & Hw).
  exists r, a, row. repeat split; auto.
  rewrite Hg. apply lookup_app_l_Some, Ha.
Qed.

(** After the first mini-batch of the (rest of the) loop has been processed
    (optimizer update, then clipping), the first layer lies within the
    bounds, and the loop goes on from there. *)
Lemma batch_loop_step_within X y ps sl rest acc w i acc' w' i' :
  batch_loop X y ps (sl :: rest) acc w i = Returns acc' w' i' ->
  exists acc1 w1 i1,
    first_layer_within ps w1 /\
    batch_loop X y ps rest acc1 w1 i1 = Returns acc' w' i'.
Proof.
  cbn [batch_loop]. intros H.
  apply bind_Returns in H as ([] & w1 & i1 & _ & H).
  unfold bind at 1 in H. unfold get at 1 in H.
  destruct (_backprop _ _ _ _ _ _) as [[loss cg] ig].
  apply bind_Returns in H as ([] & w2 & i2 & _ & H).
  apply bind_Returns in H as ([] & w3 & i3 & Hc & H).
  apply update_coef_Returns in Hc as (_ & _ & _ & Hc).
  eauto.
Qed.

Lemma batch_loop_Returns_within X y ps slices : forall acc w i acc' w' i',
  slices <> [] ->
  batch_loop X y ps slices acc w i = Returns acc' w' i' ->
  first_layer_within ps w'.
Proof.
  induction slices as [|sl rest IH]; intros acc w i acc' w' i' Hne H; [congruence|].
  apply batch_loop_step_within in H as (acc1 & w1 & i1 & Hw & H).
  destruct rest as [|sl' rest].
  - cbn in H. injection H as _ <- _. exact Hw.
  - eapply IH; [discriminate|exact H].
Qed.

(** The batch size of the loop always yields at least one batch. *)
Definition some_batch (n bs : Z) : Prop :=
  forall slices, gen_batches n bs = Some slices -> slices <> [].

Lemma gen_batches_nonempty (n bs : Z) : 1 <= n -> some_batch n bs.
Proof.
  intros Hn slices H.
  destruct (Z_le_gt_dec bs 0) as [Hbs|Hbs].
  - unfold gen_batches in H. apply Z.leb_le in Hbs. rewrite Hbs in H. discriminate.
  - rewrite gen_batches_positive in H by lia. injection H as <-.
    destruct (Z.to_nat (n / bs)) as [|q] eqn:Eq; [|discriminate].
    assert (n / bs = 0) as -> by (pose proof (Z.div_pos n bs); lia).
    rewrite Z.mul_0_l. cbn [full_slices app].
    destruct (0 <? n) eqn:E0; [discriminate|]. apply Z.ltb_ge in E0. lia.
Qed.

Lemma epoch_train_Returns_within X y val ps n bs early w i w' i' :
  some_batch n bs ->
  epoch_train X y val ps n bs early w i = Returns tt w' i' ->
  first_layer_within ps w'.
Proof.
  intros Hsb H. unfold epoch_train in H.
  apply bind_Returns in H as (acc & w1 & i1 & Hb & H).
  unfold epoch_batches in Hb. apply bind_Returns in Hb as (slices & w0 & i0 & Hg & Hb).
  destruct (gen_batches n bs) as [l|] eqn:El; [|discriminate].
  cbn in Hg. injection Hg as <- <- <-.
  apply batch_loop_Returns_within in Hb; [|apply Hsb; exact El].
  pose proof (epoch_bookkeeping_bookkept X val n early acc w1 i1) as Hk.
  rewrite H in Hk. eapply first_layer_within_bookkept; eauto.
Qed.

Lemma epoch_Returns_within X y val ps n bs early inc w i b w' i' :
  some_batch n bs ->
  epoch X y val ps n bs early inc w i = Returns b w' i' ->
  first_layer_within ps w'.
Proof.
  intros Hsb H. unfold epoch in H.
  apply bind_Returns in H as ([] & w1 & i1 & Ht & H).
  apply epoch_train_Returns_within in Ht; [|exact Hsb].
  apply bind_Returns in H as (stopped & w2 & i2 & Hc & H).
  pose proof (check_no_improvement_bookkept w1 i1) as Hk1. rewrite Hc in Hk1.
  pose proof (epoch_tail_bookkept stopped inc w2 i2) as Hk2. rewrite H in Hk2.
  eapply first_layer_within_bookkept; [exact Hk2|].
  eapply first_layer_within_bookkept; eauto.
Qed.

Lemma epochs_Returns_within rounds X y val ps n bs early inc : forall w i w' i',
  some_batch n bs -> (0 < rounds)%nat ->
  epochs rounds X y val ps n bs early inc w i = Returns tt w' i' ->
  first_layer_within ps w'.
Proof.
  induction rounds as [|rounds IH]; intros w i w' i' Hsb Hr H; [lia|].
  cbn [epochs] in H. apply bind_Returns in H as (broke & w1 & i1 & He & H).
  apply epoch_Returns_within in He; [|exact Hsb].
  destruct broke.
  - cbn in H. injection H as <- <-. exact He.
  - destruct rounds as [|rounds].
    + cbn in H. injection H as <- <-. exact He.
    + eapply IH; [exact Hsb|lia|exact H].
Qed.

(** *** Before the loop *)

(** The hyper-parameters and the bounds are not reassigned. *)
Record bounds_kept (w w' : world) : Prop := BoundsKept {
  bk_hp : hp (self w') = hp (self w);
  bk_min : min_coef_ (self w') = min_coef_ (self w);
  bk_max : max_coef_ (self w') = max_coef_ (self w)
}.

Local Instance bounds_kept_preorder : PreOrder bounds_kept.
Proof.
  split.
  - intros w. constructor; auto.
  - intros w1 w2 w3 [] []. constructor; congruence.
Qed.

Lemma kept_bounds_kept w w' : kept w w' -> bounds_kept w w'.
Proof. intros []. constructor; auto. Qed.

Lemma prepare_bounds_kept X y inc : preserves bounds_kept (prepare X y inc).
Proof.
  intros w i. unfold prepare, bind, get, modify, ret, raise.
  destruct (_validate_hyperparameters _); [|reflexivity].
  destruct (existsb _ _); [reflexivity|].
  destruct (_validate_input _ _ _ _ _ _) as [[[X' y'] k]|]; [|reflexivity].
  destruct (check_random_state _) as [rs|]; [|constructor; reflexivity].
  destruct (negb _ || _); [|constructor; reflexivity].
  cbn. destruct (_initialize _ _ _ _ _) as [[[cs ics] k'] g].
  destruct rs; constructor; reflexivity.
Qed.

Lemma prepare_calm X y inc : calm (prepare X y inc).
Proof.
  intros w. unfold prepare, bind, get, modify, ret, raise.
  destruct (_validate_hyperparameters _); [|split; [reflexivity|discriminate]].
  destruct (existsb _ _); [split; [reflexivity|discriminate]|].
  destruct (_validate_input _ _ _ _ _ _) as [[[X' y'] k]|];
    [|split; [reflexivity|discriminate]].
  destruct (check_random_state _) as [rs|]; [|split; [reflexivity|discriminate]].
  destruct (negb _ || _); [|reflexivity].
  cbn. destruct (_initialize _ _ _ _ _) as [[[cs ics] k'] g]. reflexivity.
Qed.

Lemma verify_coef_Returns fc coef value w i v w' i' :
  _verify_coef fc coef value w i = Returns v w' i' ->
  w' = w /\ i' = i /\ length v = fc /\
  v = match coef with Some c => c | None => replicate fc value end.
Proof.
  unfold _verify_coef. destruct coef as [c|].
  - destruct (Nat.eqb (length c) fc) eqn:E; [|discriminate].
    apply Nat.eqb_eq in E. intros [= <- <- <-]. auto.
  - intros [= <- <- <-]. rewrite length_replicate. auto.
Qed.

Lemma set_coef_bounds_Returns X mn mx w i w' i' :
  set_coef_bounds X mn mx w i = Returns tt w' i' ->
  i' = i /\
  w' = with_self (set_bounds
         (match mn with Some c => c | None => replicate (shape_last X) ninf end)
         (match mx with Some c => c | None => replicate (shape_last X) inf end)) w /\
  length (min_coef_ (self w')) = shape_last X /\
  length (max_coef_ (self w')) = shape_last X.
Proof.
  unfold set_coef_bounds. intros H.
  apply bind_Returns in H as (mnv & w1 & i1 & H1 & H).
  apply verify_coef_Returns in H1 as (-> & -> & Hl1 & ->).
  apply bind_Returns in H as ([] & w2 & i2 & H2 & H).
  cbn in H2. injection H2 as <- <-.
  apply bind_Returns in H as (mxv & w3 & i3 & H3 & H).
  apply verify_coef_Returns in H3 as (-> & -> & Hl3 & ->).
  cbn in H. injection H as <- <-.
  repeat split; auto.
Qed.

Lemma kept_of_self w w' : self w' = self w -> kept w w'.
Proof. intros H. constructor; rewrite H; auto. Qed.

Lemma make_optimizer_Returns ps inc (w : world) (i : option nat) :
  exists w1,
    make_optimizer ps inc w i = Returns tt w1 i /\
    kept w w1 /\ heap w1 = heap w /\
    (solver (hp (self w)) <> lbfgs -> inc = false -> is_Some (_optimizer (self w1))).
Proof.
  unfold make_optimizer, bind, get.
  destruct (negb inc || negb (bool_decide (is_Some (_optimizer (self w))))) eqn:E.
  - destruct (solver (hp (self w))) eqn:Es; cbn; eexists; (split; [reflexivity|]);
      (split; [constructor; cbn; eauto|]); split; auto; cbn; eauto; congruence.
  - eexists. split; [reflexivity|]. split; [reflexivity|]. split; [reflexivity|].
    intros _ ->. discriminate.
Qed.

Lemma split_validation_Returns X y early w i sp w' i' :
  split_validation X y early w i = Returns sp w' i' ->
  i' = i /\ self w' = self w /\ heap w' = heap w /\
  (early = false -> sp = (X, y, None)).
Proof.
  unfold split_validation. destruct early.
  - unfold bind, get.
    destruct (train_test_split _ _ _ _ _) as [[[[[Xt Xv] yt] yv] g]|]; [|discriminate].
    cbn. intros [= <- <- <-]. repeat split; auto. discriminate.
  - intros [= <- <- <-]. auto.
Qed.

Lemma resolve_batch_size_Returns n w i bs w' i' :
  resolve_batch_size n w i = Returns bs w' i' ->
  i' = i /\ self w' = self w /\ heap w' = heap w /\
  bs = match batch_size (hp (self w)) with
       | Auto => Z.min 200 n
       | Size b => clip_int b 1 n
       end.
Proof.
  unfold resolve_batch_size, bind, get.
  destruct (batch_size (hp (self w))) as [|b].
  - intros [= <- <- <-]. auto.
  - destruct ((b <? 1) || (b >? n)); cbn; intros [= <- <- <-]; auto.
Qed.

(** What the setup of the loop hands over. *)
Lemma training_setup_Returns X y inc w i st w' i' :
  training_setup X y inc w i = Returns st w' i' ->
  i' = i /\ kept w w' /\ heap w' = heap w /\
  st_params st = coefs_ (self w) ++ intercepts_ (self w) /\
  st_early_stopping st = early_stopping (hp (self w)) && negb inc /\
  st_n_samples st = Z.of_nat (length (st_X st)) /\
  st_batch_size st
  = match batch_size (hp (self w)) with
    | Auto => Z.min 200 (st_n_samples st)
    | Size b => clip_int b 1 (st_n_samples st)
    end /\
  (st_early_stopping st = false -> st_X st = X /\ st_y st = y /\ st_val st = None) /\
  (solver (hp (self w)) <> lbfgs -> inc = false -> is_Some (_optimizer (self w'))).
Proof.
  unfold training_setup. unfold bind at 1. unfold get at 1. intros H.
  apply bind_Returns in H as ([] & w1 & i1 & Hm & H).
  destruct (make_optimizer_Returns (coefs_ (self w) ++ intercepts_ (self w)) inc w i)
    as (w1' & Hm' & Hk & Hh & Ho).
  rewrite Hm' in Hm. injection Hm as <- <-.
  apply bind_Returns in H as ([[X' y'] val] & w2 & i2 & Hs & H).
  apply split_validation_Returns in Hs as (-> & Hs2 & Hh2 & Hsp).
  apply bind_Returns in H as (bs & w3 & i3 & Hr & H).
  apply resolve_batch_size_Returns in Hr as (-> & Hs3 & Hh3 & ->).
  cbn in H. injection H as <- <- <-. cbn.
  assert (Hk3 : kept w w3).
  { etransitivity; [exact Hk|]. apply kept_of_self. congruence. }
  rewrite Hs2, (kept_hp _ _ Hk).
  split; [reflexivity|]. split; [exact Hk3|]. split; [congruence|].
  split; [reflexivity|]. split; [reflexivity|]. split; [reflexivity|].
  split; [reflexivity|]. split.
  - intros He. specialize (Hsp He). injection Hsp as -> -> ->. auto.
  - intros H1 H2. rewrite Hs3, Hs2. auto.
Qed.

(** *** The mini-batches of an epoch *)

Lemma getslice_length (X : data) (sl : slice) :
  0 <= start sl <= stop sl -> stop sl <= Z.of_nat (length X) ->
  Z.of_nat (length (getslice X sl)) = stop sl - start sl.
Proof.
  intros H1 H2. unfold getslice. rewrite length_take, length_drop. lia.
Qed.

(** The loop over the slices is the sequence of the steps on the
    mini-batches the slices cut out, in the order of the slices. *)
Lemma batch_loop_steps X y ps slices :
  Forall (fun sl => 0 <= start sl <= stop sl /\ stop sl <= Z.of_nat (length X)) slices ->
  forall acc (w : world) (i : option nat),
    batch_loop X y ps slices acc w i
    = batch_steps (map (fun sl => (getslice X sl, getslice y sl)) slices) ps acc w i.
Proof.
  induction 1 as [|sl rest [Hsl1 Hsl2] _ IH]; intros acc w i; [reflexivity|].
  cbn [batch_loop batch_steps map]. unfold batch_step, bind, get, ret.
  destruct (tick w i) as [[] w1 i1|e w1 i1]; [|reflexivity].
  destruct (_backprop _ _ _ _ _ _) as [[loss cg] ig].
  destruct (optimizer_update_params ps (cg ++ ig) w1 i1) as [[] w2 i2|e w2 i2];
    [|reflexivity].
  destruct (_update_coef_using_constrain ps w2 i2) as [[] w3 i3|e w3 i3];
    [|reflexivity].
  rewrite (getslice_length X sl Hsl1 Hsl2). apply IH.
Qed.

(** The samples cut by the slices of [gen_batches]. *)
Lemma epoch_train_steps (X y : data) (batch_size : Z) (slices : list slice) :
  1 <= batch_size ->
  gen_batches (Z.of_nat (length X)) batch_size = Some slices ->
  forall val ps early (w : world) (i : option nat),
    epoch_train X y val ps (Z.of_nat (length X)) batch_size early w i
    = (acc <- batch_steps (map (fun sl => (getslice X sl, getslice y sl)) slices)
                          ps zero ;;
       epoch_bookkeeping X val (Z.of_nat (length X)) early acc) w i.
Proof.
  intros Hbs Hg val ps early w i.
  destruct (gen_batches_in_order X batch_size Hbs)
    as (slices' & Hg' & Hat & Hnone & _).
  rewrite Hg in Hg'. injection Hg' as <-.
  unfold epoch_train, epoch_batches.
  rewrite Hg. unfold bind at 2. cbn [ret]. unfold bind.
  rewrite batch_loop_steps; [reflexivity|].
  apply Forall_lookup. intros k sl Hk.
  destruct (Z_lt_le_dec (Z.of_nat k * batch_size) (Z.of_nat (length X))) as [Hlt|Hge].
  - rewrite (Hat k Hlt) in Hk. injection Hk as <-. cbn [start stop]. nia.
  - rewrite (Hnone k Hge) in Hk. discriminate.
Qed.

Lemma epochs_steps (X y : data) (batch_size : Z) (slices : list slice) :
  1 <= batch_size ->
  gen_batches (Z.of_nat (length X)) batch_size = Some slices ->
  forall rounds val ps early inc (w : world) (i : option nat),
    epochs rounds X y val ps (Z.of_nat (length X)) batch_size early inc w i
    = epochs_on rounds (map (fun sl => (getslice X sl, getslice y sl)) slices)
                X val ps (Z.of_nat (length X)) early inc w i.
Proof.
  intros Hbs Hg rounds val ps early inc.
  assert (He : forall (w : world) (i : option nat),
             epoch X y val ps (Z.of_nat (length X)) batch_size early inc w i
             = epoch_on (map (fun sl => (getslice X sl, getslice y sl)) slices)
                        X val ps (Z.of_nat (length X)) early inc w i).
  { intros w i. unfold epoch, epoch_on. unfold bind at 1 6.
    rewrite (epoch_train_steps X y batch_size slices Hbs Hg).
    unfold bind at 1 2 6 7.
    destruct (batch_steps _ _ _ w i) as [acc w1 i1|e w1 i1]; [|reflexivity].
    reflexivity. }
  induction rounds as [|rounds IH]; intros w i; [reflexivity|].
  cbn [epochs epochs_on]. unfold bind. rewrite He.
  destruct (epoch_on _ _ _ _ _ _ _ w i) as [[|] w1 i1|e w1 i1];
    [reflexivity|apply IH|reflexivity].
Qed.


Lemma make_optimizer_calm ps inc : calm (make_optimizer ps inc).
Proof. unfold make_optimizer. repeat calm_step. Qed.

Lemma split_validation_calm X y early : calm (split_validation X y early).
Proof. unfold split_validation. repeat calm_step. Qed.

Lemma resolve_batch_size_calm n : calm (resolve_batch_size n).
Proof. unfold resolve_batch_size. repeat calm_step. Qed.

Lemma training_setup_calm X y inc : calm (training_setup X y inc).
Proof.
  unfold training_setup. calm_step. calm_step; [apply make_optimizer_calm|].
  calm_step; [apply split_validation_calm|].
  repeat calm_step. apply resolve_batch_size_calm.
Qed.

Lemma setup_some_batch (n bs : Z) (b : batch_size_t) :
  0 <= n ->
  bs = match b with Auto => Z.min 200 n | Size b => clip_int b 1 n end ->
  some_batch n bs.
Proof.
  intros Hn Hbs. destruct (Z_le_gt_dec 1 n) as [H1|H1].
  - apply gen_batches_nonempty, H1.
  - intros slices H. assert (n = 0) as -> by lia.
    assert (bs = 0) as -> by (subst bs; destruct b; unfold clip_int; lia).
    discriminate.
Qed.

(** *** The whole of [fit], when it returns *)

Lemma training_loop_no_early st inc (w w' : world) (i' : option nat) :
  st_early_stopping st = false ->
  training_loop st inc w None = Returns tt w' i' ->
  run_epochs st inc w None = Returns tt w' None /\ i' = None.
Proof.
  intros He. unfold training_loop, bind, try_except_KeyboardInterrupt. rewrite He.
  pose proof (run_epochs_calm st inc w) as Hc.
  destruct (run_epochs st inc w None) as [[] w1 i1|e w1 i1].
  - subst i1. cbn. intros [= <- <-]. auto.
  - destruct Hc as [-> Hne]. destruct e; try discriminate. congruence.
Qed.

(** A returning, uninterrupted [fit], step by step. *)
Lemma fit_Returns_quiet X y mn mx (w w' : world) (i' : option nat) :
  fit X y mn mx w None = Returns tt w' i' ->
  exists w0 X' y' lu wp st ws,
    set_coef_bounds X mn mx w None = Returns tt w0 None /\
    prepare X y false w0 None = Returns (X', y', lu) wp None /\
    solver (hp (self wp)) <> lbfgs /\
    training_setup X' y' false wp None = Returns st ws None /\
    training_loop st false ws None = Returns tt w' None /\
    i' = None /\ weights_finite w' = true.
Proof.
  unfold fit, _constrained_fit, train, _fit_constrained_stochastic. intros H.
  apply bind_Returns in H as ([] & w0 & i0 & Hb & H).
  pose proof (set_coef_bounds_Returns _ _ _ _ _ _ _ Hb) as (-> & _).
  apply bind_Returns in H as ([] & w1 & i1 & Ht & Hv).
  apply bind_Returns in Ht as ([[X' y'] lu] & wp & ip & Hp & Ht).
  pose proof (prepare_calm X y false w0) as Hpc. rewrite Hp in Hpc. subst ip.
  unfold bind at 1 in Ht. unfold get at 1 in Ht.
  apply bind_Returns in Ht as ([] & wq & iq & Hs & Ht).
  assert (Hsolver : solver (hp (self wp)) <> lbfgs /\ wq = wp /\ iq = None).
  { destruct (solver (hp (self wp))); cbn in Hs; try discriminate;
      injection Hs as <- <-; repeat split; discriminate. }
  destruct Hsolver as (Hsol & -> & ->).
  apply bind_Returns in Ht as (st & ws & i3 & Hst & Hl).
  pose proof (training_setup_calm X' y' false wp) as Hsc. rewrite Hst in Hsc. subst i3.
  assert (Hi1 : i1 = None).
  { unfold training_loop in Hl.
    apply bind_Returns in Hl as ([] & wa & ia & Hl1 & Hl).
    pose proof (calm_try (run_epochs st false) (warn TrainingInterrupted)
                  (run_epochs_calm st false) ws) as Hc.
    rewrite Hl1 in Hc. subst ia.
    apply bind_Returns in Hl as ([] & wb & ib & Hl2 & Hl).
    cbn in Hl. injection Hl as <- <-.
    destruct (st_early_stopping st).
    - unfold restore_best_weights, bind, get in Hl2.
      destruct (_best_coefs (self wa)); [|discriminate]. cbn in Hl2.
      destruct (_best_intercepts (self wa)); [|discriminate].
      unfold modify in Hl2. congruence.
    - unfold ret in Hl2. congruence. }
  subst i1.
  unfold validate_weights, bind, get in Hv.
  destruct (weights_finite w1) eqn:Ef; [|discriminate].
  cbn in Hv. injection Hv as <- <-.
  exists w0, X', y', lu, wp, st, ws. auto 10.
Qed.

Lemma isfinite_not_nan (x : float64) : isfinite x = true -> isnan x = false.
Proof. destruct x; simpl; congruence. Qed.

Lemma all_finite_item (a : ndarray) (k : nat) (row : list float64) :
  all_finite a = true -> item a k = Some row ->
  Forall (fun x => isfinite x = true) row.
Proof.
  destruct a as [v|rows]; simpl; intros Hf Hi.
  - destruct (v !! k) as [x|] eqn:E; [|discriminate]. injection Hi as <-.
    constructor; [|constructor].
    rewrite forallb_forall in Hf. apply Hf.
    apply list_elem_of_In. eapply list_elem_of_lookup_2, E.
  - rewrite forallb_forall in Hf. apply Forall_forall. intros x Hx.
    assert (Hr : forallb isfinite row = true).
    { apply Hf. apply list_elem_of_In. eapply list_elem_of_lookup_2, Hi. }
    rewrite forallb_forall in Hr. apply Hr, list_elem_of_In, Hx.
Qed.

Lemma weights_finite_first (w : world) ps r a :
  forallb all_finite (load (heap w) ps) = true ->
  ps !! O = Some r -> heap w !! r = Some a -> all_finite a = true.
Proof.
  destruct ps as [|r0 ps]; [discriminate|]. cbn. intros Hf [= ->] Ha.
  apply andb_true_iff in Hf as [Hf _]. unfold fetch in Hf. rewrite Ha in Hf. exact Hf.
Qed.

(** What a returning, uninterrupted [fit] without early stopping leaves:
    the verified bounds, a first layer within them, finite weights. *)
Lemma fit_Returns_within X y mn mx (w w' : world) (i' : option nat) :
  early_stopping (hp (self w)) = false ->
  1 <= max_iter (hp (self w)) ->
  fit X y mn mx w None = Returns tt w' i' ->
  first_layer_within (coefs_ (self w') ++ intercepts_ (self w')) w' /\
  weights_finite w' = true /\
  min_coef_ (self w')
  = match mn with Some c => c | None => replicate (shape_last X) ninf end /\
  max_coef_ (self w')
  = match mx with Some c => c | None => replicate (shape_last X) inf end.
Proof.
  intros He Hmax H.
  apply fit_Returns_quiet in H
    as (w0 & X' & y' & lu & wp & st & ws & Hb & Hp & _ & Hst & Hl & _ & Hfin).
  apply set_coef_bounds_Returns in Hb as (_ & -> & _ & _).
  pose proof (prepare_bounds_kept X y false
                (with_self (set_bounds
                   match mn with Some c => c | None => replicate (shape_last X) ninf end
                   match mx with Some c => c | None => replicate (shape_last X) inf end) w)
                None) as Hbk.
  rewrite Hp in Hbk. destruct Hbk as [Hhp Hmin Hmaxc]. cbn in Hhp, Hmin, Hmaxc.
  apply training_setup_Returns in Hst
    as (_ & Hk & _ & Hps & Hearly & Hn & Hbs & _ & _).
  rewrite Hhp, He in Hearly. cbn in Hearly.
  apply training_loop_no_early in Hl as [Hl _]; [|exact Hearly].
  pose proof (run_epochs_kept st false ws None) as Hk2. rewrite Hl in Hk2.
  unfold run_epochs, bind, get in Hl.
  apply epochs_Returns_within in Hl.
  - destruct Hk as [Hk_hp Hk_c Hk_i Hk_min Hk_max _].
    destruct Hk2 as [Hk2_hp Hk2_c Hk2_i Hk2_min Hk2_max _].
    split; [|split; [exact Hfin|split; congruence]].
    rewrite Hk2_c, Hk2_i, Hk_c, Hk_i, <- Hps. exact Hl.
  - eapply setup_some_batch; [|exact Hbs]. lia.
  - rewrite (kept_hp _ _ Hk), Hhp. lia.
Qed.


(** *** Shapes

    The optimizers update the arrays of [params] in place ([param +=
    update]): whatever the values, every array keeps its shape.  This is the
    one fact about an optimizer that the results below rely on. *)

Definition keeps_shapes : Prop :=
  forall (o : Opt) (ps gs : list ndarray),
    Forall2 (fun p v => len v = len p) ps (snd (update_params o ps gs)).

Lemma fetch_len (h : store) (r : ref) :
  len (fetch h r) = default O (map len h !! r).
Proof.
  unfold fetch. rewrite list_lookup_fmap. destruct (h !! r); reflexivity.
Qed.

Lemma insert_len (h : store) (r : ref) (v : ndarray) :
  len v = len (fetch h r) -> map len (<[r := v]> h) = map len h.
Proof.
  intros Hv. unfold fetch in Hv.
  destruct (h !! r) as [a|] eqn:E.
  - rewrite list_fmap_insert. apply list_insert_id.
    rewrite list_lookup_fmap, E. cbn in *. congruence.
  - rewrite list_insert_ge; [reflexivity|]. apply lookup_ge_None_1, E.
Qed.

Lemma assign_len ps : forall (h : store) (vals : list ndarray),
  Forall2 (fun p v => len v = len p) (load h ps) vals ->
  map len (assign h ps vals) = map len h.
Proof.
  induction ps as [|r ps IH]; intros h vals H; [reflexivity|].
  cbn in H. destruct vals as [|v vals]; [reflexivity|].
  inversion H as [|? ? ? ? Hv Hrest]; subst. cbn [assign].
  pose proof (insert_len h r v Hv) as Hl.
  rewrite IH; [exact Hl|].
  unfold load. apply Forall2_fmap_l.
  unfold load in Hrest. apply Forall2_fmap_l in Hrest.
  eapply Forall2_impl; [exact Hrest|].
  intros r' v' Hr'. cbn in *. rewrite Hr', !fetch_len, Hl. reflexivity.
Qed.

(** The bounds are not reassigned and no array of the store changes its
    shape (the store may grow). *)
Record shaped (w w' : world) : Prop := Shaped {
  shaped_min : min_coef_ (self w') = min_coef_ (self w);
  shaped_max : max_coef_ (self w') = max_coef_ (self w);
  shaped_len : exists ext, map len (heap w') = map len (heap w) ++ ext
}.

Local Instance shaped_preorder : PreOrder shaped.
Proof.
  split.
  - intros w. constructor; auto. exists []. now rewrite app_nil_r.
  - intros w1 w2 w3 [? ? [e1 H1]] [? ? [e2 H2]]. constructor; try congruence.
    exists (e1 ++ e2). rewrite H2, H1. now rewrite app_assoc.
Qed.

Lemma bookkept_shaped w w' : bookkept w w' -> shaped w w'.
Proof.
  intros [[] [ext Hg]]. constructor; auto.
  exists (map len ext). rewrite Hg. apply map_app.
Qed.

Lemma shaped_same_lens (w w' : world) :
  self w' = self w -> map len (heap w') = map len (heap w) -> shaped w w'.
Proof.
  intros Hs Hl. constructor; try (rewrite Hs; reflexivity).
  exists []. rewrite app_nil_r. exact Hl.
Qed.

Section Shapes.

Hypothesis update_keeps_shapes : keeps_shapes.

Lemma optimizer_update_params_shaped ps gs :
  preserves shaped (optimizer_update_params ps gs).
Proof.
  intros w i. unfold optimizer_update_params, bind, get, modify.
  destruct (_optimizer (self w)) as [o|]; [|cbn; reflexivity].
  pose proof (update_keeps_shapes o (load (heap w) ps) gs) as Hs.
  destruct (update_params o (load (heap w) ps) gs) as [o' vals]. cbn in Hs.
  constructor; cbn; auto. exists []. rewrite app_nil_r. apply assign_len, Hs.
Qed.

Lemma clip_row_shaped ps idx lo hi : preserves shaped (clip_row ps idx lo hi).
Proof.
  intros w i. rewrite clip_row_eq.
  destruct (ps !! O) as [r|]; [|cbn; reflexivity].
  destruct (heap w !! r) as [a|] eqn:Ea; [|cbn; reflexivity].
  destruct (clip_item a idx lo hi) as [a'|] eqn:Ec; [|cbn; reflexivity].
  constructor; cbn; auto. exists []. rewrite app_nil_r.
  apply insert_len. unfold fetch. rewrite Ea. cbn. eapply clip_item_len, Ec.
Qed.

Lemma clip_rows_shaped bounds : forall ps idx, preserves shaped (clip_rows ps idx bounds).
Proof.
  induction bounds as [|[lo hi] rest IH]; intros ps idx; cbn [clip_rows].
  - pres_step.
  - repeat pres_step; auto using clip_row_shaped.
Qed.

Lemma update_coef_shaped ps : preserves shaped (_update_coef_using_constrain ps).
Proof. unfold _update_coef_using_constrain. pres_step. apply clip_rows_shaped. Qed.

Lemma batch_loop_shaped X y ps slices : forall acc,
  preserves shaped (batch_loop X y ps slices acc).
Proof.
  induction slices as [|sl rest IH]; intros acc; cbn [batch_loop].
  - pres_step.
  - pres_step; [pres_step|]. pres_step.
    destruct (_backprop _ _ _ _ _ _) as [[loss cg] ig].
    pres_step; [apply optimizer_update_params_shaped|].
    pres_step; [apply update_coef_shaped|]. apply IH.
Qed.

Lemma epoch_batches_shaped X y ps n bs : preserves shaped (epoch_batches X y ps n bs).
Proof.
  unfold epoch_batches. pres_step; [|apply batch_loop_shaped].
  destruct (gen_batches n bs); pres_step.
Qed.

Lemma epoch_shaped X y val ps n bs early inc :
  preserves shaped (epoch X y val ps n bs early inc).
Proof.
  unfold epoch, epoch_train.
  pres_step; [pres_step; [apply epoch_batches_shaped|]|].
  - eapply preserves_weaken; [apply bookkept_shaped|apply epoch_bookkeeping_bookkept].
  - pres_step.
    + eapply preserves_weaken; [apply bookkept_shaped|apply check_no_improvement_bookkept].
    + eapply preserves_weaken; [apply bookkept_shaped|apply epoch_tail_bookkept].
Qed.

End Shapes.

(** The first array of [params] has an item for every pair of bounds. *)
Definition bound_count (w : world) : nat :=
  length (zip (min_coef_ (self w)) (max_coef_ (self w))).

Definition has_rows (ps : list ref) (w : world) : Prop :=
  exists r n, ps !! O = Some r /\ map len (heap w) !! r = Some n /\
              (bound_count w <= n)%nat.

Lemma has_rows_shaped ps w w' : shaped w w' -> has_rows ps w -> has_rows ps w'.
Proof.
  intros [Hmin Hmax [ext Hl]] (r & n & Hr & Hn & Hc).
  exists r, n. split; [exact Hr|]. split.
  - rewrite Hl. apply lookup_app_l_Some, Hn.
  - unfold bound_count in *. rewrite Hmin, Hmax. exact Hc.
Qed.

(** Every feature has the default bounds [(-inf, +inf)]. *)
Definition default_bounds (w : world) : Prop :=
  Forall (fun b => b = (ninf, inf)) (zip (min_coef_ (self w)) (max_coef_ (self w))).

Lemma default_bounds_shaped w w' : shaped w w' -> default_bounds w -> default_bounds w'.
Proof. intros [Hmin Hmax _]. unfold default_bounds. now rewrite Hmin, Hmax. Qed.

(** In an uninterrupted run the clipping step succeeds on well-shaped
    weights. *)
Lemma update_coef_succeeds ps (w : world) :
  has_rows ps w ->
  exists r a a',
    ps !! O = Some r /\ heap w !! r = Some a /\
    clip_items a O (zip (min_coef_ (self w)) (max_coef_ (self w))) = Some a' /\
    _update_coef_using_constrain ps w None
    = Returns tt (with_heap (<[r := a']> (heap w)) w) None.
Proof.
  intros (r & n & Hr & Hn & Hc).
  rewrite list_lookup_fmap in Hn.
  destruct (heap w !! r) as [a|] eqn:Ea; [|discriminate]. cbn in Hn. injection Hn as <-.
  destruct (clip_items_is_Some (zip (min_coef_ (self w)) (max_coef_ (self w))) a O)
    as [a' Ha']; [exact Hc|].
  exists r, a, a'. repeat split; auto.
  unfold _update_coef_using_constrain, bind, get.
  eapply clip_rows_quiet; eauto.
Qed.

(** With the default bounds the clipping step changes nothing. *)
Lemma update_coef_identity ps (w : world) :
  default_bounds w -> has_rows ps w ->
  _update_coef_using_constrain ps w None = Returns tt w None.
Proof.
  intros Hd Hr. destruct (update_coef_succeeds ps w Hr) as (r & a & a' & _ & Ha & Hc & ->).
  apply clip_items_unbounded in Hc; [|exact Hd]. subst a'.
  rewrite list_insert_id by exact Ha. rewrite with_heap_id. reflexivity.
Qed.

Section Baseline.

Hypothesis update_keeps_shapes : keeps_shapes.

Lemma batch_loop_baseline X y ps slices : forall acc (w : world),
  default_bounds w -> has_rows ps w ->
  batch_loop X y ps slices acc w None = baseline_batch_loop X y ps slices acc w None.
Proof.
  induction slices as [|sl rest IH]; intros acc w Hd Hr; [reflexivity|].
  cbn [batch_loop baseline_batch_loop]. unfold bind at 1 2 5 6. cbn [tick get].
  destruct (_backprop _ _ _ _ _ _) as [[loss cg] ig].
  unfold bind at 1 3.
  pose proof (optimizer_update_params_shaped update_keeps_shapes ps (cg ++ ig) w None) as Hs.
  pose proof (optimizer_update_params_calm ps (cg ++ ig) w) as Hc.
  destruct (optimizer_update_params ps (cg ++ ig) w None) as [[] w1 i1|e w1 i1];
    [|reflexivity].
  subst i1. unfold bind.
  rewrite update_coef_identity;
    [|eapply default_bounds_shaped; eauto|eapply has_rows_shaped; eauto].
  apply IH; [eapply default_bounds_shaped; eauto|eapply has_rows_shaped; eauto].
Qed.

Lemma epoch_baseline X y val ps n bs early inc (w : world) :
  default_bounds w -> has_rows ps w ->
  epoch X y val ps n bs early inc w None = baseline_epoch X y val ps n bs early inc w None.
Proof.
  intros Hd Hr. unfold epoch, baseline_epoch, epoch_train, baseline_epoch_train, epoch_batches.
  unfold bind at 1 2 3 4 7 8 9.
  destruct (gen_batches n bs) as [slices|]; [|reflexivity]. cbn [ret].
  rewrite batch_loop_baseline by assumption. reflexivity.
Qed.

Lemma epochs_baseline rounds X y val ps n bs early inc : forall w : world,
  default_bounds w -> has_rows ps w ->
  epochs rounds X y val ps n bs early inc w None
  = baseline_epochs rounds X y val ps n bs early inc w None.
Proof.
  induction rounds as [|rounds IH]; intros w Hd Hr; [reflexivity|].
  cbn [epochs baseline_epochs]. unfold bind.
  rewrite <- epoch_baseline by assumption.
  pose proof (epoch_shaped update_keeps_shapes X y val ps n bs early inc w None) as Hs.
  pose proof (epoch_calm X y val ps n bs early inc w) as Hc.
  destruct (epoch X y val ps n bs early inc w None) as [broke w1 i1|e w1 i1];
    [|reflexivity].
  subst i1. destruct broke; [reflexivity|].
  apply IH; [eapply default_bounds_shaped; eauto|eapply has_rows_shaped; eauto].
Qed.

Lemma training_loop_baseline st inc (w : world) :
  default_bounds w -> has_rows (st_params st) w ->
  training_loop st inc w None = baseline_training_loop st inc w None.
Proof.
  intros Hd Hr. unfold training_loop, baseline_training_loop, run_epochs.
  unfold bind, get, try_except_KeyboardInterrupt.
  rewrite epochs_baseline by assumption.
  destruct (baseline_epochs _ _ _ _ _ _ _ _ _ w None) as [[] w1 i1|e w1 i1].
  - destruct (st_early_stopping st).
    + destruct (restore_best_weights w1 i1) as [[] w2 i2|]; reflexivity.
    + reflexivity.
  - destruct e; try reflexivity. cbn.
    destruct (st_early_stopping st).
    + destruct (restore_best_weights _ i1) as [[] w2 i2|]; reflexivity.
    + reflexivity.
Qed.

(** The baseline draws its validation split from [self._random_state],
    the loop of the class from NumPy's global generator: the two set-ups
    agree when no split is made, and when [self._random_state] is the
    global generator. *)
Lemma baseline_training_setup_eq X y inc (w : world) (i : option nat) :
  early_stopping (hp (self w)) && negb inc = false
  \/ _random_state (self w) = Some GlobalState ->
  baseline_training_setup X y inc w i = training_setup X y inc w i.
Proof.
  intros H. unfold baseline_training_setup, training_setup.
  unfold bind at 1 5. cbn [get]. unfold bind at 1 4.
  destruct (make_optimizer_Returns (coefs_ (self w) ++ intercepts_ (self w)) inc w i)
    as (w1 & Hm & _ & _ & _).
  assert (_random_state (self w1) = _random_state (self w)) as Hrs.
  { revert Hm. unfold make_optimizer, bind, get, modify, ret.
    destruct (negb inc || _); [destruct (solver _)|]; intros [= <-]; reflexivity. }
  rewrite Hm. unfold bind at 1 3.
  destruct (early_stopping (hp (self w)) && negb inc) eqn:He; [|reflexivity].
  destruct H as [H|H]; [discriminate|].
  unfold baseline_split_validation, split_validation, bind at 1 4. cbn [get].
  rewrite Hrs, H. cbn [generator_of advance]. reflexivity.
Qed.

Lemma fit_stochastic_baseline X y lu inc (w : world) :
  default_bounds w ->
  has_rows (coefs_ (self w) ++ intercepts_ (self w)) w ->
  early_stopping (hp (self w)) && negb inc = false
  \/ _random_state (self w) = Some GlobalState ->
  _fit_constrained_stochastic X y lu inc w None = _fit_stochastic X y lu inc w None.
Proof.
  intros Hd Hr He. unfold _fit_constrained_stochastic, _fit_stochastic, bind.
  rewrite baseline_training_setup_eq by exact He.
  pose proof (training_setup_calm X y inc w) as Hc.
  destruct (training_setup X y inc w None) as [st ws i1|e ws i1] eqn:Es; [|reflexivity].
  subst i1. apply training_setup_Returns in Es as (_ & Hk & Hh & Hps & _).
  assert (Hsh : shaped w ws).
  { constructor; [apply (kept_min _ _ Hk)|apply (kept_max _ _ Hk)|].
    exists []. rewrite app_nil_r, Hh. reflexivity. }
  apply training_loop_baseline.
  - eapply default_bounds_shaped; eauto.
  - rewrite Hps. eapply has_rows_shaped; eauto.
Qed.

End Baseline.

Lemma default_bounds_replicate (w : world) (n : nat) :
  min_coef_ (self w) = replicate n ninf ->
  max_coef_ (self w) = replicate n inf ->
  default_bounds w.
Proof.
  intros Hmin Hmax. unfold default_bounds. rewrite Hmin, Hmax.
  apply Forall_forall. intros [lo hi] Hb.
  apply list_elem_of_lookup in Hb as [k Hk].
  apply lookup_zip_with_Some in Hk as (a & b & Hab & Ha & Hb).
  apply lookup_replicate in Ha as [-> _]. apply lookup_replicate in Hb as [-> _].
  exact Hab.
Qed.

Lemma fit_unfold X y mn mx (w : world) (i : option nat) :
  fit X y mn mx w i
  = match set_coef_bounds X mn mx w i with
    | Returns _ w0 i0 =>
        match prepare X y false w0 i0 with
        | Returns (X', y', lu) wp ip =>
            match solver (hp (self wp)) with
            | lbfgs => Raises AssertionError_solver wp ip
            | _ =>
                match _fit_constrained_stochastic X' y' lu false wp ip with
                | Returns _ w1 i1 => validate_weights w1 i1
                | Raises e w1 i1 => Raises e w1 i1
                end
            end
        | Raises e wp ip => Raises e wp ip
        end
    | Raises e w0 i0 => Raises e w0 i0
    end.
Proof.
  unfold fit, _constrained_fit, train, bind, get.
  destruct (set_coef_bounds X mn mx w i) as [[] w0 i0|]; [|reflexivity].
  destruct (prepare X y false w0 i0) as [[[X' y'] lu] wp ip|]; [|reflexivity].
  destruct (solver (hp (self wp))); reflexivity.
Qed.

Lemma baseline_fit_unfold X y (w : world) (i : option nat) :
  baseline_fit X y w i
  = match prepare X y false w i with
    | Returns (X', y', lu) wp ip =>
        match solver (hp (self wp)) with
        | lbfgs =>
            match baseline_fit_lbfgs X' y' lu wp ip with
            | Returns _ w1 i1 => validate_weights w1 i1
            | Raises e w1 i1 => Raises e w1 i1
            end
        | _ =>
            match _fit_stochastic X' y' lu false wp ip with
            | Returns _ w1 i1 => validate_weights w1 i1
            | Raises e w1 i1 => Raises e w1 i1
            end
        end
    | Raises e wp ip => Raises e wp ip
    end.
Proof.
  unfold baseline_fit, bind, get.
  destruct (prepare X y false w i) as [[[X' y'] lu] wp ip|]; [|reflexivity].
  destruct (solver (hp (self wp))); reflexivity.
Qed.

(** What line 66 leaves in [self._random_state] when [random_state] is
    [None]: NumPy's global generator. *)
Lemma prepare_global_random_state X y inc (w wp : world) (i ip : option nat)
    (r : data * data * list Z) :
  random_state (hp (self w)) = None ->
  prepare X y inc w i = Returns r wp ip ->
  _random_state (self wp) = Some GlobalState.
Proof.
  intros Hrs. unfold prepare, bind, get, modify, ret, raise.
  destruct (_validate_hyperparameters _); [|discriminate].
  destruct (existsb _ _); [discriminate|].
  destruct (_validate_input _ _ _ _ _ _) as [[[X' y'] k]|]; [|discriminate].
  rewrite Hrs. cbn [check_random_state].
  destruct (negb _ || _).
  - cbn. destruct (_initialize _ _ _ _ _) as [[[cs ics] k'] g].
    intros [= _ <- _]. reflexivity.
  - intros [= _ <- _]. reflexivity.
Qed.


(** *** The order of the optimizer update and the clipping *)

(** The loop as the overview of the specification words it: the first
    layer's gradient values are overwritten (clipped) before the optimizer
    applies them. *)
Fixpoint batch_loop_clipping_gradients (X y : data) (params : list ref)
    (slices : list slice) (accumulated_loss : float64) : M float64 :=
  match slices with
  | [] => ret accumulated_loss
  | batch_slice :: rest =>
      tick ;;;
      w <- get ;;
      let '(batch_loss, coef_grads, intercept_grads) :=
        _backprop (hp (self w)) (priv (self w))
                  (load (heap w) (coefs_ (self w))) (load (heap w) (intercepts_ (self w)))
                  (getslice X batch_slice) (getslice y batch_slice) in
      let accumulated_loss :=
        add accumulated_loss
            (mul batch_loss (of_int (stop batch_slice - start batch_slice))) in
      match coef_grads with
      | g :: coef_grads' =>
          match clip_items g O (zip (min_coef_ (self w)) (max_coef_ (self w))) with
          | Some g' =>
              optimizer_update_params params ((g' :: coef_grads') ++ intercept_grads) ;;;
              batch_loop_clipping_gradients X y params rest accumulated_loss
          | None => raise IndexError
          end
      | [] => raise IndexError
      end
  end.

(** C3, as the code has it: in every mini-batch step the optimizer is
    handed the gradients just as back-propagation returned them, and the
    clipping then overwrites, in place, the items of the first weight array
    that the optimizer has just updated. *)
Theorem clipping_follows_the_optimizer_update (X y : data) (ps : list ref)
    (sl : slice) (rest : list slice) (acc : float64) (w : world) (o : Opt)
    (r : ref) (a a' : ndarray) :
  let bp := _backprop (hp (self w)) (priv (self w))
              (load (heap w) (coefs_ (self w))) (load (heap w) (intercepts_ (self w)))
              (getslice X sl) (getslice y sl) in
  let grads := snd (fst bp) ++ snd bp in
  let up := update_params o (load (heap w) ps) grads in
  let h1 := assign (heap w) ps (snd up) in
  _optimizer (self w) = Some o ->
  ps !! O = Some r ->
  h1 !! r = Some a ->
  clip_items a O (zip (min_coef_ (self w)) (max_coef_ (self w))) = Some a' ->
  batch_loop X y ps (sl :: rest) acc w None
  = batch_loop X y ps rest
      (add acc (mul (fst (fst bp)) (of_int (stop sl - start sl))))
      (with_heap (<[r := a']> h1) (with_self (set_optimizer (Some (fst up))) w))
      None.
Proof.
  intros bp grads up h1 Ho Hr Ha Hc. subst h1 up grads bp.
  cbn [batch_loop]. unfold bind at 1 2. cbn [tick get].
  destruct (_backprop _ _ _ _ _ _) as [[loss cg] ig]. cbn [fst snd] in *.
  unfold bind at 1. unfold optimizer_update_params at 1. unfold bind at 1, get at 1.
  rewrite Ho.
  destruct (update_params o (load (heap w) ps) (cg ++ ig)) as [o' vals]. cbn [fst snd] in *.
  unfold modify. unfold bind at 1.
  unfold _update_coef_using_constrain, bind at 1, get at 1.
  cbn [self heap with_heap with_self min_coef_ max_coef_ set_optimizer].
  erewrite clip_rows_quiet; [|exact Hr|exact Ha|exact Hc].
  reflexivity.
Qed.

(** *** The user's interruption *)

Lemma verify_coef_catches fc coef value : catches (_verify_coef fc coef value).
Proof. unfold _verify_coef. repeat catches_step. Qed.

Lemma set_coef_bounds_catches X mn mx : catches (set_coef_bounds X mn mx).
Proof. unfold set_coef_bounds. repeat catches_step; apply verify_coef_catches. Qed.

Lemma prepare_catches X y inc : catches (prepare X y inc).
Proof. unfold prepare. repeat catches_step. Qed.

Lemma training_setup_catches X y inc : catches (training_setup X y inc).
Proof.
  unfold training_setup, make_optimizer, split_validation, resolve_batch_size.
  repeat catches_step.
Qed.

Lemma restore_best_weights_catches : catches restore_best_weights.
Proof. unfold restore_best_weights. repeat catches_step. Qed.

Lemma training_loop_catches st inc : catches (training_loop st inc).
Proof.
  unfold training_loop, _after_training.
  repeat catches_step. apply restore_best_weights_catches.
Qed.

Lemma validate_weights_catches : catches validate_weights.
Proof. unfold validate_weights. repeat catches_step. Qed.

Lemma fit_catches X y mn mx : catches (fit X y mn mx).
Proof.
  unfold fit, _constrained_fit, train, _fit_constrained_stochastic.
  repeat catches_step;
    auto using set_coef_bounds_catches, prepare_catches, training_setup_catches,
               training_loop_catches, validate_weights_catches.
Qed.


(** *** Counting the epochs *)

(** The iteration counter and the warnings are left alone. *)
Record still (w w' : world) : Prop := Still {
  still_n_iter : n_iter_ (self w') = n_iter_ (self w);
  still_warned : warned w' = warned w
}.

Local Instance still_preorder : PreOrder still.
Proof.
  split.
  - intros w. constructor; auto.
  - intros w1 w2 w3 [] []. constructor; congruence.
Qed.

Ltac still_leaf :=
  lazymatch goal with
  | |- PreOrder _ => typeclasses eauto
  | |- still _ _ => constructor; cbn; reflexivity
  end.

Lemma optimizer_update_params_still ps gs : preserves still (optimizer_update_params ps gs).
Proof.
  intros w i. unfold optimizer_update_params, bind, get, modify.
  destruct (_optimizer (self w)) as [o|]; [|cbn; reflexivity].
  destruct (update_params _ _ _) as [o' vals]. constructor; reflexivity.
Qed.

Lemma clip_row_still ps idx lo hi : preserves still (clip_row ps idx lo hi).
Proof.
  intros w i. rewrite clip_row_eq.
  destruct (ps !! O) as [r|]; [|cbn; reflexivity].
  destruct (heap w !! r) as [a|]; [|cbn; reflexivity].
  destruct (clip_item a idx lo hi); [|cbn; reflexivity]. constructor; reflexivity.
Qed.

Lemma clip_rows_still bounds : forall ps idx, preserves still (clip_rows ps idx bounds).
Proof.
  induction bounds as [|[lo hi] rest IH]; intros ps idx; cbn [clip_rows].
  - pres_step.
  - repeat pres_step; auto using clip_row_still.
Qed.

Lemma update_coef_still ps : preserves still (_update_coef_using_constrain ps).
Proof. unfold _update_coef_using_constrain. pres_step. apply clip_rows_still. Qed.

Lemma batch_loop_still X y ps slices : forall acc,
  preserves still (batch_loop X y ps slices acc).
Proof.
  induction slices as [|sl rest IH]; intros acc; cbn [batch_loop].
  - pres_step.
  - pres_step; [pres_step|]. pres_step.
    destruct (_backprop _ _ _ _ _ _) as [[loss cg] ig].
    pres_step; [apply optimizer_update_params_still|].
    pres_step; [apply update_coef_still|]. apply IH.
Qed.

Lemma epoch_batches_still X y ps n bs : preserves still (epoch_batches X y ps n bs).
Proof.
  unfold epoch_batches. pres_step; [|apply batch_loop_still].
  destruct (gen_batches n bs); pres_step.
Qed.

Lemma update_no_improvement_count_still early val :
  preserves still (_update_no_improvement_count early val).
Proof.
  intros w i. unfold _update_no_improvement_count, bind, get, modify.
  destruct (no_improvement_rule _ _ _ _ _ _ _ _) as [[count best] k].
  destruct best; constructor; reflexivity.
Qed.

Lemma optimizer_iteration_ends_still : preserves still optimizer_iteration_ends.
Proof. unfold optimizer_iteration_ends. repeat pres_step; still_leaf. Qed.

Lemma optimizer_trigger_stopping_still : preserves still optimizer_trigger_stopping.
Proof. unfold optimizer_trigger_stopping. repeat pres_step; still_leaf. Qed.

Lemma check_no_improvement_still : preserves still check_no_improvement.
Proof.
  unfold check_no_improvement.
  repeat pres_step; auto using optimizer_trigger_stopping_still; still_leaf.
Qed.

Lemma tick_Returns (w w' : world) (i i' : option nat) :
  tick w i = Returns tt w' i' -> w' = w.
Proof. unfold tick. destruct i as [[|n]|]; congruence. Qed.

(** The book-keeping of a completed epoch counts it. *)
Lemma epoch_bookkeeping_Returns X val n early acc (w w' : world) (i i' : option nat) :
  epoch_bookkeeping X val n early acc w i = Returns tt w' i' ->
  n_iter_ (self w') = n_iter_ (self w) + 1 /\ warned w' = warned w.
Proof.
  unfold epoch_bookkeeping. intros H.
  apply bind_Returns in H as ([] & w1 & i1 & Ht & H). apply tick_Returns in Ht as ->.
  apply bind_Returns in H as ([] & w2 & i2 & Hm & H).
  cbn in Hm. injection Hm as <- <-.
  apply bind_Returns in H as ([] & w3 & i3 & Ht & H). apply tick_Returns in Ht as ->.
  apply bind_Returns in H as ([] & w4 & i4 & Hm & H).
  cbn in Hm. injection Hm as <- <-.
  apply bind_Returns in H as ([] & w5 & i5 & Ht & H). apply tick_Returns in Ht as ->.
  apply bind_Returns in H as ([] & w6 & i6 & Hm & H).
  cbn in Hm. injection Hm as <- <-.
  apply bind_Returns in H as ([] & w7 & i7 & Ht & H). apply tick_Returns in Ht as ->.
  apply bind_Returns in H as ([] & w8 & i8 & Hm & H).
  cbn in Hm. injection Hm as <- <-.
  apply bind_Returns in H as ([] & w9 & i9 & Ht & H). apply tick_Returns in Ht as ->.
  apply bind_Returns in H as ([] & w10 & i10 & Hu & H).
  match type of Hu with
  | _ ?w0 ?i0 = _ =>
      pose proof (update_no_improvement_count_still early val w0 i0) as Hs1
  end.
  rewrite Hu in Hs1.
  apply bind_Returns in H as ([] & w11 & i11 & Ht & H). apply tick_Returns in Ht as ->.
  pose proof (optimizer_iteration_ends_still w10 i11) as Hs2. rewrite H in Hs2.
  destruct Hs1 as [Hn1 Hw1], Hs2 as [Hn2 Hw2]. cbn in Hn1, Hw1.
  split; congruence.
Qed.

(** How far a computation can advance the iteration counter, whatever its
    outcome. *)
Definition bumps (k : Z) {A} (m : M A) : Prop :=
  forall w i, match m w i with
              | Returns _ w' _ => n_iter_ (self w) <= n_iter_ (self w') <= n_iter_ (self w) + k
              | Raises _ w' _ => n_iter_ (self w) <= n_iter_ (self w') <= n_iter_ (self w) + k
              end.

Lemma bumps_still {A} (m : M A) : preserves still m -> bumps 0 m.
Proof.
  intros H w i. specialize (H w i). destruct (m w i) as [a w' i'|e w' i'];
    destruct H as [Hn _]; lia.
Qed.

Lemma bumps_bind {A B} (a b : Z) (m : M A) (k : A -> M B) :
  bumps a m -> (forall x, bumps b (k x)) -> 0 <= b -> bumps (a + b) (bind m k).
Proof.
  intros Hm Hk Hb w i. unfold bind. specialize (Hm w i).
  destruct (m w i) as [x w1 i1|e w1 i1]; [|lia].
  specialize (Hk x w1 i1). destruct (k x w1 i1); lia.
Qed.

Lemma bumps_weaken {A} (a b : Z) (m : M A) : a <= b -> bumps a m -> bumps b m.
Proof. intros Hab H w i. specialize (H w i). destruct (m w i); lia. Qed.

Lemma epoch_bookkeeping_bumps X val n early acc :
  bumps 1 (epoch_bookkeeping X val n early acc).
Proof.
  unfold epoch_bookkeeping.
  apply (bumps_bind 0 1); [apply bumps_still; pres_step| |lia]. intros _.
  apply (bumps_bind 1 0); [|intros _|lia].
  - intros w i. cbn. lia.
  - apply bumps_still.
    repeat pres_step;
      auto using update_no_improvement_count_still, optimizer_iteration_ends_still;
      still_leaf.
Qed.

Lemma epoch_tail_bumps (stopped : bool) :
  bumps 0
    (if stopped then ret true
     else if false then ret true
     else
       w <- get ;;
       (if n_iter_ (self w) =? max_iter (hp (self w)) then
          tick ;;; warn (MaxIterReached (max_iter (hp (self w))))
        else ret tt) ;;;
       ret false).
Proof.
  intros w i. destruct stopped; cbn; [lia|]. unfold bind, get.
  destruct (n_iter_ (self w) =? max_iter (hp (self w))); cbn; [|lia].
  unfold tick. destruct i as [[|n]|]; cbn; lia.
Qed.

Lemma epoch_bumps X y val ps n bs early :
  bumps 1 (epoch X y val ps n bs early false).
Proof.
  unfold epoch, epoch_train.
  apply (bumps_bind 1 0); [|intros _|lia].
  - apply (bumps_bind 0 1); [apply bumps_still, epoch_batches_still| |lia].
    intros acc. apply epoch_bookkeeping_bumps.
  - apply (bumps_bind 0 0); [apply bumps_still, check_no_improvement_still| |lia].
    intros stopped. apply epoch_tail_bumps.
Qed.

Lemma epochs_bumps rounds X y val ps n bs early :
  bumps (Z.of_nat rounds) (epochs rounds X y val ps n bs early false).
Proof.
  induction rounds as [|rounds IH]; cbn [epochs].
  - intros w i. cbn. lia.
  - replace (Z.of_nat (S rounds)) with (1 + Z.of_nat rounds) by lia.
    apply bumps_bind; [apply epoch_bumps| |lia].
    intros broke. destruct broke; [|exact IH].
    intros w i. cbn. lia.
Qed.

Lemma check_no_improvement_Returns (w w' : world) (i i' : option nat) (b : bool) :
  check_no_improvement w i = Returns b w' i' ->
  if b then _no_improvement_count (self w') > n_iter_no_change (hp (self w))
  else _no_improvement_count (self w') <= n_iter_no_change (hp (self w)) \/
       _no_improvement_count (self w') = 0.
Proof.
  unfold check_no_improvement, bind, get.
  destruct (_no_improvement_count (self w) >? n_iter_no_change (hp (self w))) eqn:E.
  - destruct (tick w i) as [[] w1 i1|] eqn:Et; [|discriminate].
    apply tick_Returns in Et as ->.
    unfold optimizer_trigger_stopping, bind, get.
    destruct (_optimizer (self w)) as [o|]; [|discriminate].
    destruct (trigger_stopping o) as [[|] o']; cbn.
    + intros [= <- <- <-]. cbn. apply Z.gtb_lt in E. lia.
    + destruct (tick _ i1) as [[] w2 i2|] eqn:Et2; [|discriminate].
      apply tick_Returns in Et2 as ->. cbn. intros [= <- <- <-]. cbn. right. reflexivity.
  - intros [= <- <- <-]. rewrite Z.gtb_ltb in E. apply Z.ltb_ge in E. left. exact E.
Qed.

(** A completed epoch (in [fit], where [incremental] is false). *)
Lemma epoch_Returns_counts X y val ps n bs early (w w' : world) (i i' : option nat)
    (b : bool) :
  epoch X y val ps n bs early false w i = Returns b w' i' ->
  n_iter_ (self w') = n_iter_ (self w) + 1 /\
  hp (self w') = hp (self w) /\
  (if b then _no_improvement_count (self w') > n_iter_no_change (hp (self w))
   else _no_improvement_count (self w') <= n_iter_no_change (hp (self w)) \/
        _no_improvement_count (self w') = 0) /\
  warned w'
  = warned w ++ (if negb b && (n_iter_ (self w') =? max_iter (hp (self w)))
                 then [MaxIterReached (max_iter (hp (self w)))] else []).
Proof.
  intros H.
  pose proof (epoch_kept X y val ps n bs early false w i) as Hk. rewrite H in Hk.
  split; [|split; [apply (kept_hp _ _ Hk)|]]; revert H; unfold epoch; intros H;
    apply bind_Returns in H as ([] & w1 & i1 & Ht & H);
    pose proof (epoch_train_kept X y val ps n bs early w i) as Hk1; rewrite Ht in Hk1;
    unfold epoch_train in Ht;
    apply bind_Returns in Ht as (acc & w0 & i0 & Hb & Ht);
    pose proof (epoch_batches_still X y ps n bs w i) as Hs0; rewrite Hb in Hs0;
    apply epoch_bookkeeping_Returns in Ht as [Hn1 Hw1];
    apply bind_Returns in H as (stopped & w2 & i2 & Hc & H);
    pose proof (check_no_improvement_still w1 i1) as Hs2; rewrite Hc in Hs2;
    pose proof (check_no_improvement_bookkept w1 i1) as Hk2; rewrite Hc in Hk2;
    apply check_no_improvement_Returns in Hc;
    rewrite (kept_hp _ _ Hk1) in Hc;
    destruct Hs0 as [Hn0 Hw0], Hs2 as [Hn2 Hw2], Hk2 as [Hk2 _];
    pose proof (kept_hp _ _ Hk2) as Hhp2; pose proof (kept_hp _ _ Hk1) as Hhp1.
  - destruct stopped.
    + cbn in H. injection H as <- <- <-. lia.
    + unfold bind, get in H.
      destruct (n_iter_ (self w2) =? max_iter (hp (self w2))).
      * unfold bind in H. destruct (tick w2 i2) as [[] w3 i3|] eqn:Et; [|discriminate].
        apply tick_Returns in Et as ->. cbn in H. injection H as <- <- <-. cbn. lia.
      * cbn in H. injection H as <- <- <-. lia.
  - destruct stopped.
    + cbn in H. injection H as <- <- <-. split; [exact Hc|].
      cbn. rewrite app_nil_r. congruence.
    + unfold bind, get in H. rewrite Hhp2, Hhp1 in H.
      destruct (n_iter_ (self w2) =? max_iter (hp (self w))) eqn:E.
      * unfold bind in H. destruct (tick w2 i2) as [[] w3 i3|] eqn:Et; [|discriminate].
        apply tick_Returns in Et as ->. cbn in H. injection H as <- <- <-.
        cbn. rewrite E. split; [exact Hc|]. congruence.
      * cbn in H. injection H as <- <- <-. cbn. rewrite E.
        split; [exact Hc|]. rewrite app_nil_r. congruence.
Qed.

(** A completed loop that did not end in [break] ran all its rounds, and
    warned at the end of the last one if that one reached [max_iter]. *)
Lemma epochs_Returns_counts rounds X y val ps n bs early :
  forall (w w' : world) (i i' : option nat),
  epochs rounds X y val ps n bs early false w i = Returns tt w' i' ->
  hp (self w') = hp (self w) /\
  ((0 < rounds)%nat ->
   _no_improvement_count (self w') <= n_iter_no_change (hp (self w)) ->
   n_iter_ (self w') = n_iter_ (self w) + Z.of_nat rounds /\
   (n_iter_ (self w') = max_iter (hp (self w)) ->
    last (warned w') = Some (MaxIterReached (max_iter (hp (self w)))))).
Proof.
  induction rounds as [|rounds IH]; intros w w' i i' H.
  - cbn in H. injection H as <- <-. split; [reflexivity|]. lia.
  - cbn [epochs] in H. apply bind_Returns in H as (broke & w1 & i1 & He & H).
    apply epoch_Returns_counts in He as (Hn1 & Hhp1 & Hc1 & Hw1).
    destruct broke.
    + cbn in H. injection H as <- <-. split; [exact Hhp1|]. intros _ Hc. lia.
    + destruct rounds as [|rounds].
      * cbn in H. injection H as <- <-. split; [exact Hhp1|]. intros _ Hc.
        split; [lia|]. intros Hm. rewrite Hw1. cbn.
        apply Z.eqb_eq in Hm. rewrite Hm. apply last_snoc.
      * apply IH in H.
        destruct H as [Hhp H]. rewrite Hhp1 in *. split; [exact Hhp|].
        intros _ Hc. destruct (H ltac:(lia) Hc) as [Hn Hl]. split; [lia|exact Hl].
Qed.

(** *** Runs that raise nothing but the interruption *)

(** The loop can run: an optimizer is set and the first array of [params]
    has an item for every pair of bounds. *)
Definition sound (ps : list ref) (w : world) : Prop :=
  is_Some (_optimizer (self w)) /\ has_rows ps w.

Lemma sound_settled ps w w' : kept w w' -> shaped w w' -> sound ps w -> sound ps w'.
Proof.
  intros Hk Hs [Ho Hr]. split; [apply (kept_optimizer _ _ Hk), Ho|].
  eapply has_rows_shaped; eauto.
Qed.

(** [safe P m]: from a world satisfying [P], the computation [m] raises
    nothing but the user's interruption, and [P] holds when it is over. *)
Definition safe (P : world -> Prop) {A} (m : M A) : Prop :=
  forall w i, P w ->
    match m w i with
    | Returns _ w' _ => P w'
    | Raises e w' _ => e = KeyboardInterrupt /\ P w'
    end.

Lemma safe_ret P {A} (a : A) : safe P (ret a).
Proof. intros w i HP. exact HP. Qed.

Lemma safe_tick P : safe P tick.
Proof. intros w i HP. unfold tick. destruct i as [[|n]|]; auto. Qed.

Lemma safe_modify (P : world -> Prop) f : (forall w, P w -> P (f w)) -> safe P (modify f).
Proof. intros H w i HP. cbn. auto. Qed.

Lemma safe_bind P {A B} (m : M A) (k : A -> M B) :
  safe P m -> (forall a, safe P (k a)) -> safe P (bind m k).
Proof.
  intros Hm Hk w i HP. unfold bind. specialize (Hm w i HP).
  destruct (m w i) as [a w1 i1|e w1 i1]; [|exact Hm]. apply Hk, Hm.
Qed.

Lemma safe_get P {B} (k : world -> M B) :
  (forall w0, safe P (k w0)) -> safe P (bind get k).
Proof. intros H w i HP. unfold bind, get. apply H, HP. Qed.

Ltac safe_step :=
  lazymatch goal with
  | |- safe _ (bind get _) => refine (@safe_get _ _ _ (fun _ => _))
  | |- safe _ (bind _ _) => refine (@safe_bind _ _ _ _ _ _ (fun _ => _))
  | |- safe _ (ret _) => apply safe_ret
  | |- safe _ tick => apply safe_tick
  | |- safe _ (if ?b then _ else _) => destruct b
  end.

Section Safety.

Hypothesis update_keeps_shapes : keeps_shapes.

Variable ps : list ref.

Lemma safe_settled {A} (m : M A) :
  (forall w i e w' i', sound ps w -> m w i = Raises e w' i' -> e = KeyboardInterrupt) ->
  preserves kept m -> preserves shaped m -> safe (sound ps) m.
Proof.
  intros Hr Hk Hs w i HP. specialize (Hk w i). specialize (Hs w i).
  destruct (m w i) as [a w' i'|e w' i'] eqn:E.
  - eapply sound_settled; eauto.
  - split; [eapply Hr; eauto|eapply sound_settled; eauto].
Qed.

Lemma optimizer_update_params_safe gs : safe (sound ps) (optimizer_update_params ps gs).
Proof.
  apply safe_settled;
    [|apply optimizer_update_params_kept
     |apply optimizer_update_params_shaped, update_keeps_shapes].
  intros w i e w' i' [[o Ho] _]. unfold optimizer_update_params, bind, get. rewrite Ho.
  destruct (update_params _ _ _). discriminate.
Qed.

Lemma clip_rows_raises bounds : forall (idx : nat) (w : world) (i : option nat) r a e w' i',
  ps !! O = Some r -> heap w !! r = Some a ->
  (idx + length bounds <= len a)%nat ->
  clip_rows ps idx bounds w i = Raises e w' i' -> e = KeyboardInterrupt.
Proof.
  induction bounds as [|[lo hi] rest IH]; intros idx w i r a e w' i' Hr Ha Hl;
    cbn [clip_rows]; [discriminate|].
  unfold bind at 1. destruct (tick w i) as [[] w1 i1|e1 w1 i1] eqn:Et.
  - apply tick_Returns in Et as ->. unfold bind. rewrite clip_row_eq, Hr, Ha.
    destruct (clip_item_is_Some a idx lo hi) as [a1 Ea1]; [cbn in Hl; lia|].
    rewrite Ea1. eapply IH; [exact Hr| |].
    + cbn. apply list_lookup_insert_eq. eapply lookup_lt_Some, Ha.
    + rewrite (clip_item_len _ _ _ _ _ Ea1). cbn in Hl. lia.
  - unfold tick in Et. destruct i as [[|k]|]; try discriminate.
    injection Et as <- <- <-. intros [= <- _ _]. reflexivity.
Qed.

Lemma update_coef_safe : safe (sound ps) (_update_coef_using_constrain ps).
Proof.
  apply safe_settled;
    [|apply update_coef_kept|apply update_coef_shaped].
  intros w i e w' i' [_ (r & n & Hr & Hn & Hc)].
  unfold _update_coef_using_constrain, bind, get.
  rewrite list_lookup_fmap in Hn.
  destruct (heap w !! r) as [a|] eqn:Ea; [|discriminate]. cbn in Hn. injection Hn as <-.
  eapply clip_rows_raises; eauto.
Qed.

Lemma batch_loop_safe X y slices : forall acc, safe (sound ps) (batch_loop X y ps slices acc).
Proof.
  induction slices as [|sl rest IH]; intros acc; cbn [batch_loop].
  - safe_step.
  - safe_step; [safe_step|]. safe_step.
    destruct (_backprop _ _ _ _ _ _) as [[loss cg] ig].
    safe_step; [apply optimizer_update_params_safe|].
    safe_step; [apply update_coef_safe|]. apply IH.
Qed.

Lemma epoch_batches_safe X y n bs :
  is_Some (gen_batches n bs) -> safe (sound ps) (epoch_batches X y ps n bs).
Proof.
  intros [slices Hs]. unfold epoch_batches. rewrite Hs.
  safe_step; [safe_step|]. apply batch_loop_safe.
Qed.

Lemma update_no_improvement_count_safe early val :
  safe (sound ps) (_update_no_improvement_count early val).
Proof.
  apply safe_settled.
  - intros w i e w' i' _. unfold _update_no_improvement_count, bind, get, modify.
    destruct (no_improvement_rule _ _ _ _ _ _ _ _) as [[count best] k].
    destruct best; discriminate.
  - apply bookkept_kept, update_no_improvement_count_bookkept.
  - eapply preserves_weaken; [apply bookkept_shaped|].
    apply update_no_improvement_count_bookkept.
Qed.

Lemma optimizer_iteration_ends_safe : safe (sound ps) optimizer_iteration_ends.
Proof.
  apply safe_settled.
  - intros w i e w' i' [[o Ho] _]. unfold optimizer_iteration_ends, bind, get.
    rewrite Ho. discriminate.
  - apply bookkept_kept, optimizer_iteration_ends_bookkept.
  - eapply preserves_weaken; [apply bookkept_shaped|].
    apply optimizer_iteration_ends_bookkept.
Qed.

Lemma check_no_improvement_safe : safe (sound ps) check_no_improvement.
Proof.
  apply safe_settled.
  - intros w i e w' i' [[o Ho] _]. unfold check_no_improvement, bind, get.
    destruct (_ >? _); [|discriminate].
    destruct (tick w i) as [[] w1 i1|e1 w1 i1] eqn:Et.
    + apply tick_Returns in Et as ->.
      unfold optimizer_trigger_stopping, bind, get. rewrite Ho.
      destruct (trigger_stopping o) as [[|] o']; cbn; [discriminate|].
      destruct (tick _ i1) as [[] w2 i2|e2 w2 i2] eqn:Et2; [discriminate|].
      unfold tick in Et2. destruct i1 as [[|k]|]; try discriminate.
      injection Et2 as <- <- <-. intros [= <- _ _]. reflexivity.
    + unfold tick in Et. destruct i as [[|k]|]; try discriminate.
      injection Et as <- <- <-. intros [= <- _ _]. reflexivity.
  - apply bookkept_kept, check_no_improvement_bookkept.
  - eapply preserves_weaken; [apply bookkept_shaped|].
    apply check_no_improvement_bookkept.
Qed.

Lemma sound_self_update (f : estimator -> estimator) (w : world) :
  _optimizer (f (self w)) = _optimizer (self w) ->
  min_coef_ (f (self w)) = min_coef_ (self w) ->
  max_coef_ (f (self w)) = max_coef_ (self w) ->
  sound ps w -> sound ps (with_self f w).
Proof.
  intros Ho Hmin Hmax [H1 (r & n & Hr & Hn & Hc)]. split.
  - cbn. rewrite Ho. exact H1.
  - exists r, n. repeat split; auto. unfold bound_count in *. cbn.
    rewrite Hmin, Hmax. exact Hc.
Qed.

Lemma epoch_bookkeeping_safe X val n early acc :
  safe (sound ps) (epoch_bookkeeping X val n early acc).
Proof.
  unfold epoch_bookkeeping.
  repeat (safe_step;
          [first [apply safe_tick
                 |apply safe_modify; intros w Hw; apply sound_self_update; auto]|]).
  safe_step; [apply update_no_improvement_count_safe|].
  safe_step; [apply safe_tick|]. apply optimizer_iteration_ends_safe.
Qed.

Lemma epoch_safe X y val n bs early inc :
  is_Some (gen_batches n bs) -> safe (sound ps) (epoch X y val ps n bs early inc).
Proof.
  intros Hg. unfold epoch, epoch_train.
  safe_step; [safe_step; [apply epoch_batches_safe, Hg|apply epoch_bookkeeping_safe]|].
  safe_step; [apply check_no_improvement_safe|].
  repeat safe_step.
  apply safe_modify. intros w0 [Ho Hr]. split; [exact Ho|exact Hr].
Qed.

Lemma epochs_safe rounds X y val n bs early inc :
  is_Some (gen_batches n bs) ->
  safe (sound ps) (epochs rounds X y val ps n bs early inc).
Proof.
  intros Hg. induction rounds as [|rounds IH]; cbn [epochs].
  - safe_step.
  - safe_step; [apply epoch_safe, Hg|]. safe_step; [safe_step|exact IH].
Qed.

End Safety.

(** *** Termination of the training loop *)

Lemma training_setup_no_early X y (w : world) (i : option nat) :
  early_stopping (hp (self w)) = false ->
  exists st ws,
    training_setup X y false w i = Returns st ws i /\
    n_iter_ (self ws) = n_iter_ (self w).
Proof.
  intros He. unfold training_setup. unfold bind at 1. unfold get at 1.
  unfold bind at 1. unfold make_optimizer, bind at 1, get at 1. rewrite He. cbn [negb orb andb].
  assert (Hm : exists w1,
    (match solver (hp (self w)) with
     | sgd => modify (with_self (set_optimizer
                (Some (SGDOptimizer (load (heap w) (coefs_ (self w) ++ intercepts_ (self w)))
                                    (other (hp (self w)))))))
     | adam => modify (with_self (set_optimizer
                (Some (AdamOptimizer (load (heap w) (coefs_ (self w) ++ intercepts_ (self w)))
                                     (other (hp (self w)))))))
     | lbfgs => ret tt
     end) w i = Returns tt w1 i /\
    n_iter_ (self w1) = n_iter_ (self w) /\ hp (self w1) = hp (self w)).
  { destruct (solver (hp (self w))); eexists; (split; [reflexivity|]); auto. }
  destruct Hm as (w1 & -> & Hn & Hhp).
  unfold split_validation. cbn [ret]. unfold bind at 1. cbn [ret].
  unfold resolve_batch_size, bind, get. rewrite Hhp.
  destruct (batch_size (hp (self w))) as [|b]; cbn.
  - eauto.
  - destruct ((b <? 1) || _); cbn; eauto.
Qed.

Lemma run_epochs_bumps st (w : world) (i : option nat) :
  match run_epochs st false w i with
  | Returns _ w' _ =>
      n_iter_ (self w) <= n_iter_ (self w')
      <= n_iter_ (self w) + Z.max 0 (max_iter (hp (self w)))
  | Raises _ w' _ =>
      n_iter_ (self w) <= n_iter_ (self w')
      <= n_iter_ (self w) + Z.max 0 (max_iter (hp (self w)))
  end.
Proof.
  unfold run_epochs, bind, get.
  pose proof (epochs_bumps (Z.to_nat (max_iter (hp (self w)))) (st_X st) (st_y st)
                (st_val st) (st_params st) (st_n_samples st) (st_batch_size st)
                (st_early_stopping st) w i) as H.
  destruct (epochs _ _ _ _ _ _ _ _ _ w i); lia.
Qed.

(** The iteration counter is left alone. *)
Definition same_n_iter (w w' : world) : Prop := n_iter_ (self w') = n_iter_ (self w).

Local Instance same_n_iter_preorder : PreOrder same_n_iter.
Proof.
  split.
  - intros w. reflexivity.
  - intros w1 w2 w3 H1 H2. unfold same_n_iter in *. congruence.
Qed.

Lemma bumps_same_n_iter {A} (m : M A) : preserves same_n_iter m -> bumps 0 m.
Proof.
  intros H w i. specialize (H w i). unfold same_n_iter in H.
  destruct (m w i); lia.
Qed.

Ltac same_leaf :=
  lazymatch goal with
  | |- PreOrder _ => typeclasses eauto
  | |- same_n_iter _ _ => reflexivity
  end.

Lemma training_setup_bumps X y inc : bumps 0 (training_setup X y inc).
Proof.
  apply bumps_same_n_iter.
  unfold training_setup, make_optimizer, split_validation, resolve_batch_size.
  repeat pres_step; same_leaf.
Qed.

Lemma restore_best_weights_bumps : bumps 0 restore_best_weights.
Proof.
  apply bumps_same_n_iter. unfold restore_best_weights.
  repeat pres_step; same_leaf.
Qed.

(** Whatever happens (interruption, early stopping, an exception), the
    iteration counter advances by at most [max_iter]. *)
Lemma fit_constrained_stochastic_bumps X y lu (w : world) (i : option nat) :
  match _fit_constrained_stochastic X y lu false w i with
  | Returns _ w' _ =>
      n_iter_ (self w) <= n_iter_ (self w')
      <= n_iter_ (self w) + Z.max 0 (max_iter (hp (self w)))
  | Raises _ w' _ =>
      n_iter_ (self w) <= n_iter_ (self w')
      <= n_iter_ (self w) + Z.max 0 (max_iter (hp (self w)))
  end.
Proof.
  unfold _fit_constrained_stochastic, bind.
  pose proof (training_setup_bumps X y false w i) as Hs.
  destruct (training_setup X y false w i) as [st ws i1|e ws i1] eqn:Est; [|lia].
  apply training_setup_Returns in Est as (_ & Hk & _).
  pose proof (kept_hp _ _ Hk) as Hh.
  unfold training_loop, bind, try_except_KeyboardInterrupt, _after_training.
  pose proof (run_epochs_bumps st ws i1) as Hb. rewrite Hh in Hb.
  destruct (run_epochs st false ws i1) as [[] w1 i2|e w1 i2].
  - destruct (st_early_stopping st); [|cbn; lia].
    pose proof (restore_best_weights_bumps w1 i2) as Hr.
    destruct (restore_best_weights w1 i2); cbn; lia.
  - destruct e; try lia. cbn [warn modify].
    destruct (st_early_stopping st); [|cbn; lia].
    pose proof (restore_best_weights_bumps
                  (with_warned (warned w1 ++ [TrainingInterrupted]) w1) i2) as Hr.
    destruct (restore_best_weights _ i2); cbn in *; lia.
Qed.

Section Termination.

Hypothesis update_keeps_shapes : keeps_shapes.

(** The loop of lines 171-252 on a world it can run in, interrupted or
    not. *)
Lemma training_loop_returns st (w : world) (i : option nat) :
  st_early_stopping st = false ->
  sound (st_params st) w ->
  is_Some (gen_batches (st_n_samples st) (st_batch_size st)) ->
  exists w' i',
    training_loop st false w i = Returns tt w' i' /\
    n_iter_ (self w) <= n_iter_ (self w')
    <= n_iter_ (self w) + Z.max 0 (max_iter (hp (self w))).
Proof.
  intros He Hs Hg. unfold training_loop, bind, try_except_KeyboardInterrupt. rewrite He.
  pose proof (run_epochs_bumps st w i) as Hb.
  assert (Hsafe : safe (sound (st_params st)) (run_epochs st false)).
  { unfold run_epochs. refine (@safe_get _ _ _ (fun _ => _)).
    apply epochs_safe; assumption. }
  specialize (Hsafe w i Hs).
  destruct (run_epochs st false w i) as [[] w1 i1|e w1 i1].
  - cbn. eauto.
  - destruct Hsafe as [-> _]. cbn. eauto.
Qed.

(** The same loop when the user does not interrupt it. *)
Lemma training_loop_quiet st (w : world) :
  st_early_stopping st = false ->
  sound (st_params st) w ->
  is_Some (gen_batches (st_n_samples st) (st_batch_size st)) ->
  exists w',
    training_loop st false w None = Returns tt w' None /\
    (1 <= max_iter (hp (self w)) ->
     _no_improvement_count (self w') <= n_iter_no_change (hp (self w)) ->
     n_iter_ (self w') = n_iter_ (self w) + max_iter (hp (self w)) /\
     (n_iter_ (self w) = 0 ->
      last (warned w') = Some (MaxIterReached (max_iter (hp (self w)))))).
Proof.
  intros He Hs Hg.
  destruct (training_loop_returns st w None He Hs Hg) as (w' & i' & Hl & _).
  pose proof (training_loop_no_early st false w w' i' He Hl) as [Hr ->].
  exists w'. split; [exact Hl|]. intros Hm Hc.
  unfold run_epochs, bind, get in Hr.
  apply epochs_Returns_counts in Hr as [_ Hr].
  destruct (Hr ltac:(lia) Hc) as [Hn Hw].
  rewrite Z2Nat.id in Hn by lia. split; [exact Hn|].
  intros H0. apply Hw. lia.
Qed.


End Termination.

(** ** Further properties of the clipping step *)

Lemma lt_irrefl (x : float64) : lt x x = false.
Proof.
  unfold lt, SFltb. destruct (isnan x) eqn:E.
  - destruct x; try discriminate. reflexivity.
  - rewrite (SFcompare_refl x E). reflexivity.
Qed.

Lemma lt_not_nan_l (a b : float64) : lt a b = true -> isnan a = false.
Proof. intros H. apply lt_le in H. eapply le_not_nan_l, H. Qed.

(** [numpy.clip] with scalar bounds is idempotent, whatever the bounds. *)
Lemma clip_idempotent (x lo hi : float64) :
  clip (clip x lo hi) lo hi = clip x lo hi.
Proof.
  pose proof (lt_irrefl lo) as Hlo. pose proof (lt_irrefl hi) as Hhi.
  unfold clip, npy_min, npy_max, gt, lt in *.
  repeat
    (match goal with
     | |- context [if isnan ?v then _ else _] =>
         is_var v; let E := fresh "E" in destruct (isnan v) eqn:E
     | |- context [if SFltb ?a ?b then _ else _] =>
         is_var a; is_var b; let E := fresh "E" in destruct (SFltb a b) eqn:E
     end; try reflexivity; try congruence).
  destruct lo; discriminate.
Qed.

(** A value strictly between the bounds is left exactly as it is. *)
Lemma clip_strictly_inside (x lo hi : float64) :
  lt lo x = true -> lt x hi = true -> clip x lo hi = x.
Proof.
  intros H1 H2. pose proof (lt_not_nan_l _ _ H2) as Hx.
  unfold clip, npy_min, npy_max, gt, lt in *.
  rewrite Hx, H1, Hx, H2. reflexivity.
Qed.

Lemma item_is_Some (a : ndarray) (i : nat) : (i < len a)%nat -> is_Some (item a i).
Proof.
  destruct a as [v|rows]; simpl; intros Hi.
  - destruct (lookup_lt_is_Some_2 v i Hi) as [x ->]. simpl. eauto.
  - apply lookup_lt_is_Some_2, Hi.
Qed.

Lemma item_Some_lt (a : ndarray) (i : nat) row : item a i = Some row -> (i < len a)%nat.
Proof.
  destruct a as [v|rows]; simpl.
  - destruct (v !! i) eqn:E; [|discriminate]. intros _. eapply lookup_lt_Some, E.
  - apply lookup_lt_Some.
Qed.

(** Clipping an item whose entries clipping does not move changes nothing. *)
Lemma clip_item_fixed (a : ndarray) (i : nat) (lo hi : float64) row :
  item a i = Some row ->
  map (fun x => clip x lo hi) row = row ->
  clip_item a i lo hi = Some a.
Proof.
  destruct a as [v|rows]; simpl.
  - destruct (v !! i) as [x|] eqn:E; [|discriminate]. simpl.
    intros [= <-]. simpl. intros [= Hx]. rewrite Hx, list_insert_id by exact E.
    reflexivity.
  - intros E Hrow. rewrite E, Hrow, list_insert_id by exact E. reflexivity.
Qed.

Lemma clip_items_fixed bounds : forall (a : ndarray) (idx : nat),
  (idx + length bounds <= len a)%nat ->
  (forall j lo hi row,
     bounds !! j = Some (lo, hi) -> item a (idx + j) = Some row ->
     map (fun x => clip x lo hi) row = row) ->
  clip_items a idx bounds = Some a.
Proof.
  induction bounds as [|[lo hi] bounds IH]; intros a idx Hlen Hfix; [reflexivity|].
  simpl in *.
  destruct (item_is_Some a idx ltac:(lia)) as [row Hrow].
  rewrite (clip_item_fixed a idx lo hi row Hrow).
  - apply IH; [lia|]. intros j lo' hi' row' Hb Hi.
    apply (Hfix (S j) lo' hi' row'); [exact Hb|].
    replace (idx + S j)%nat with (S idx + j)%nat by lia. exact Hi.
  - apply (Hfix O lo hi row); [reflexivity|].
    replace (idx + 0)%nat with idx by lia. exact Hrow.
Qed.

Lemma clip_items_Some_len bounds : forall (a : ndarray) (idx : nat) a',
  clip_items a idx bounds = Some a' -> bounds <> [] ->
  (idx + length bounds <= len a)%nat.
Proof.
  induction bounds as [|[lo hi] bounds IH]; intros a idx a' H Hne; [congruence|].
  simpl in H. destruct (clip_item a idx lo hi) as [a1|] eqn:E1; [|discriminate].
  destruct (clip_item_same _ _ _ _ _ E1) as (row & Hrow & _).
  apply item_Some_lt in Hrow.
  destruct bounds as [|b bounds]; [simpl; lia|].
  specialize (IH a1 (S idx) a' H ltac:(discriminate)).
  rewrite (clip_item_len _ _ _ _ _ E1) in IH. simpl in *. lia.
Qed.

(** The items past the last pair of bounds are not touched. *)
Lemma clip_items_above bounds : forall (a : ndarray) (idx : nat) a' j,
  clip_items a idx bounds = Some a' -> (idx + length bounds <= j)%nat ->
  item a' j = item a j.
Proof.
  induction bounds as [|[lo hi] bounds IH]; intros a idx a' j H Hj.
  - injection H as <-. reflexivity.
  - simpl in H. destruct (clip_item a idx lo hi) as [a1|] eqn:E1; [|discriminate].
    simpl in Hj. rewrite (IH a1 (S idx) a' j H ltac:(lia)).
    apply (clip_item_other _ _ _ _ _ j E1). lia.
Qed.

Lemma clip_items_idempotent bounds (a a' : ndarray) :
  clip_items a O bounds = Some a' -> clip_items a' O bounds = Some a'.
Proof.
  intros H. destruct bounds as [|b bounds]; [reflexivity|].
  apply clip_items_fixed.
  - rewrite (clip_items_len _ _ _ _ H).
    apply (clip_items_Some_len _ _ _ _ H). discriminate.
  - intros j lo hi row Hb Hi.
    destruct (clip_items_at _ _ _ _ j lo hi H Hb) as (row0 & _ & Hrow').
    rewrite Hrow' in Hi. injection Hi as <-.
    rewrite map_map. apply map_ext. intros x. apply clip_idempotent.
Qed.

Lemma with_heap_insert_id (w : world) (r : ref) (a : ndarray) :
  heap w !! r = Some a -> with_heap (<[r := a]> (heap w)) w = w.
Proof. intros H. rewrite list_insert_id by exact H. apply with_heap_id. Qed.

(** X1: a completed clipping step writes nothing but the items of the
    first array of [params] that have a pair of bounds: the estimator's
    attributes, the generator and the warnings are as before, every other
    array of the store is as before, the first array keeps its length, its
    items past the last pair of [zip(min_coef_, max_coef_)] are as before,
    and every item [j] with a pair of bounds is its former value clipped. *)
Theorem clipping_writes_only_the_bounded_items (ps : list ref) (w w' : world)
    (i i' : option nat) :
  _update_coef_using_constrain ps w i = Returns tt w' i' ->
  self w' = self w /\ np_random w' = np_random w /\ warned w' = warned w /\
  length (heap w') = length (heap w) /\
  (forall r', ps !! O <> Some r' -> heap w' !! r' = heap w !! r') /\
  (forall r a, ps !! O = Some r -> heap w !! r = Some a ->
     exists a', heap w' !! r = Some a' /\ len a' = len a /\
       (forall j, (bound_count w <= j)%nat -> item a' j = item a j) /\
       (forall j lo hi,
          zip (min_coef_ (self w)) (max_coef_ (self w)) !! j = Some (lo, hi) ->
          exists row, item a j = Some row /\
                      item a' j = Some (map (fun x => clip x lo hi) row))).
Proof.
  unfold _update_coef_using_constrain, bind, get, bound_count.
  set (bounds := zip (min_coef_ (self w)) (max_coef_ (self w))).
  intros H. destruct bounds as [|b bs] eqn:Eb.
  - simpl in H. unfold ret in H. injection H as <- _.
    do 4 (split; [reflexivity|]). split; [reflexivity|].
    intros r a _ Ha. exists a. split; [exact Ha|]. split; [reflexivity|].
    split; [reflexivity|]. intros j lo hi Hj. rewrite lookup_nil in Hj. discriminate.
  - apply clip_rows_Returns in H; [|discriminate].
    destruct H as (r & a & a' & Hr & Ha & Hc & ->).
    do 3 (split; [reflexivity|]).
    split; [cbn; apply length_insert|].
    split.
    + intros r' Hr'. cbn. apply list_lookup_insert_ne. congruence.
    + intros r0 a0 Hr0 Ha0. assert (r0 = r) as -> by congruence.
      assert (a0 = a) as -> by congruence.
      exists a'. split; [|split; [|split]].
      * cbn. apply list_lookup_insert_eq. eapply lookup_lt_Some, Ha.
      * eapply clip_items_len, Hc.
      * intros j Hj. eapply clip_items_above; [exact Hc|]. simpl. exact Hj.
      * intros j lo hi Hj. apply (clip_items_at _ _ _ _ j lo hi Hc Hj).
Qed.

(** X2: the clipping step is idempotent: run again on the world it has
    left, it leaves that world as it is, whatever the bounds (also for
    [min_coef > max_coef]) and whatever the weights (also NaN). *)
Theorem clipping_step_is_idempotent (ps : list ref) (w w' : world) :
  _update_coef_using_constrain ps w None = Returns tt w' None ->
  _update_coef_using_constrain ps w' None = Returns tt w' None.
Proof.
  unfold _update_coef_using_constrain, bind, get.
  set (bounds := zip (min_coef_ (self w)) (max_coef_ (self w))).
  intros H. destruct bounds as [|b bs] eqn:Eb.
  - simpl in H. unfold ret in H. injection H as <-.
    fold bounds. rewrite Eb. reflexivity.
  - apply clip_rows_Returns in H; [|discriminate].
    destruct H as (r & a & a' & Hr & Ha & Hc & ->).
    change (self (with_heap (<[r := a']> (heap w)) w)) with (self w).
    fold bounds. rewrite Eb.
    assert (heap (with_heap (<[r := a']> (heap w)) w) !! r = Some a') as Ha'.
    { cbn. apply list_lookup_insert_eq. eapply lookup_lt_Some, Ha. }
    rewrite (clip_rows_quiet _ ps O _ r a' a' Hr Ha' (clip_items_idempotent _ _ _ Hc)).
    rewrite with_heap_insert_id by exact Ha'. reflexivity.
Qed.

(** X3: a first array whose bounded items lie strictly between their
    bounds is left exactly as it is: the clipping step then returns the
    world unchanged. *)
Theorem clipping_leaves_inner_weights_alone (ps : list ref) (w : world)
    (r : ref) (a : ndarray) :
  ps !! O = Some r -> heap w !! r = Some a ->
  (bound_count w <= len a)%nat ->
  (forall j lo hi row,
     zip (min_coef_ (self w)) (max_coef_ (self w)) !! j = Some (lo, hi) ->
     item a j = Some row ->
     Forall (fun x => lt lo x = true /\ lt x hi = true) row) ->
  _update_coef_using_constrain ps w None = Returns tt w None.
Proof.
  intros Hr Ha Hlen Hin.
  unfold _update_coef_using_constrain, bind, get.
  rewrite (clip_rows_quiet _ ps O w r a a Hr Ha).
  - rewrite with_heap_insert_id by exact Ha. reflexivity.
  - apply clip_items_fixed; [exact Hlen|].
    intros j lo hi row Hb Hi. specialize (Hin j lo hi row Hb Hi).
    clear Hi. induction Hin as [|x row [H1 H2] _ IH]; [reflexivity|].
    simpl. rewrite IH, (clip_strictly_inside x lo hi H1 H2). reflexivity.
Qed.

Lemma clip_rows_short (ps : list ref) bounds :
  forall (idx : nat) (w : world) (r : ref) (a : ndarray),
  ps !! O = Some r -> heap w !! r = Some a ->
  (idx <= len a)%nat -> (len a < idx + length bounds)%nat ->
  exists a',
    clip_items a idx (take (len a - idx) bounds) = Some a' /\
    clip_rows ps idx bounds w None
    = Raises IndexError (with_heap (<[r := a']> (heap w)) w) None.
Proof.
  induction bounds as [|[lo hi] bounds IH]; intros idx w r a Hr Ha Hle Hlt.
  - simpl in Hlt. lia.
  - simpl clip_rows. unfold bind at 1. simpl tick. cbv iota beta.
    unfold bind at 1. rewrite clip_row_eq, Hr, Ha.
    destruct (clip_item a idx lo hi) as [a1|] eqn:E1.
    + destruct (clip_item_same _ _ _ _ _ E1) as (row & Hrow & _).
      apply item_Some_lt in Hrow.
      set (w1 := with_heap (<[r := a1]> (heap w)) w).
      assert (heap w1 !! r = Some a1) as Ha1.
      { cbn. apply list_lookup_insert_eq. eapply lookup_lt_Some, Ha. }
      pose proof (clip_item_len _ _ _ _ _ E1) as Hl1.
      destruct (IH (S idx) w1 r a1 Hr Ha1 ltac:(lia) ltac:(simpl in Hlt; lia))
        as (a' & Hc & Hrun).
      exists a'. split.
      * replace (len a - idx)%nat with (S (len a - S idx)) by lia.
        simpl. rewrite E1. rewrite Hl1 in Hc. exact Hc.
      * rewrite Hrun. unfold w1. cbn. rewrite list_insert_insert_eq. reflexivity.
    + assert (idx = len a) as ->.
      { destruct (Nat.eq_dec idx (len a)) as [|Hne]; [assumption|].
        destruct (clip_item_is_Some a idx lo hi ltac:(lia)) as [x Hx]. congruence. }
      exists a. split.
      * rewrite Nat.sub_diag. reflexivity.
      * rewrite with_heap_insert_id by exact Ha. reflexivity.
Qed.

(** X4: when the first array of [params] has fewer items than there are
    pairs of bounds, the clipping step raises an [IndexError], after it has
    clipped every item the array has: the store is left half-updated.  With
    no array at all in [params] it raises at once. *)
Theorem clipping_past_the_last_item_raises (ps : list ref) (w : world) :
  (forall r a,
     ps !! O = Some r -> heap w !! r = Some a ->
     (len a < bound_count w)%nat ->
     exists a',
       _update_coef_using_constrain ps w None
       = Raises IndexError (with_heap (<[r := a']> (heap w)) w) None /\
       len a' = len a /\
       forall j lo hi,
         (j < len a)%nat ->
         zip (min_coef_ (self w)) (max_coef_ (self w)) !! j = Some (lo, hi) ->
         exists row, item a j = Some row /\
                     item a' j = Some (map (fun x => clip x lo hi) row)) /\
  (ps = [] -> (0 < bound_count w)%nat ->
   _update_coef_using_constrain ps w None = Raises IndexError w None).
Proof.
  split.
  - intros r a Hr Ha Hlt.
    unfold _update_coef_using_constrain, bind, get. unfold bound_count in Hlt.
    set (bounds := zip (min_coef_ (self w)) (max_coef_ (self w))) in *.
    destruct (clip_rows_short ps bounds O w r a Hr Ha ltac:(lia) ltac:(simpl; lia))
      as (a' & Hc & Hrun).
    exists a'. split; [exact Hrun|]. split; [eapply clip_items_len, Hc|].
    intros j lo hi Hj Hb.
    apply (clip_items_at _ _ _ _ j lo hi Hc).
    rewrite Nat.sub_0_r, lookup_take_lt by exact Hj. exact Hb.
  - intros -> Hpos.
    unfold _update_coef_using_constrain, bind, get. unfold bound_count in Hpos.
    destruct (zip (min_coef_ (self w)) (max_coef_ (self w))) as [|[lo hi] bounds];
      [simpl in Hpos; lia|].
    simpl clip_rows. unfold bind at 1. simpl tick. cbv iota beta.
    unfold bind at 1. rewrite clip_row_eq. reflexivity.
Qed.

(** ** Further properties of [_constrained_fit] *)

(** X5: a hidden layer size that is not positive makes [_constrained_fit]
    raise the [ValueError] of line 46 as soon as the hyper-parameters have
    been validated: nothing is initialised, the estimator and the store
    are left as they were. *)
Theorem nonpositive_hidden_layer_size_raises (X y : data) (incremental : bool)
    (w : world) (i : option nat) :
  _validate_hyperparameters (hp (self w)) = true ->
  Exists (fun n => n <= 0) (hidden_layer_sizes (hp (self w))) ->
  _constrained_fit X y incremental w i = Raises ValueError_hidden_layer_sizes w i.
Proof.
  intros Hv Hex.
  assert (existsb (fun n => n <=? 0) (hidden_layer_sizes (hp (self w))) = true) as He.
  { apply existsb_exists. apply Exists_exists in Hex. destruct Hex as (n & Hin & Hn).
    exists n. split; [apply list_elem_of_In, Hin|]. apply Z.leb_le, Hn. }
  unfold _constrained_fit, train, prepare, bind, get. rewrite Hv. unfold ret.
  rewrite He. reflexivity.
Qed.

(** X6: a warm start trains the weights that are there.  When the
    estimator has weights and either [warm_start] is set or the fit is
    incremental, the preparation of lines 37-83 does not call
    [_initialize]: the store, the references to the weights, the counters,
    the loss curve, the optimizer and the generator are left as they
    were. *)
Theorem warm_start_keeps_the_weights (X y : data) (incremental : bool)
    (w w' : world) (i i' : option nat) (r : data * data * list Z) :
  has_coefs_ (self w) = true ->
  warm_start (hp (self w)) = true \/ incremental = true ->
  prepare X y incremental w i = Returns r w' i' ->
  heap w' = heap w /\
  coefs_ (self w') = coefs_ (self w) /\
  intercepts_ (self w') = intercepts_ (self w) /\
  n_iter_ (self w') = n_iter_ (self w) /\
  t_ (self w') = t_ (self w) /\
  loss_curve_ (self w') = loss_curve_ (self w) /\
  _no_improvement_count (self w') = _no_improvement_count (self w) /\
  _optimizer (self w') = _optimizer (self w) /\
  np_random w' = np_random w /\
  i' = i.
Proof.
  intros Hc Hwarm. unfold prepare, bind, get.
  destruct (_validate_hyperparameters (hp (self w))); [|discriminate].
  unfold ret at 1. cbv iota beta.
  destruct (existsb _ _); [discriminate|]. unfold ret at 1. cbv iota beta.
  assert (negb (has_coefs_ (self w))
          || negb (warm_start (hp (self w))) && negb incremental = false) as ->.
  { rewrite Hc. destruct Hwarm as [-> | ->]; [reflexivity|].
    destruct (warm_start _); reflexivity. }
  destruct (_validate_input _ _ _ _ _ _) as [[[X' y'] k]|]; [|discriminate].
  unfold modify, ret, raise.
  destruct (check_random_state _) as [rs|]; [|discriminate].
  intros [= <- <- <-]. cbn. repeat split; reflexivity.
Qed.

Ltac bounds_leaf :=
  lazymatch goal with
  | |- PreOrder _ => typeclasses eauto
  | |- bounds_kept _ _ => constructor; cbn; reflexivity
  end.

Lemma training_setup_bounds_kept X y inc : preserves bounds_kept (training_setup X y inc).
Proof.
  unfold training_setup, make_optimizer, split_validation, resolve_batch_size.
  repeat pres_step; bounds_leaf.
Qed.

Lemma restore_best_weights_bounds_kept : preserves bounds_kept restore_best_weights.
Proof. unfold restore_best_weights. repeat pres_step; bounds_leaf. Qed.

Lemma run_epochs_bounds_kept st inc : preserves bounds_kept (run_epochs st inc).
Proof. eapply preserves_weaken; [apply kept_bounds_kept|apply run_epochs_kept]. Qed.

Lemma training_loop_bounds_kept st inc : preserves bounds_kept (training_loop st inc).
Proof.
  unfold training_loop, _after_training.
  repeat pres_step;
    auto using run_epochs_bounds_kept, restore_best_weights_bounds_kept;
    bounds_leaf.
Qed.

Lemma validate_weights_bounds_kept : preserves bounds_kept validate_weights.
Proof. unfold validate_weights. repeat pres_step; bounds_leaf. Qed.

(** X7: whatever its outcome (a return, an error, an interruption),
    [_constrained_fit] leaves the hyper-parameters and the bounds
    [min_coef_] and [max_coef_] of the estimator as they were: training
    never rewrites the constraints it enforces. *)
Theorem training_never_rewrites_the_bounds (X y : data) (incremental : bool)
    (w : world) (i : option nat) :
  match _constrained_fit X y incremental w i with
  | Returns _ w' _ | Raises _ w' _ =>
      hp (self w') = hp (self w) /\
      min_coef_ (self w') = min_coef_ (self w) /\
      max_coef_ (self w') = max_coef_ (self w)
  end.
Proof.
  assert (preserves bounds_kept (_constrained_fit X y incremental)) as H.
  { unfold _constrained_fit, train, _fit_constrained_stochastic.
    repeat pres_step;
      auto using prepare_bounds_kept, training_setup_bounds_kept,
                 training_loop_bounds_kept, validate_weights_bounds_kept;
      bounds_leaf. }
  specialize (H w i).
  destruct (_constrained_fit X y incremental w i) as [a w' i'|e w' i'];
    destruct H as [H1 H2 H3]; auto.
Qed.

(** ** The global random generator *)

(** NumPy's global generator is left in the state it was in. *)
Definition same_generator (w w' : world) : Prop := np_random w' = np_random w.

Local Instance same_generator_preorder : PreOrder same_generator.
Proof.
  split.
  - intros w. reflexivity.
  - intros w1 w2 w3 H1 H2. unfold same_generator in *. congruence.
Qed.

Ltac generator_leaf :=
  lazymatch goal with
  | |- PreOrder _ => typeclasses eauto
  | |- same_generator _ _ => reflexivity
  end.

Lemma optimizer_update_params_same_generator ps gs :
  preserves same_generator (optimizer_update_params ps gs).
Proof.
  intros w i. unfold optimizer_update_params, bind, get, modify.
  destruct (_optimizer (self w)) as [o|]; [|cbn; reflexivity].
  destruct (update_params _ _ _) as [o' vals]. reflexivity.
Qed.

Lemma clip_row_same_generator ps idx lo hi :
  preserves same_generator (clip_row ps idx lo hi).
Proof.
  intros w i. rewrite clip_row_eq.
  destruct (ps !! O) as [r|]; [|cbn; reflexivity].
  destruct (heap w !! r) as [a|]; [|cbn; reflexivity].
  destruct (clip_item a idx lo hi); reflexivity.
Qed.

Lemma clip_rows_same_generator bounds : forall ps idx,
  preserves same_generator (clip_rows ps idx bounds).
Proof.
  induction bounds as [|[lo hi] rest IH]; intros ps idx; cbn [clip_rows].
  - pres_step.
  - repeat pres_step; auto using clip_row_same_generator.
Qed.

Lemma update_coef_same_generator ps :
  preserves same_generator (_update_coef_using_constrain ps).
Proof. unfold _update_coef_using_constrain. pres_step. apply clip_rows_same_generator. Qed.

Lemma batch_loop_same_generator X y ps slices : forall acc,
  preserves same_generator (batch_loop X y ps slices acc).
Proof.
  induction slices as [|sl rest IH]; intros acc; cbn [batch_loop].
  - pres_step.
  - pres_step; [pres_step|]. pres_step.
    destruct (_backprop _ _ _ _ _ _) as [[loss cg] ig].
    pres_step; [apply optimizer_update_params_same_generator|].
    pres_step; [apply update_coef_same_generator|]. apply IH.
Qed.

Lemma update_no_improvement_count_same_generator early val :
  preserves same_generator (_update_no_improvement_count early val).
Proof.
  intros w i. unfold _update_no_improvement_count, bind, get, modify.
  destruct (no_improvement_rule _ _ _ _ _ _ _ _) as [[count best] k].
  destruct best; reflexivity.
Qed.

Lemma epoch_same_generator X y val ps n bs early inc :
  preserves same_generator (epoch X y val ps n bs early inc).
Proof.
  unfold epoch, epoch_train, epoch_batches, epoch_bookkeeping, check_no_improvement,
    optimizer_iteration_ends, optimizer_trigger_stopping.
  repeat pres_step;
    auto using batch_loop_same_generator, update_no_improvement_count_same_generator;
    generator_leaf.
Qed.

Lemma epochs_same_generator rounds X y val ps n bs early inc :
  preserves same_generator (epochs rounds X y val ps n bs early inc).
Proof.
  induction rounds as [|rounds IH]; cbn [epochs].
  - pres_step.
  - pres_step; [apply epoch_same_generator|]. pres_step; [pres_step|apply IH].
Qed.

Lemma training_loop_same_generator st inc :
  preserves same_generator (training_loop st inc).
Proof.
  unfold training_loop, _after_training, run_epochs, restore_best_weights.
  repeat pres_step; auto using epochs_same_generator; generator_leaf.
Qed.

Lemma training_setup_same_generator X y inc (w : world) (i : option nat) :
  early_stopping (hp (self w)) && negb inc = false ->
  match training_setup X y inc w i with
  | Returns _ w' _ | Raises _ w' _ => np_random w' = np_random w
  end.
Proof.
  intros He.
  unfold training_setup, make_optimizer, split_validation, resolve_batch_size,
    bind, get, modify, warn, ret.
  destruct (negb inc || _); [destruct (solver (hp (self w)))|];
    cbn; rewrite He; cbn;
    (destruct (batch_size (hp (self w))) as [|b]; cbn; [reflexivity|]);
    destruct (_ || _); reflexivity.
Qed.

(** X8: without early stopping, or in an incremental fit, the loop
    function never draws from NumPy's global generator: whatever its
    outcome, the generator is in the state it was in.  (The validation
    split of an early-stopping fit is the only use of it.) *)
Theorem loop_without_validation_split_spares_the_generator (X y : data)
    (lu : list Z) (incremental : bool) (w : world) (i : option nat) :
  early_stopping (hp (self w)) = false \/ incremental = true ->
  match _fit_constrained_stochastic X y lu incremental w i with
  | Returns _ w' _ | Raises _ w' _ => np_random w' = np_random w
  end.
Proof.
  intros Hno.
  assert (early_stopping (hp (self w)) && negb incremental = false) as He.
  { destruct Hno as [-> | ->]; [reflexivity|apply andb_false_r]. }
  pose proof (training_setup_same_generator X y incremental w i He) as Hs.
  unfold _fit_constrained_stochastic, bind.
  destruct (training_setup X y incremental w i) as [st w1 i1|e w1 i1]; [|exact Hs].
  pose proof (training_loop_same_generator st incremental w1 i1) as Hl.
  unfold same_generator in Hl.
  destruct (training_loop st incremental w1 i1); congruence.
Qed.

(** ** The end of an early-stopping fit *)

(** X9: when the loop function of an early-stopping fit returns, the
    weights of the estimator are the best weights on record: [coefs_] and
    [intercepts_] are the very lists [_best_coefs] and [_best_intercepts]
    (the same arrays, not copies), whether the loop ran to its end, was
    stopped by the no-improvement rule or was interrupted. *)
Theorem early_stopping_fit_ends_on_the_best_weights (X y : data) (lu : list Z)
    (w w' : world) (i i' : option nat) :
  early_stopping (hp (self w)) = true ->
  _fit_constrained_stochastic X y lu false w i = Returns tt w' i' ->
  _best_coefs (self w') = Some (coefs_ (self w')) /\
  _best_intercepts (self w') = Some (intercepts_ (self w')).
Proof.
  intros He H. unfold _fit_constrained_stochastic in H.
  apply bind_Returns in H as (st & w1 & i1 & Hs & H).
  apply training_setup_Returns in Hs as (_ & _ & _ & _ & Hes & _).
  rewrite He in Hes. cbn in Hes.
  unfold training_loop in H. rewrite Hes in H.
  apply bind_Returns in H as ([] & w2 & i2 & _ & H).
  apply bind_Returns in H as ([] & w3 & i3 & Hr & H).
  unfold _after_training, ret in H. injection H as <- _.
  revert Hr. unfold restore_best_weights, bind, get, modify.
  destruct (_best_coefs (self w2)) as [bc|] eqn:Ec; [|discriminate].
  destruct (_best_intercepts (self w2)) as [bi|] eqn:Ei; [|discriminate].
  intros [= <- _]. cbn. split; assumption.
Qed.

(** ** The counters of the loop *)

(** The iteration counter, the sample counter, the loss and the loss curve
    are left alone. *)
Record tally_kept (w w' : world) : Prop := TallyKept {
  tally_n_iter : n_iter_ (self w') = n_iter_ (self w);
  tally_t : t_ (self w') = t_ (self w);
  tally_loss : loss_ (self w') = loss_ (self w);
  tally_loss_curve : loss_curve_ (self w') = loss_curve_ (self w);
  tally_warned : warned w' = warned w
}.

Local Instance tally_kept_preorder : PreOrder tally_kept.
Proof.
  split.
  - intros w. constructor; auto.
  - intros w1 w2 w3 [] []. constructor; congruence.
Qed.

Ltac tally_leaf :=
  lazymatch goal with
  | |- PreOrder _ => typeclasses eauto
  | |- tally_kept _ _ => constructor; cbn; reflexivity
  end.

Lemma optimizer_update_params_tally ps gs :
  preserves tally_kept (optimizer_update_params ps gs).
Proof.
  intros w i. unfold optimizer_update_params, bind, get, modify.
  destruct (_optimizer (self w)) as [o|]; [|cbn; reflexivity].
  destruct (update_params _ _ _) as [o' vals]. constructor; reflexivity.
Qed.

Lemma clip_row_tally ps idx lo hi : preserves tally_kept (clip_row ps idx lo hi).
Proof.
  intros w i. rewrite clip_row_eq.
  destruct (ps !! O) as [r|]; [|cbn; reflexivity].
  destruct (heap w !! r) as [a|]; [|cbn; reflexivity].
  destruct (clip_item a idx lo hi); [|cbn; reflexivity]. constructor; reflexivity.
Qed.

Lemma clip_rows_tally bounds : forall ps idx, preserves tally_kept (clip_rows ps idx bounds).
Proof.
  induction bounds as [|[lo hi] rest IH]; intros ps idx; cbn [clip_rows].
  - pres_step.
  - repeat pres_step; auto using clip_row_tally.
Qed.

Lemma batch_loop_tally X y ps slices : forall acc,
  preserves tally_kept (batch_loop X y ps slices acc).
Proof.
  induction slices as [|sl rest IH]; intros acc; cbn [batch_loop].
  - pres_step.
  - pres_step; [pres_step|]. pres_step.
    destruct (_backprop _ _ _ _ _ _) as [[loss cg] ig].
    pres_step; [apply optimizer_update_params_tally|].
    pres_step; [|apply IH].
    unfold _update_coef_using_constrain. pres_step. apply clip_rows_tally.
Qed.

Lemma epoch_batches_tally X y ps n bs : preserves tally_kept (epoch_batches X y ps n bs).
Proof.
  unfold epoch_batches. pres_step; [|apply batch_loop_tally].
  destruct (gen_batches n bs); pres_step.
Qed.

Lemma update_no_improvement_count_tally early val :
  preserves tally_kept (_update_no_improvement_count early val).
Proof.
  intros w i. unfold _update_no_improvement_count, bind, get, modify.
  destruct (no_improvement_rule _ _ _ _ _ _ _ _) as [[count best] k].
  destruct best; constructor; reflexivity.
Qed.

Lemma optimizer_iteration_ends_tally : preserves tally_kept optimizer_iteration_ends.
Proof. unfold optimizer_iteration_ends. repeat pres_step; tally_leaf. Qed.

Lemma check_no_improvement_tally : preserves tally_kept check_no_improvement.
Proof.
  unfold check_no_improvement, optimizer_trigger_stopping.
  repeat pres_step; tally_leaf.
Qed.

(** What the book-keeping of a completed epoch records. *)
Lemma epoch_bookkeeping_tally X val n early acc (w w' : world) (i i' : option nat) :
  epoch_bookkeeping X val n early acc w i = Returns tt w' i' ->
  n_iter_ (self w') = n_iter_ (self w) + 1 /\
  t_ (self w') = t_ (self w) + n /\
  loss_ (self w') = div acc (of_int (Z.of_nat (length X))) /\
  loss_curve_ (self w') = loss_curve_ (self w) ++ [loss_ (self w')] /\
  warned w' = warned w.
Proof.
  unfold epoch_bookkeeping. intros H.
  apply bind_Returns in H as ([] & w1 & i1 & Ht & H). apply tick_Returns in Ht as ->.
  apply bind_Returns in H as ([] & w2 & i2 & Hm & H).
  cbn in Hm. injection Hm as <- <-.
  apply bind_Returns in H as ([] & w3 & i3 & Ht & H). apply tick_Returns in Ht as ->.
  apply bind_Returns in H as ([] & w4 & i4 & Hm & H).
  cbn in Hm. injection Hm as <- <-.
  apply bind_Returns in H as ([] & w5 & i5 & Ht & H). apply tick_Returns in Ht as ->.
  apply bind_Returns in H as ([] & w6 & i6 & Hm & H).
  cbn in Hm. injection Hm as <- <-.
  apply bind_Returns in H as ([] & w7 & i7 & Ht & H). apply tick_Returns in Ht as ->.
  apply bind_Returns in H as ([] & w8 & i8 & Hm & H).
  cbn in Hm. injection Hm as <- <-.
  apply bind_Returns in H as ([] & w9 & i9 & Ht & H). apply tick_Returns in Ht as ->.
  apply bind_Returns in H as ([] & w10 & i10 & Hu & H).
  match type of Hu with
  | _ ?w0 ?i0 = _ =>
      pose proof (update_no_improvement_count_tally early val w0 i0) as Hs1
  end.
  rewrite Hu in Hs1.
  apply bind_Returns in H as ([] & w11 & i11 & Ht & H). apply tick_Returns in Ht as ->.
  pose proof (optimizer_iteration_ends_tally w10 i11) as Hs2. rewrite H in Hs2.
  destruct Hs1 as [Hn1 Ht1 Hl1 Hc1 Hw1], Hs2 as [Hn2 Ht2 Hl2 Hc2 Hw2].
  cbn in Hn1, Ht1, Hl1, Hc1, Hw1.
  rewrite Hn2, Ht2, Hl2, Hc2, Hw2, Hn1, Ht1, Hl1, Hc1, Hw1.
  repeat split; reflexivity.
Qed.

Lemma epoch_tail_tally (stopped incremental : bool) (w w' : world)
    (i i' : option nat) (b : bool) :
  (if stopped then ret true
   else if incremental then ret true
   else
     w <- get ;;
     (if n_iter_ (self w) =? max_iter (hp (self w)) then
        tick ;;; warn (MaxIterReached (max_iter (hp (self w))))
      else ret tt) ;;;
     ret false) w i = Returns b w' i' ->
  self w' = self w /\ (incremental = true -> b = true /\ warned w' = warned w).
Proof.
  destruct stopped; [intros [= <- <- _]; auto|].
  destruct incremental; [intros [= <- <- _]; auto|].
  unfold bind, get. intros H. split; [|discriminate].
  destruct (n_iter_ (self w) =? max_iter (hp (self w))).
  - destruct (tick w i) as [[] w1 i1|] eqn:Et; [|discriminate].
    apply tick_Returns in Et as ->. cbn in H. injection H as _ <- _. reflexivity.
  - cbn in H. injection H as _ <- _. reflexivity.
Qed.

(** A completed round of the loop counts one epoch. *)
Lemma epoch_Returns_tally X y val ps n bs early inc (w w' : world)
    (i i' : option nat) (b : bool) :
  epoch X y val ps n bs early inc w i = Returns b w' i' ->
  n_iter_ (self w') = n_iter_ (self w) + 1 /\
  t_ (self w') = t_ (self w) + n /\
  loss_curve_ (self w') = loss_curve_ (self w) ++ [loss_ (self w')] /\
  (inc = true -> b = true /\ warned w' = warned w).
Proof.
  unfold epoch, epoch_train. intros H.
  apply bind_Returns in H as ([] & w2 & i2 & Ht & H).
  apply bind_Returns in Ht as (acc & w1 & i1 & Hb & Ht).
  pose proof (epoch_batches_tally X y ps n bs w i) as H1. rewrite Hb in H1.
  apply epoch_bookkeeping_tally in Ht as (Hn & Htt & _ & Hc & Hw).
  apply bind_Returns in H as (stopped & w3 & i3 & Hck & H).
  pose proof (check_no_improvement_tally w2 i2) as H3. rewrite Hck in H3.
  apply epoch_tail_tally in H as (Hself & Hinc).
  destruct H1 as [Hn1 Ht1 Hl1 Hc1 Hw1], H3 as [Hn3 Ht3 Hl3 Hc3 Hw3].
  rewrite Hself, Hn3, Ht3, Hl3, Hc3, Hn, Htt, Hc, Hn1, Ht1, Hc1.
  repeat split; try reflexivity.
  - apply Hinc, H.
  - destruct (Hinc H) as [_ ->]. congruence.
Qed.

(** X10: the book-keeping of the loop.  When the rounds of
    [for it in range(max_iter)] are over, [k] epochs have been completed
    for some [k] up to the number of rounds: [n_iter_] has advanced by [k],
    [t_] by [k * n_samples], and the loss curve has [k] more entries, the
    last of which is [loss_].  So [len(loss_curve_) - n_iter_] is the same
    before and after. *)
Theorem completed_epochs_are_counted (rounds : nat) (X y : data)
    (val : option (data * data)) (ps : list ref) (n bs : Z) (early inc : bool) :
  forall (w w' : world) (i i' : option nat),
  epochs rounds X y val ps n bs early inc w i = Returns tt w' i' ->
  exists (k : nat) (losses : list float64),
    (k <= rounds)%nat /\ length losses = k /\
    n_iter_ (self w') = n_iter_ (self w) + Z.of_nat k /\
    t_ (self w') = t_ (self w) + Z.of_nat k * n /\
    loss_curve_ (self w') = loss_curve_ (self w) ++ losses /\
    ((0 < k)%nat -> last losses = Some (loss_ (self w'))) /\
    ((0 < rounds)%nat -> (0 < k)%nat).
Proof.
  induction rounds as [|rounds IH]; intros w w' i i' H.
  - cbn in H. injection H as <- _. exists O, []. rewrite app_nil_r.
    repeat split; try lia; reflexivity.
  - cbn [epochs] in H. apply bind_Returns in H as (broke & w1 & i1 & He & H).
    apply epoch_Returns_tally in He as (Hn & Ht & Hc & _).
    destruct broke.
    + cbn in H. injection H as <- _. exists 1%nat, [loss_ (self w1)].
      repeat split; try lia; try assumption; reflexivity.
    + destruct rounds as [|rounds'].
      * cbn in H. injection H as <- _. exists 1%nat, [loss_ (self w1)].
        repeat split; try lia; try assumption; reflexivity.
      * apply IH in H as (k & losses & Hk & Hlen & Hn' & Ht' & Hc' & Hlast & Hpos).
        specialize (Hpos ltac:(lia)). specialize (Hlast Hpos).
        exists (S k), (loss_ (self w1) :: losses).
        split; [lia|]. split; [simpl; lia|]. split; [lia|]. split; [lia|].
        split; [rewrite Hc', Hc, <- app_assoc; reflexivity|].
        split; [|lia]. intros _.
        destruct losses as [|l losses]; [simpl in Hlen; lia|]. exact Hlast.
Qed.

(** X11: in an incremental fit the loop stops after its first round
    ([if incremental: break]): however large [max_iter] is, the rounds are
    those of [max_iter = 1], for every outcome.  When they return, exactly
    one epoch has been counted and no warning has been emitted: the test of
    line 238 is never reached, so an incremental fit never warns about the
    maximum number of iterations. *)
Theorem incremental_fit_runs_one_epoch (rounds : nat) (X y : data)
    (val : option (data * data)) (ps : list ref) (n bs : Z) (early : bool)
    (w : world) (i : option nat) :
  epochs (S rounds) X y val ps n bs early true w i
  = epochs 1 X y val ps n bs early true w i /\
  forall (w' : world) (i' : option nat),
    epochs (S rounds) X y val ps n bs early true w i = Returns tt w' i' ->
    n_iter_ (self w') = n_iter_ (self w) + 1 /\
    t_ (self w') = t_ (self w) + n /\
    warned w' = warned w.
Proof.
  assert (epochs (S rounds) X y val ps n bs early true w i
          = epochs 1 X y val ps n bs early true w i) as E.
  { cbn [epochs]. unfold bind.
    destruct (epoch X y val ps n bs early true w i) as [b w1 i1|e w1 i1] eqn:He;
      [|reflexivity].
    apply epoch_Returns_tally in He as (_ & _ & _ & Hb).
    destruct (Hb eq_refl) as [-> _]. reflexivity. }
  split; [exact E|]. intros w' i' H. rewrite E in H.
  cbn [epochs] in H. apply bind_Returns in H as (b & w1 & i1 & He & H).
  apply epoch_Returns_tally in He as (Hn & Ht & _ & Hb).
  destruct (Hb eq_refl) as [-> Hw]. cbn in H. injection H as <- _.
  auto.
Qed.
End ConstrainedMultilayerPerceptron.

(** ** A small collaborator to run the loop on

    A concrete (and deliberately simple) framework: enough to execute [fit]
    on small data.  The no-improvement rule and the optimizers' stopping
    rule follow the framework's; the numerics are simplified. *)

Module Toy.

(** Private attributes: [best_loss_] and [best_validation_score_]. *)
Record attrs := { best_loss_ : float64; best_validation_score_ : float64 }.

(** The optimizer: whether its learning-rate schedule is adaptive, and how
    often the learning rate was decayed. *)
Record optimizer := { adaptive : bool; decays : nat }.

Definition _validate_hyperparameters (h : hyper bool) : bool := 0 <? max_iter h.

Definition _validate_input (h : hyper bool) (k : attrs) (X y : data)
    (incremental reset : bool) : option (data * data * attrs) :=
  match X with
  | [] => None
  | _ => if Nat.eqb (length X) (length y) then Some (X, y, k) else None
  end.

(** [np.random.RandomState(seed)]: the state of the toy generator is the
    seed. *)
Definition RandomState (seed : Z) : nat := Z.to_nat seed.

(** Every weight starts at the state of the generator that is drawn from,
    every intercept at zero; the draw advances the generator. *)
Fixpoint init_layers (x : float64) (layer_units : list Z) : list ndarray * list ndarray :=
  match layer_units with
  | n_in :: ((n_out :: _) as rest) =>
      let '(cs, ics) := init_layers x rest in
      (A2 (repeat (repeat x (Z.to_nat n_out)) (Z.to_nat n_in)) :: cs,
       A1 (repeat zero (Z.to_nat n_out)) :: ics)
  | _ => ([], [])
  end.

Definition _initialize (h : hyper bool) (k : attrs) (g : nat) (y : data)
    (layer_units : list Z) : list ndarray * list ndarray * attrs * nat :=
  let '(cs, ics) := init_layers (of_int (Z.of_nat g)) layer_units in
  (cs, ics, {| best_loss_ := inf; best_validation_score_ := ninf |}, S g).

Definition fill (x : float64) (a : ndarray) : ndarray :=
  match a with
  | A1 v => A1 (map (fun _ => x) v)
  | A2 rows => A2 (map (map (fun _ => x)) rows)
  end.

Definition first_entry (d : data) : float64 :=
  match d with
  | (x :: _) :: _ => x
  | _ => zero
  end.

(** The loss is the first target of the batch; the gradient of every weight
    is the first feature of the first sample of the batch, that of every
    intercept is zero. *)
Definition _backprop (h : hyper bool) (k : attrs) (coefs intercepts : list ndarray)
    (X_batch y_batch : data) : float64 * list ndarray * list ndarray :=
  (first_entry y_batch,
   map (fill (first_entry X_batch)) coefs,
   map (fill zero) intercepts).

Definition SGDOptimizer (params : list ndarray) (adaptive_schedule : bool) : optimizer :=
  {| adaptive := adaptive_schedule; decays := O |}.

Definition AdamOptimizer (params : list ndarray) (adaptive_schedule : bool) : optimizer :=
  {| adaptive := false; decays := O |}.

(** [f] applied along two lists, the first keeping its length. *)
Fixpoint zip_keep {A B} (f : A -> B -> A) (l : list A) (k : list B) : list A :=
  match l, k with
  | a :: l', b :: k' => f a b :: zip_keep f l' k'
  | _, _ => l
  end.

Definition array_sub (p g : ndarray) : ndarray :=
  match p, g with
  | A1 v, A1 u => A1 (zip_keep sub v u)
  | A2 rows, A2 grows => A2 (zip_keep (zip_keep sub) rows grows)
  | _, _ => p
  end.

(** [param += -grad], in place. *)
Definition update_params (o : optimizer) (params grads : list ndarray)
    : optimizer * list ndarray :=
  (o, zip_keep array_sub params grads).

Definition iteration_ends (o : optimizer) (t : Z) : optimizer := o.

(** Stop unless the schedule is adaptive; then decay the learning rate. *)
Definition trigger_stopping (o : optimizer) : bool * optimizer :=
  if adaptive o then (false, {| adaptive := true; decays := S (decays o) |})
  else (true, o).

(** The shuffle rotates the samples by the state of the global generator;
    the last sample is held out. *)
Definition rotate (g : nat) (d : data) : data :=
  drop (g mod length d)%nat d ++ take (g mod length d)%nat d.

Definition train_test_split (g : nat) (test_size : float64) (stratify : option data)
    (X y : data) : option (data * data * data * data * nat) :=
  if (length X <? 2)%nat then None
  else
    let X' := rotate g X in
    let y' := rotate g y in
    let n := (length X - 1)%nat in
    Some (take n X', drop n X', take n y', drop n y', S g).

(** The validation score of the toy: the first weight of the first layer. *)
Definition score (coefs : list ndarray) : float64 :=
  match coefs with
  | A2 ((x :: _) :: _) :: _ => x
  | _ => zero
  end.

(** The framework's rule: the counter grows when the last loss (or
    validation score) is not better than the best one by [tol], and is
    reset otherwise; the best value is recorded. *)
Definition no_improvement_rule (h : hyper bool) (k : attrs) (early_stopping : bool)
    (val : option (data * data)) (coefs intercepts : list ndarray)
    (loss_curve : list float64) (count : Z) : Z * bool * attrs :=
  if early_stopping then
    let last_valid_score := score coefs in
    let count' := if lt last_valid_score (add (best_validation_score_ k) (tol h))
                  then count + 1 else 0 in
    if gt last_valid_score (best_validation_score_ k) then
      (count', true,
       {| best_loss_ := best_loss_ k; best_validation_score_ := last_valid_score |})
    else (count', false, k)
  else
    let last := List.last loss_curve zero in
    let count' := if gt last (sub (best_loss_ k) (tol h)) then count + 1 else 0 in
    if lt last (best_loss_ k) then
      (count', false,
       {| best_loss_ := last; best_validation_score_ := best_validation_score_ k |})
    else (count', false, k).

(** The L-BFGS solver of the toy: every weight ends at the first target,
    every intercept at zero, after one iteration. *)
Definition _fit_lbfgs (h : hyper bool) (k : attrs) (coefs intercepts : list ndarray)
    (X y : data) (layer_units : list Z)
    : list ndarray * list ndarray * attrs * Z * float64 :=
  (map (fill (first_entry y)) coefs, map (fill zero) intercepts, k, 1, zero).

Definition is_classifier : bool := false.

Definition inverse_transform (k : attrs) (d : data) : data := d.

End Toy.

(** ** The loop on the small collaborator *)

Abbreviation toy_world := (world Toy.attrs Toy.optimizer nat bool).
Abbreviation toy_outcome := (outcome Toy.attrs Toy.optimizer nat bool).

Definition toy_fit :=
  @fit Toy.attrs Toy.optimizer nat bool
    Toy._validate_hyperparameters Toy._validate_input Toy.RandomState Toy._initialize Toy._backprop
    Toy.SGDOptimizer Toy.AdamOptimizer Toy.update_params Toy.iteration_ends
    Toy.trigger_stopping Toy.train_test_split Toy.is_classifier Toy.inverse_transform
    Toy.no_improvement_rule.

Definition toy_train :=
  @train Toy.attrs Toy.optimizer nat bool
    Toy._validate_hyperparameters Toy._validate_input Toy.RandomState Toy._initialize Toy._backprop
    Toy.SGDOptimizer Toy.AdamOptimizer Toy.update_params Toy.iteration_ends
    Toy.trigger_stopping Toy.train_test_split Toy.is_classifier Toy.inverse_transform
    Toy.no_improvement_rule.

Definition toy_baseline_fit :=
  @baseline_fit Toy.attrs Toy.optimizer nat bool
    Toy._validate_hyperparameters Toy._validate_input Toy.RandomState Toy._initialize Toy._backprop
    Toy.SGDOptimizer Toy.AdamOptimizer Toy.update_params Toy.iteration_ends
    Toy.trigger_stopping Toy.train_test_split Toy.is_classifier Toy.inverse_transform
    Toy.no_improvement_rule Toy._fit_lbfgs.

Definition toy_prepare :=
  @prepare Toy.attrs Toy.optimizer nat bool
    Toy._validate_hyperparameters Toy._validate_input Toy.RandomState Toy._initialize.

Definition toy_fit_constrained_stochastic :=
  @_fit_constrained_stochastic Toy.attrs Toy.optimizer nat bool
    Toy._backprop Toy.SGDOptimizer Toy.AdamOptimizer Toy.update_params
    Toy.iteration_ends Toy.trigger_stopping Toy.train_test_split Toy.is_classifier
    Toy.inverse_transform Toy.no_improvement_rule.

Definition toy_training_setup :=
  @training_setup Toy.attrs Toy.optimizer nat bool
    Toy.SGDOptimizer Toy.AdamOptimizer Toy.train_test_split Toy.is_classifier
    Toy.inverse_transform.

Definition toy_training_loop :=
  @training_loop Toy.attrs Toy.optimizer nat bool
    Toy._backprop Toy.update_params Toy.iteration_ends Toy.trigger_stopping
    Toy.no_improvement_rule.

Definition toy_run_epochs :=
  @run_epochs Toy.attrs Toy.optimizer nat bool
    Toy._backprop Toy.update_params Toy.iteration_ends Toy.trigger_stopping
    Toy.no_improvement_rule.

Definition toy_epochs :=
  @epochs Toy.attrs Toy.optimizer nat bool
    Toy._backprop Toy.update_params Toy.iteration_ends Toy.trigger_stopping
    Toy.no_improvement_rule.

Definition toy_epoch_train :=
  @epoch_train Toy.attrs Toy.optimizer nat bool
    Toy._backprop Toy.update_params Toy.iteration_ends Toy.no_improvement_rule.

Definition toy_check_no_improvement :=
  @check_no_improvement Toy.attrs Toy.optimizer nat bool Toy.trigger_stopping.

Definition toy_batch_loop :=
  @batch_loop Toy.attrs Toy.optimizer nat bool Toy._backprop Toy.update_params.

Definition toy_batch_loop_clipping_gradients :=
  @batch_loop_clipping_gradients Toy.attrs Toy.optimizer nat bool
    Toy._backprop Toy.update_params.

Definition toy_update_coef_using_constrain :=
  @_update_coef_using_constrain Toy.attrs Toy.optimizer nat bool.

(** The world an outcome ends in, and whether it is a normal return. *)
Definition world_of {A} (r : toy_outcome A) : toy_world :=
  match r with Returns _ w _ => w | Raises _ w _ => w end.

Definition returned {A} (r : toy_outcome A) : bool :=
  match r with Returns _ _ _ => true | Raises _ _ _ => false end.

(** Hyper-parameters, an estimator that was never fitted, and data. *)
Definition toy_hyper (seed max_it n_no_change : Z) (tolerance : float64)
    (bs : batch_size_t) (early : bool) : hyper bool :=
  {| hidden_layer_sizes := [1]; solver := sgd; batch_size := bs;
     max_iter := max_it; early_stopping := early; validation_fraction := zero;
     n_iter_no_change := n_no_change; tol := tolerance; warm_start := false;
     random_state := Some seed; other := false |}.

Definition fresh (h : hyper bool) (g : nat) : toy_world :=
  {| self := {| hp := h; min_coef_ := []; max_coef_ := []; has_coefs_ := false;
                coefs_ := []; intercepts_ := []; n_outputs_ := O; n_iter_ := 0;
                t_ := 0; loss_ := zero; loss_curve_ := [];
                _no_improvement_count := 0; _best_coefs := None;
                _best_intercepts := None; _optimizer := None;
                _random_state := None;
                priv := {| Toy.best_loss_ := inf;
                           Toy.best_validation_score_ := ninf |} |};
     heap := []; np_random := g; warned := [] |}.

Definition X3 : data := [[of_int 1; of_int 2]; [of_int 3; of_int 4]; [of_int 5; of_int 6]].
Definition y3 : data := [[of_int 1]; [of_int 1]; [of_int 1]].

(** The optimizer of the small collaborator keeps the shapes of the arrays. *)
Lemma zip_keep_length {A B} (f : A -> B -> A) (l : list A) (k : list B) :
  length (Toy.zip_keep f l k) = length l.
Proof.
  revert k. induction l as [|a l IH]; intros [|b k]; simpl; try reflexivity.
  f_equal. apply IH.
Qed.

Lemma array_sub_len (p g : ndarray) : len (Toy.array_sub p g) = len p.
Proof.
  destruct p, g; simpl; try reflexivity; apply zip_keep_length.
Qed.

Lemma toy_update_keeps_shapes : keeps_shapes Toy.update_params.
Proof.
  intros o ps gs. unfold Toy.update_params. simpl.
  revert gs. induction ps as [|p ps IH]; intros [|g gs]; simpl.
  - constructor.
  - constructor.
  - apply Forall2_same_length_lookup_2; [reflexivity|]. intros i x y Hx Hy. congruence.
  - constructor; [apply array_sub_len|apply IH].
Qed.

(** The stages of a fit of [X3], [y3]: the bounds are set, the weights are
    initialised, the optimizer is built, the loop has run. *)
Definition bounded (h : hyper bool) (g : nat) (mn mx : option (list float64)) : toy_world :=
  world_of (set_coef_bounds X3 mn mx (fresh h g) None).

Definition prepared (h : hyper bool) (g : nat) (mn mx : option (list float64)) : toy_world :=
  world_of (toy_prepare X3 y3 false (bounded h g mn mx) None).

Definition ready (h : hyper bool) (g : nat) (mn mx : option (list float64)) : toy_world :=
  world_of (toy_training_setup X3 y3 false (prepared h g mn mx) None).

Definition trained (h : hyper bool) (g : nat) (mn mx : option (list float64)) : toy_world :=
  world_of (toy_train X3 y3 false (bounded h g mn mx) None).

Definition fitted (h : hyper bool) (g : nat) (mn mx : option (list float64))
    (sigint : option nat) : toy_world :=
  world_of (toy_fit X3 y3 mn mx (fresh h g) sigint).

(** [params] of these fits: two weight arrays, two intercept arrays. *)
Definition params3 : list ref := [0; 1; 2; 3]%nat.

(** The same hyper-parameters with an adaptive learning-rate schedule. *)
Definition adaptive_schedule (h : hyper bool) : hyper bool :=
  {| hidden_layer_sizes := hidden_layer_sizes h; solver := solver h;
     batch_size := batch_size h; max_iter := max_iter h;
     early_stopping := early_stopping h;
     validation_fraction := validation_fraction h;
     n_iter_no_change := n_iter_no_change h; tol := tol h;
     warm_start := warm_start h; random_state := random_state h;
     other := true |}.

(** Seed 7, three epochs, batches of two samples. *)
Definition h_plain : hyper bool := toy_hyper 7 3 1 zero (Size 2) false.

(** A loss that never improves by [tol = 1]; [n_iter_no_change = 1]. *)
Definition h_plateau : hyper bool := toy_hyper 7 5 1 (of_int 1) (Size 2) false.

(** Weights that start at zero. *)
Definition h_zero : hyper bool := toy_hyper 0 3 1 zero (Size 2) false.

(** Data with large values: the weights leave the range of the floating
    point numbers in the first epoch (7 - 2^1023 - 2^1023). *)
Definition X3_large : data :=
  [[of_int (2 ^ 1023); of_int 2]; [of_int 3; of_int 4]; [of_int (2 ^ 1023); of_int 6]].

Definition bounded_large : toy_world :=
  world_of (set_coef_bounds X3_large None None (fresh h_plain 0) None).

Definition trained_large : toy_world :=
  world_of (toy_train X3_large y3 false bounded_large None).

(** A held-out validation sample. *)
Definition h_early : hyper bool := toy_hyper 7 3 1 zero (Size 2) true.

(** The world after [n] epochs of the loop on the plateau. *)
Definition after_epochs (h : hyper bool) (n : nat) : toy_world :=
  world_of (toy_epochs n X3 y3 None params3 3 2 false false (ready h 0 None None) None).

(** The world after the mini-batches and the book-keeping of one more
    epoch, before the no-improvement rule is looked at. *)
Definition epoch_trained (h : hyper bool) (n : nat) : toy_world :=
  world_of (toy_epoch_train X3 y3 None params3 3 2 false (after_epochs h n) None).


(** C8 on the small collaborator: a fit whose weights stay finite returns,
    a fit on large values, whose weights overflow, raises the
    [ValueError]. *)
Lemma finite_fit_returns_and_infinite_fit_raises :
  (set_coef_bounds X3 None None (fresh h_plain 0) None
   = Returns tt (bounded h_plain 0 None None) None /\
   toy_train X3 y3 false (bounded h_plain 0 None None) None
   = Returns tt (trained h_plain 0 None None) None /\
   weights_finite (trained h_plain 0 None None) = true /\
   toy_fit X3 y3 None None (fresh h_plain 0) None
   = Returns tt (trained h_plain 0 None None) None) /\
  (set_coef_bounds X3_large None None (fresh h_plain 0) None
   = Returns tt bounded_large None /\
   toy_train X3_large y3 false bounded_large None
   = Returns tt trained_large None /\
   weights_finite trained_large = false /\
   heap trained_large !! O = Some (A2 [[ninf]; [ninf]]) /\
   toy_fit X3_large y3 None None (fresh h_plain 0) None
   = Raises ValueError_non_finite trained_large None).
Proof.
  assert (weights_finite (trained h_plain 0 None None) = true) as E1
    by (vm_compute; reflexivity).
  assert (weights_finite trained_large = false) as E2
    by (vm_compute; reflexivity).
  unfold toy_fit, toy_train.
  split.
  - split; [vm_compute; reflexivity|]. split; [vm_compute; reflexivity|].
    split; [exact E1|].
    destruct (non_finite_weights_raise_ValueError
                Toy._validate_hyperparameters Toy._validate_input Toy.RandomState Toy._initialize
                Toy._backprop Toy.SGDOptimizer Toy.AdamOptimizer Toy.update_params
                Toy.iteration_ends Toy.trigger_stopping Toy.train_test_split
                Toy.is_classifier Toy.inverse_transform Toy.no_improvement_rule
                X3 y3 None None (fresh h_plain 0) (bounded h_plain 0 None None)
                (trained h_plain 0 None None) None None None) as [H _];
      [vm_compute; reflexivity|vm_compute; reflexivity|].
    rewrite E1 in H. exact H.
  - split; [vm_compute; reflexivity|]. split; [vm_compute; reflexivity|].
    split; [exact E2|]. split; [vm_compute; reflexivity|].
    destruct (non_finite_weights_raise_ValueError
                Toy._validate_hyperparameters Toy._validate_input Toy.RandomState Toy._initialize
                Toy._backprop Toy.SGDOptimizer Toy.AdamOptimizer Toy.update_params
                Toy.iteration_ends Toy.trigger_stopping Toy.train_test_split
                Toy.is_classifier Toy.inverse_transform Toy.no_improvement_rule
                X3_large y3 None None (fresh h_plain 0) bounded_large
                trained_large None None None) as [H _];
      [vm_compute; reflexivity|vm_compute; reflexivity|].
    rewrite E2 in H. exact H.
Defined.
(** C6 on the plateau, from the world two epochs have left, where the
    counter is 1.  The third epoch brings the counter to 2, above
    [n_iter_no_change = 1]: a constant schedule halts the loop there, with
    three of the five epochs run; an adaptive schedule decays the learning
    rate, and the loop goes on with the counter at zero. *)
Lemma plateau_halts_or_decays :
  (toy_epoch_train X3 y3 None params3 3 2 false (after_epochs h_plateau 2) None
   = Returns tt (epoch_trained h_plateau 2) None /\
   _optimizer (self (epoch_trained h_plateau 2))
   = Some {| Toy.adaptive := false; Toy.decays := 0 |} /\
   _no_improvement_count (self (epoch_trained h_plateau 2)) = 2 /\
   toy_epochs 3 X3 y3 None params3 3 2 false false (after_epochs h_plateau 2) None
   = Returns tt (epoch_trained h_plateau 2) None) /\
  (toy_epoch_train X3 y3 None params3 3 2 false
     (after_epochs (adaptive_schedule h_plateau) 2) None
   = Returns tt (epoch_trained (adaptive_schedule h_plateau) 2) None /\
   _optimizer (self (epoch_trained (adaptive_schedule h_plateau) 2))
   = Some {| Toy.adaptive := true; Toy.decays := 0 |} /\
   _no_improvement_count (self (epoch_trained (adaptive_schedule h_plateau) 2)) = 2 /\
   toy_epochs 3 X3 y3 None params3 3 2 false false
     (after_epochs (adaptive_schedule h_plateau) 2) None
   = toy_epochs 2 X3 y3 None params3 3 2 false false
       (with_self (set_no_improvement_count 0)
          (with_self (set_optimizer (Some {| Toy.adaptive := true; Toy.decays := 1 |}))
             (epoch_trained (adaptive_schedule h_plateau) 2)))
       None).
Proof.
  unfold toy_epochs, toy_epoch_train.
  split.
  - split; [vm_compute; reflexivity|]. split; [vm_compute; reflexivity|].
    split; [vm_compute; reflexivity|].
    rewrite (no_improvement_rule_halts_or_decays
               Toy._backprop Toy.update_params Toy.iteration_ends Toy.trigger_stopping
               Toy.no_improvement_rule 2 X3 y3 None params3 3 2 false
               (after_epochs h_plateau 2) (epoch_trained h_plateau 2)
               {| Toy.adaptive := false; Toy.decays := 0 |});
      [|vm_compute; reflexivity|vm_compute; reflexivity].
    vm_compute; reflexivity.
  - split; [vm_compute; reflexivity|]. split; [vm_compute; reflexivity|].
    split; [vm_compute; reflexivity|].
    rewrite (no_improvement_rule_halts_or_decays
               Toy._backprop Toy.update_params Toy.iteration_ends Toy.trigger_stopping
               Toy.no_improvement_rule 2 X3 y3 None params3 3 2 false
               (after_epochs (adaptive_schedule h_plateau) 2)
               (epoch_trained (adaptive_schedule h_plateau) 2)
               {| Toy.adaptive := true; Toy.decays := 0 |});
      [|vm_compute; reflexivity|vm_compute; reflexivity].
    vm_compute; reflexivity.
Defined.

(** The rule as the claim words it does not hold: after the second epoch
    on the plateau the loss has failed to improve for [n_iter_no_change = 1]
    epoch (the counter is 1), and the loop neither halts nor touches the
    optimizer nor resets the counter: the rule leaves the world as it is and
    a third epoch is run.  It fires after that one only. *)
Lemma no_improvement_for_n_iter_no_change_epochs_goes_unnoticed :
  n_iter_no_change (hp (self (epoch_trained h_plateau 1))) = 1 /\
  _no_improvement_count (self (epoch_trained h_plateau 0)) = 0 /\
  _no_improvement_count (self (epoch_trained h_plateau 1)) = 1 /\
  toy_check_no_improvement (epoch_trained h_plateau 1) None
  = Returns false (epoch_trained h_plateau 1) None /\
  after_epochs h_plateau 2 = epoch_trained h_plateau 1 /\
  n_iter_ (self (after_epochs h_plateau 2)) = 2 /\
  n_iter_ (self (after_epochs h_plateau 3)) = 3 /\
  n_iter_ (self (fitted h_plateau 0 None None None)) = 3.
Proof.
  split; [vm_compute; reflexivity|].
  split; [vm_compute; reflexivity|].
  split; [vm_compute; reflexivity|].
  split; [vm_compute; reflexivity|].
  split; [vm_compute; reflexivity|].
  split; [vm_compute; reflexivity|].
  split; vm_compute; reflexivity.
Qed.
(** Bounds for the two features: [[0, 1]] each. *)
Definition zeros2 : option (list float64) := Some [zero; zero].
Definition ones2 : option (list float64) := Some [of_int 1; of_int 1].

(** C3 on the batch made of the third sample, with weights at zero and the
    bounds [[0, 1]]: the optimizer gets the gradient 5 as it is and moves
    the first-layer weights to [-5]; the clipping then overwrites them with
    0. *)
Lemma third_sample_is_updated_then_clipped :
  _optimizer (self (ready h_zero 0 zeros2 ones2))
  = Some {| Toy.adaptive := false; Toy.decays := 0 |} /\
  params3 !! O = Some O /\
  assign (heap (ready h_zero 0 zeros2 ones2)) params3
    (snd (Toy.update_params {| Toy.adaptive := false; Toy.decays := 0 |}
            (load (heap (ready h_zero 0 zeros2 ones2)) params3)
            [A2 [[of_int 5]; [of_int 5]]; A2 [[of_int 5]]; A1 [zero]; A1 [zero]])) !! O
  = Some (A2 [[of_int (-5)]; [of_int (-5)]]) /\
  clip_items (A2 [[of_int (-5)]; [of_int (-5)]]) O [(zero, of_int 1); (zero, of_int 1)]
  = Some (A2 [[zero]; [zero]]) /\
  exists w',
    toy_batch_loop X3 y3 params3 [Slice 2 3] zero (ready h_zero 0 zeros2 ones2) None
    = Returns (of_int 1) w' None /\
    heap w' !! O = Some (A2 [[zero]; [zero]]).
Proof.
  unfold toy_batch_loop.
  split; [vm_compute; reflexivity|]. split; [reflexivity|].
  split; [vm_compute; reflexivity|]. split; [vm_compute; reflexivity|].
  rewrite (clipping_follows_the_optimizer_update Toy._backprop Toy.update_params
             X3 y3 params3 (Slice 2 3) [] zero (ready h_zero 0 zeros2 ones2)
             {| Toy.adaptive := false; Toy.decays := 0 |} O
             (A2 [[of_int (-5)]; [of_int (-5)]]) (A2 [[zero]; [zero]]));
    [|vm_compute; reflexivity|reflexivity|vm_compute; reflexivity|vm_compute; reflexivity].
  eexists. split; [vm_compute; reflexivity|vm_compute; reflexivity].
Defined.

(** The loop does not clip the gradients before the optimizer applies
    them.  On the same batch a loop that did would hand the optimizer the
    gradient 1 (5 clipped into [[0, 1]]) and leave the weights at [-1]; the
    loop of the code leaves them at 0. *)
Lemma gradients_are_not_clipped_before_the_update :
  heap (world_of (toy_batch_loop X3 y3 params3 [Slice 2 3] zero
                    (ready h_zero 0 zeros2 ones2) None)) !! O
  = Some (A2 [[zero]; [zero]]) /\
  heap (world_of (toy_batch_loop_clipping_gradients X3 y3 params3 [Slice 2 3] zero
                    (ready h_zero 0 zeros2 ones2) None)) !! O
  = Some (A2 [[of_int (-1)]; [of_int (-1)]]).
Proof.
  split; vm_compute; reflexivity.
Qed.
(** The same hyper-parameters without a [random_state], or with the
    L-BFGS solver. *)
Definition without_random_state (h : hyper bool) : hyper bool :=
  {| hidden_layer_sizes := hidden_layer_sizes h; solver := solver h;
     batch_size := batch_size h; max_iter := max_iter h;
     early_stopping := early_stopping h;
     validation_fraction := validation_fraction h;
     n_iter_no_change := n_iter_no_change h; tol := tol h;
     warm_start := warm_start h; random_state := None;
     other := other h |}.

Definition with_warm_start (h : hyper bool) : hyper bool :=
  {| hidden_layer_sizes := hidden_layer_sizes h; solver := solver h;
     batch_size := batch_size h; max_iter := max_iter h;
     early_stopping := early_stopping h;
     validation_fraction := validation_fraction h;
     n_iter_no_change := n_iter_no_change h; tol := tol h;
     warm_start := true; random_state := random_state h;
     other := other h |}.

Definition with_lbfgs (h : hyper bool) : hyper bool :=
  {| hidden_layer_sizes := hidden_layer_sizes h; solver := lbfgs;
     batch_size := batch_size h; max_iter := max_iter h;
     early_stopping := early_stopping h;
     validation_fraction := validation_fraction h;
     n_iter_no_change := n_iter_no_change h; tol := tol h;
     warm_start := warm_start h; random_state := random_state h;
     other := other h |}.




(** Early stopping with batches of one sample. *)
Definition h_unit_batches : hyper bool := toy_hyper 7 3 1 zero (Size 1) true.

(** An estimator with [warm_start], fitted once. *)
Definition warm_fitted : toy_world := fitted (with_warm_start h_plain) 0 None None None.


(** Row [k] of the first weight matrix of [w] has no negative entry. *)
Definition nonnegative_row (w : toy_world) (k : nat) : Prop :=
  exists r a row,
    (coefs_ (self w) ++ intercepts_ (self w)) !! O = Some r /\
    (coefs_ (self w) <> [] -> coefs_ (self w) !! O = Some r) /\
    heap w !! r = Some a /\ item a k = Some row /\
    Forall (fun x => ge x zero = true) row.


(** Samples whose first feature is large, and an estimator fitted with
    early stopping (its best weights are those of the first epoch, 3). *)
Definition X3_huge : data :=
  [[of_int (2 ^ 1023); of_int 2]; [of_int (2 ^ 1023); of_int 4];
   [of_int (2 ^ 1023); of_int 6]].

Definition early_fitted : toy_world := fitted h_unit_batches 0 None None None.


(** What [training_setup] hands to the loop for [X3], [y3]: all three
    samples, or the first two with the third held out. *)
Definition setup3 : setup :=
  {| st_params := params3; st_early_stopping := false;
     st_X := X3; st_y := y3; st_val := None;
     st_n_samples := 3; st_batch_size := 2 |}.

Definition setup3_early : setup :=
  {| st_params := params3; st_early_stopping := true;
     st_X := take 2 X3; st_y := take 2 y3; st_val := Some (drop 2 X3, drop 2 y3);
     st_n_samples := 2; st_batch_size := 2 |}.

(** The world an interruption leaves the epochs in. *)
Definition interrupted (st : setup) (w : toy_world) (sigint : nat) : toy_world :=
  world_of (toy_run_epochs st false w (Some sigint)).



(** The fitted coefficient matrices, intercepts and loss curve. *)
Definition fitted_model (w : toy_world)
    : list ndarray * list ndarray * list float64 :=
  (load (heap w) (coefs_ (self w)), load (heap w) (intercepts_ (self w)),
   loss_curve_ (self w)).

(** C4, where the code departs from it.  The validation split of line 146
    is drawn without [random_state]: it consumes NumPy's global generator,
    which [self.random_state] does not seed.  Two fits of the same
    estimator (same [random_state = 7], same hyper-parameters, early
    stopping enabled) on the same data, started with the global generator
    in two different states, both return and differ in the fitted weights.
    Without early stopping the state of the global generator is not read,
    and the two fits agree. *)
Theorem early_stopping_split_ignores_random_state :
  self (fresh h_early 0) = self (fresh h_early 1) /\
  random_state (hp (self (fresh h_early 0))) = Some 7 /\
  toy_fit X3 y3 None None (fresh h_early 0) None
  = Returns tt (fitted h_early 0 None None None) None /\
  toy_fit X3 y3 None None (fresh h_early 1) None
  = Returns tt (fitted h_early 1 None None None) None /\
  fitted_model (fitted h_early 0 None None None)
  = ([A2 [[of_int 6]; [of_int 6]]; A2 [[of_int 6]]], [A1 [zero]; A1 [zero]],
     [of_int 1; of_int 1; of_int 1]) /\
  fitted_model (fitted h_early 1 None None None)
  = ([A2 [[of_int 4]; [of_int 4]]; A2 [[of_int 4]]], [A1 [zero]; A1 [zero]],
     [of_int 1; of_int 1; of_int 1]) /\
  fitted_model (fitted h_plain 0 None None None)
  = fitted_model (fitted h_plain 1 None None None).
Proof.
  split; [reflexivity|]. split; [reflexivity|].
  split; [vm_compute; reflexivity|]. split; [vm_compute; reflexivity|].
  split; [vm_compute; reflexivity|]. split; vm_compute; reflexivity.
Qed.

(** *** The mini-batches on three samples *)

Definition toy_batch_steps :=
  @batch_steps Toy.attrs Toy.optimizer nat bool Toy._backprop Toy.update_params.

Definition toy_epoch_bookkeeping :=
  @epoch_bookkeeping Toy.attrs Toy.optimizer nat bool Toy.iteration_ends
    Toy.no_improvement_rule.

Definition toy_epochs_on :=
  @epochs_on Toy.attrs Toy.optimizer nat bool Toy._backprop Toy.update_params
    Toy.iteration_ends Toy.trigger_stopping Toy.no_improvement_rule.

(** The mini-batches of [X3], [y3] for the batch size 2. *)
Definition batches3 : list (data * data) :=
  [([[of_int 1; of_int 2]; [of_int 3; of_int 4]], [[of_int 1]; [of_int 1]]);
   ([[of_int 5; of_int 6]], [[of_int 1]])].



(** ** The further properties on the small collaborator *)

(** A world of the loop, with the bounds [[0, 1]], in which the weights
    have gone to [-3]; the world its clipping step leaves. *)
Definition unclipped : toy_world :=
  with_heap [A2 [[of_int (-3)]; [of_int (-3)]]; A2 [[of_int (-3)]]; A1 [zero]; A1 [zero]]
    (ready h_zero 0 zeros2 ones2).

Definition clipped : toy_world :=
  world_of (toy_update_coef_using_constrain params3 unclipped None).

(** X1 there: the first weight matrix goes from [-3] to 0, the second one
    stays at [-3], the estimator is as before. *)
Lemma clipping_writes_the_first_matrix_only :
  toy_update_coef_using_constrain params3 unclipped None = Returns tt clipped None /\
  self clipped = self unclipped /\
  heap unclipped !! O = Some (A2 [[of_int (-3)]; [of_int (-3)]]) /\
  heap clipped !! O = Some (A2 [[zero]; [zero]]) /\
  heap clipped !! 1%nat = Some (A2 [[of_int (-3)]]) /\
  heap clipped !! 1%nat = heap unclipped !! 1%nat /\
  length (heap clipped) = length (heap unclipped).
Proof.
  unfold toy_update_coef_using_constrain.
  assert (_update_coef_using_constrain params3 unclipped None
          = Returns tt clipped None) as H by (vm_compute; reflexivity).
  destruct (clipping_writes_only_the_bounded_items params3 unclipped clipped
              None None H) as (Hs & _ & _ & Hl & Hother & _).
  split; [exact H|]. split; [exact Hs|].
  split; [vm_compute; reflexivity|]. split; [vm_compute; reflexivity|].
  split; [vm_compute; reflexivity|].
  split; [apply Hother; discriminate|exact Hl].
Defined.

(** X2 there: clipping the clipped world changes nothing. *)
Lemma clipping_twice_is_clipping_once :
  toy_update_coef_using_constrain params3 unclipped None = Returns tt clipped None /\
  toy_update_coef_using_constrain params3 clipped None = Returns tt clipped None.
Proof.
  unfold toy_update_coef_using_constrain.
  assert (_update_coef_using_constrain params3 unclipped None
          = Returns tt clipped None) as H by (vm_compute; reflexivity).
  split; [exact H|].
  exact (clipping_step_is_idempotent params3 unclipped clipped H).
Defined.

(** Weights at zero, strictly between the bounds [-1] and 1. *)
Definition inner : toy_world :=
  ready h_zero 0 (Some [of_int (-1); of_int (-1)]) ones2.

(** X3 there: the clipping step leaves the world as it is. *)
Lemma inner_weights_are_left_alone :
  params3 !! O = Some O /\
  heap inner !! O = Some (A2 [[zero]; [zero]]) /\
  bound_count inner = 2%nat /\
  lt (of_int (-1)) zero = true /\ lt zero (of_int 1) = true /\
  toy_update_coef_using_constrain params3 inner None = Returns tt inner None.
Proof.
  unfold toy_update_coef_using_constrain.
  split; [reflexivity|]. split; [vm_compute; reflexivity|].
  split; [vm_compute; reflexivity|]. split; [vm_compute; reflexivity|].
  split; [vm_compute; reflexivity|].
  apply (clipping_leaves_inner_weights_alone params3 inner O (A2 [[zero]; [zero]])).
  - reflexivity.
  - vm_compute. reflexivity.
  - vm_compute. lia.
  - intros j lo hi row Hb Hi.
    assert (zip (min_coef_ (self inner)) (max_coef_ (self inner))
            = [(of_int (-1), of_int 1); (of_int (-1), of_int 1)]) as Ez
      by (vm_compute; reflexivity).
    rewrite Ez in Hb.
    destruct j as [|[|j]]; simpl in Hb, Hi; try discriminate;
      injection Hb as <- <-; injection Hi as <-;
      (constructor; [split; vm_compute; reflexivity|constructor]).
Defined.

(** The unclipped world with three pairs of bounds for a first matrix of
    two rows. *)
Definition overbounded : toy_world :=
  with_self (set_bounds [zero; zero; zero] [of_int 1; of_int 1; of_int 1]) unclipped.

(** X4 there: the two rows are clipped, then the [IndexError] is raised;
    and with no parameters at all it is raised at once. *)
Lemma third_pair_of_bounds_raises :
  (len (A2 [[of_int (-3)]; [of_int (-3)]]) < bound_count overbounded)%nat /\
  toy_update_coef_using_constrain params3 overbounded None
  = Raises IndexError
      (with_heap (<[O := A2 [[zero]; [zero]]]> (heap overbounded)) overbounded) None /\
  toy_update_coef_using_constrain [] overbounded None
  = Raises IndexError overbounded None.
Proof.
  unfold toy_update_coef_using_constrain.
  destruct (clipping_past_the_last_item_raises params3 overbounded) as [H _].
  destruct (clipping_past_the_last_item_raises [] overbounded) as [_ H0].
  split; [vm_compute; lia|]. split.
  - destruct (H O (A2 [[of_int (-3)]; [of_int (-3)]])) as (a' & Hr & _ & _).
    + reflexivity.
    + vm_compute. reflexivity.
    + vm_compute. lia.
    + pose proof Hr as Hc. vm_compute in Hc. injection Hc as Ha. subst a'.
      rewrite Hr. reflexivity.
  - apply H0; [reflexivity|vm_compute; lia].
Defined.

Definition toy_constrained_fit :=
  @_constrained_fit Toy.attrs Toy.optimizer nat bool
    Toy._validate_hyperparameters Toy._validate_input Toy.RandomState Toy._initialize Toy._backprop
    Toy.SGDOptimizer Toy.AdamOptimizer Toy.update_params Toy.iteration_ends
    Toy.trigger_stopping Toy.train_test_split Toy.is_classifier Toy.inverse_transform
    Toy.no_improvement_rule.

(** Hyper-parameters with other hidden layer sizes. *)
Definition with_hidden_layer_sizes (sizes : list Z) (h : hyper bool) : hyper bool :=
  {| hidden_layer_sizes := sizes; solver := solver h;
     batch_size := batch_size h; max_iter := max_iter h;
     early_stopping := early_stopping h;
     validation_fraction := validation_fraction h;
     n_iter_no_change := n_iter_no_change h; tol := tol h;
     warm_start := warm_start h; random_state := random_state h;
     other := other h |}.

(** X5 there: hidden layers of sizes 2 and 0. *)
Lemma empty_hidden_layer_raises :
  Toy._validate_hyperparameters (with_hidden_layer_sizes [2; 0] h_plain) = true /\
  toy_constrained_fit X3 y3 false
    (bounded (with_hidden_layer_sizes [2; 0] h_plain) 0 None None) None
  = Raises ValueError_hidden_layer_sizes
      (bounded (with_hidden_layer_sizes [2; 0] h_plain) 0 None None) None.
Proof.
  unfold toy_constrained_fit. split; [reflexivity|].
  apply (nonpositive_hidden_layer_size_raises
           Toy._validate_hyperparameters Toy._validate_input Toy.RandomState Toy._initialize
           Toy._backprop Toy.SGDOptimizer Toy.AdamOptimizer Toy.update_params
           Toy.iteration_ends Toy.trigger_stopping Toy.train_test_split
           Toy.is_classifier Toy.inverse_transform Toy.no_improvement_rule).
  - reflexivity.
  - change (Exists (fun n => n <= 0) [2; 0]).
    apply Exists_cons_tl, Exists_cons_hd. lia.
Defined.

(** The estimator after a first fit with [warm_start] set. *)
Definition warm : toy_world := fitted (with_warm_start h_plain) 0 None None None.

(** X6 there: the preparation of a second fit keeps the fitted weights
    ([-11] after three epochs) and the three epochs on the counter. *)
Lemma second_fit_starts_from_the_fitted_weights :
  has_coefs_ (self warm) = true /\
  warm_start (hp (self warm)) = true /\
  toy_prepare X3 y3 false warm None
  = Returns (X3, y3, [2; 1; 1]) (world_of (toy_prepare X3 y3 false warm None)) None /\
  heap (world_of (toy_prepare X3 y3 false warm None)) = heap warm /\
  heap warm !! O = Some (A2 [[of_int (-11)]; [of_int (-11)]]) /\
  n_iter_ (self (world_of (toy_prepare X3 y3 false warm None))) = 3.
Proof.
  unfold toy_prepare.
  assert (prepare Toy._validate_hyperparameters Toy._validate_input Toy.RandomState Toy._initialize
            X3 y3 false warm None
          = Returns (X3, y3, [2; 1; 1])
              (world_of (prepare Toy._validate_hyperparameters Toy._validate_input
                           Toy.RandomState
                           Toy._initialize X3 y3 false warm None)) None) as H
    by (vm_compute; reflexivity).
  destruct (warm_start_keeps_the_weights
              Toy._validate_hyperparameters Toy._validate_input Toy.RandomState Toy._initialize
              X3 y3 false warm _ None None _ ltac:(vm_compute; reflexivity)
              ltac:(left; vm_compute; reflexivity) H)
    as (Hh & _ & _ & Hn & _).
  split; [vm_compute; reflexivity|]. split; [vm_compute; reflexivity|].
  split; [exact H|]. split; [exact Hh|]. split; [vm_compute; reflexivity|].
  rewrite Hn. vm_compute. reflexivity.
Defined.

(** X8 there: a fit without early stopping leaves the generator at 5. *)
Lemma generator_is_spared_without_early_stopping :
  early_stopping (hp (self (prepared h_plain 5 None None))) = false /\
  np_random (prepared h_plain 5 None None) = 5%nat /\
  np_random (world_of (toy_fit_constrained_stochastic X3 y3 [2; 1; 1] false
                         (prepared h_plain 5 None None) None)) = 5%nat /\
  np_random (world_of (toy_fit_constrained_stochastic X3 y3 [2; 1; 1] false
                         (prepared h_early 5 None None) None)) = 6%nat.
Proof.
  unfold toy_fit_constrained_stochastic.
  split; [reflexivity|]. split; [vm_compute; reflexivity|].
  split; [|vm_compute; reflexivity].
  pose proof (loop_without_validation_split_spares_the_generator
                Toy._backprop Toy.SGDOptimizer Toy.AdamOptimizer Toy.update_params
                Toy.iteration_ends Toy.trigger_stopping Toy.train_test_split
                Toy.is_classifier Toy.inverse_transform Toy.no_improvement_rule
                X3 y3 [2; 1; 1] false (prepared h_plain 5 None None) None
                ltac:(left; reflexivity)) as H.
  destruct (_fit_constrained_stochastic _ _ _ _ _ _ _ _ _ _ X3 y3 [2; 1; 1] false
              (prepared h_plain 5 None None) None) as [a w' i'|e w' i'];
    cbn [world_of]; rewrite H; vm_compute; reflexivity.
Defined.

(** The world the loop function of an early-stopping fit returns. *)
Definition early_stopped : toy_world :=
  world_of (toy_fit_constrained_stochastic X3 y3 [2; 1; 1] false
              (prepared h_early 0 None None) None).

(** X9 there: the weights are those recorded after the first epoch (6),
    not those the third epoch has left (4). *)
Lemma early_stopped_fit_holds_the_first_epoch_weights :
  early_stopping (hp (self (prepared h_early 0 None None))) = true /\
  toy_fit_constrained_stochastic X3 y3 [2; 1; 1] false
    (prepared h_early 0 None None) None = Returns tt early_stopped None /\
  _best_coefs (self early_stopped) = Some (coefs_ (self early_stopped)) /\
  _best_intercepts (self early_stopped) = Some (intercepts_ (self early_stopped)) /\
  coefs_ (self early_stopped) = [4; 5]%nat /\
  heap early_stopped !! 4%nat = Some (A2 [[of_int 6]; [of_int 6]]) /\
  heap early_stopped !! O = Some (A2 [[of_int 4]; [of_int 4]]).
Proof.
  unfold toy_fit_constrained_stochastic.
  assert (_fit_constrained_stochastic Toy._backprop Toy.SGDOptimizer Toy.AdamOptimizer
            Toy.update_params Toy.iteration_ends Toy.trigger_stopping
            Toy.train_test_split Toy.is_classifier Toy.inverse_transform
            Toy.no_improvement_rule X3 y3 [2; 1; 1] false
            (prepared h_early 0 None None) None
          = Returns tt early_stopped None) as H by (vm_compute; reflexivity).
  destruct (early_stopping_fit_ends_on_the_best_weights
              Toy._backprop Toy.SGDOptimizer Toy.AdamOptimizer Toy.update_params
              Toy.iteration_ends Toy.trigger_stopping Toy.train_test_split
              Toy.is_classifier Toy.inverse_transform Toy.no_improvement_rule
              X3 y3 [2; 1; 1] (prepared h_early 0 None None) early_stopped None None
              ltac:(reflexivity) H) as [Hc Hi].
  split; [reflexivity|]. split; [exact H|]. split; [exact Hc|]. split; [exact Hi|].
  split; [vm_compute; reflexivity|]. split; vm_compute; reflexivity.
Defined.

(** X10 there: three rounds, three epochs, nine samples seen, three
    losses on the curve. *)
Lemma three_rounds_are_three_epochs :
  toy_epochs 3 X3 y3 None params3 3 2 false false (ready h_plain 0 None None) None
  = Returns tt (after_epochs h_plain 3) None /\
  exists (k : nat) (losses : list float64),
    (k <= 3)%nat /\ length losses = k /\
    n_iter_ (self (after_epochs h_plain 3)) = 0 + Z.of_nat k /\
    t_ (self (after_epochs h_plain 3)) = 0 + Z.of_nat k * 3 /\
    loss_curve_ (self (after_epochs h_plain 3)) = [] ++ losses /\
    n_iter_ (self (after_epochs h_plain 3)) = 3 /\
    t_ (self (after_epochs h_plain 3)) = 9.
Proof.
  unfold toy_epochs.
  assert (epochs Toy._backprop Toy.update_params Toy.iteration_ends
            Toy.trigger_stopping Toy.no_improvement_rule
            3 X3 y3 None params3 3 2 false false (ready h_plain 0 None None) None
          = Returns tt (after_epochs h_plain 3) None) as H by (vm_compute; reflexivity).
  split; [exact H|].
  destruct (completed_epochs_are_counted
              Toy._backprop Toy.update_params Toy.iteration_ends Toy.trigger_stopping
              Toy.no_improvement_rule 3 X3 y3 None params3 3 2 false false
              (ready h_plain 0 None None) (after_epochs h_plain 3) None None H)
    as (k & losses & Hk & Hlen & Hn & Ht & Hc & _).
  exists k, losses.
  split; [exact Hk|]. split; [exact Hlen|]. split; [exact Hn|]. split; [exact Ht|].
  split; [exact Hc|]. split; vm_compute; reflexivity.
Defined.

(** X11 there: an incremental loop with [max_iter = 3] runs one epoch. *)
Lemma incremental_rounds_run_one_epoch :
  toy_epochs 3 X3 y3 None params3 3 2 false true (ready h_plain 0 None None) None
  = toy_epochs 1 X3 y3 None params3 3 2 false true (ready h_plain 0 None None) None /\
  n_iter_ (self (world_of (toy_epochs 3 X3 y3 None params3 3 2 false true
                             (ready h_plain 0 None None) None))) = 1 /\
  warned (world_of (toy_epochs 3 X3 y3 None params3 3 2 false true
                      (ready h_plain 0 None None) None)) = [].
Proof.
  unfold toy_epochs.
  destruct (incremental_fit_runs_one_epoch
              Toy._backprop Toy.update_params Toy.iteration_ends Toy.trigger_stopping
              Toy.no_improvement_rule 2 X3 y3 None params3 3 2 false
              (ready h_plain 0 None None) None) as [E _].
  split; [exact E|]. split; vm_compute; reflexivity.
Defined.
